(** * GEM-Assist autonomous agent: a shallow embedding of the agent core

    The development follows the TypeScript sources of the agent core:
    - [server/agent/types.ts]       the data model (one module per type);
    - [server/agent/memory.ts]      the memory ledger (module [Memory]);
    - [server/agent/tools.ts]       the tool sandbox, in its two generations
                                    (modules [Sandbox], and [LegacyTools]
                                    with [ToolRegistry]);
    - [server/agent/engine.ts]      planner, executor, reflector and the
                                    orchestration loop (module [Engine]);
    - [server/agent/worker.ts]      the queue worker (module [Worker]).

    Effectful code is written in a state-and-exception monad whose state
    is the part of the world the code touches; what the outside world
    answers (the clock, the id generator, the language model, the JSON
    parser of the runtime) is read from an explicit [World] of oracles. *)

From stdpp Require Import base option list strings pretty sorting gmap.
From Stdlib Require Import Ascii ZArith Lia.

(** ** JavaScript primitives used by the sources *)

Module Js.

(** The line feed and carriage return characters. *)
Definition lf : ascii := "010"%char.
Definition cr : ascii := "013"%char.
Definition nl : string := String lf "".

(** [Array.prototype.slice(start)]: a negative [start] counts from the
    end, and both directions are clamped to the array. *)
Definition slice_from {A} (start : Z) (l : list A) : list A :=
  if (start <? 0)%Z
  then drop (Z.to_nat (Z.max (Z.of_nat (length l) + start) 0)) l
  else drop (Z.to_nat start) l.

(** [Array.prototype.slice(start, end)] for the non-negative arguments
    the sources pass. *)
Definition slice {A} (start stop : nat) (l : list A) : list A :=
  drop start (take stop l).

(** [Array.prototype.splice(start, deleteCount, ...items)] for an
    in-range [start]: the array with the items in place of the
    deleted elements. *)
Definition splice {A} (start deleteCount : nat) (items l : list A) : list A :=
  take start l ++ items ++ drop (start + deleteCount) l.

(** [Array.prototype.join(sep)] on strings. *)
Definition join (sep : string) (l : list string) : string :=
  String.concat sep l.

(** [String.prototype.split(/\r?\n/)]: the text is cut at every line
    feed, and a carriage return right before a line feed belongs to the
    separator.  The result always has at least one element. *)
Fixpoint split_lines_go (cur : string) (s : string) : list string :=
  match s with
  | EmptyString => [String.rev cur]
  | String c rest =>
      if decide (c = lf) then String.rev cur :: split_lines_go "" rest
      else if decide (c = cr) then
        match rest with
        | String c' rest' =>
            if decide (c' = lf) then String.rev cur :: split_lines_go "" rest'
            else split_lines_go (String c cur) rest
        | EmptyString => split_lines_go (String c cur) rest
        end
      else split_lines_go (String c cur) rest
  end.
Definition split_lines (s : string) : list string := split_lines_go "" s.

(** [String.prototype.split("\n")]. *)
Fixpoint split_lf_go (cur : string) (s : string) : list string :=
  match s with
  | EmptyString => [String.rev cur]
  | String c rest =>
      if decide (c = lf) then String.rev cur :: split_lf_go "" rest
      else split_lf_go (String c cur) rest
  end.
Definition split_lf (s : string) : list string := split_lf_go "" s.

(** [String.prototype.toUpperCase] on the ASCII letters. *)
Definition upper_ascii (c : ascii) : ascii :=
  let n := nat_of_ascii c in
  if (97 <=? n)%nat && (n <=? 122)%nat then ascii_of_nat (n - 32) else c.
Fixpoint toUpperCase (s : string) : string :=
  match s with
  | EmptyString => EmptyString
  | String c rest => String (upper_ascii c) (toUpperCase rest)
  end.

(** [String.prototype.substring(0, n)]. *)
Definition substring0 (n : nat) (s : string) : string := String.substring 0 n s.

(** [String.prototype.startsWith]. *)
Definition startsWith (s p : string) : bool := String.prefix p s.

(** Truthiness of an optional string: [undefined] and the empty string
    are falsy. *)
Definition truthy (o : option string) : bool :=
  match o with
  | Some s => negb (String.eqb s "")
  | None => false
  end.

(** The double quote character, as a string. *)
Definition dquote : string := String (ascii_of_nat 34) "".

(** The white space of [\s] and of [trim], among the ASCII characters. *)
Definition is_space (c : ascii) : bool :=
  let n := nat_of_ascii c in
  ((9 <=? n)%nat && (n <=? 13)%nat) || (n =? 32)%nat.

Definition is_digit (c : ascii) : bool :=
  let n := nat_of_ascii c in
  (48 <=? n)%nat && (n <=? 57)%nat.

Fixpoint drop_while (p : ascii → bool) (s : string) : string :=
  match s with
  | EmptyString => EmptyString
  | String c rest => if p c then drop_while p rest else s
  end.

(** [String.prototype.trim]. *)
Definition trim (s : string) : string :=
  String.rev (drop_while is_space (String.rev (drop_while is_space s))).

(** A number as a template literal prints it. *)
Definition show (n : Z) : string := pretty n.

End Js.

(** ** A state-and-exception monad

    [Throw] is a JavaScript exception carrying its [message]; the state
    reached when it was raised is kept, as mutations are not rolled back.
    [Diverge] marks a loop that ran out of the fuel it was given. *)

Inductive Result (A : Type) : Type :=
  | Ok (a : A)
  | Throw (message : string)
  | Diverge.
Arguments Ok {A} a.
Arguments Throw {A} message.
Arguments Diverge {A}.

Definition State (S A : Type) : Type := S → Result A * S.

#[global] Instance State_ret {S} : MRet (State S) := λ A a s, (Ok a, s).
#[global] Instance State_bind {S} : MBind (State S) := λ A B f m s,
  match m s with
  | (Ok a, s') => f a s'
  | (Throw e, s') => (Throw e, s')
  | (Diverge, s') => (Diverge, s')
  end.

Definition throw {S A} (message : string) : State S A := λ s, (Throw message, s).
Definition diverge {S A} : State S A := λ s, (Diverge, s).
Definition get {S} : State S S := λ s, (Ok s, s).
Definition gets {S A} (f : S → A) : State S A := λ s, (Ok (f s), s).
Definition modify {S} (f : S → S) : State S unit := λ s, (Ok (), f s).

(** [try { m } catch (e) { handler(e.message) }]. *)
Definition try_catch {S A} (m : State S A) (handler : string → State S A) : State S A :=
  λ s, match m s with
       | (Throw e, s') => handler e s'
       | r => r
       end.

(** A [try] block that assigns a local variable on its way:
    [try { x = m; k(x) } catch (e) { handler(e.message) }], where [k]
    brings the handler that sees the assigned [x]. *)
Definition try_bind {S A B} (m : State S A) (k : A → State S B)
    (handler : string → State S B) : State S B :=
  λ s, match m s with
       | (Ok a, s') => k a s'
       | (Throw e, s') => handler e s'
       | (Diverge, s') => (Diverge, s')
       end.

(** [if (c) { m }] with no else branch. *)
Definition when {S} (c : bool) (m : State S unit) : State S unit :=
  if c then m else mret ().

(** ** The data model ([types.ts]) *)

Module TaskStatus.
Inductive t : Set := pending | running | done | failed | skipped.
#[global] Instance eq_dec : EqDecision t.
Proof. solve_decision. Defined.
End TaskStatus.

Module RunStatus.
Inductive t : Set :=
  idle | planning | executing | reflecting | completed | failed | paused.
#[global] Instance eq_dec : EqDecision t.
Proof. solve_decision. Defined.
End RunStatus.

Module GoalStatus.
Inductive t : Set := completed | in_progress | failed.
#[global] Instance eq_dec : EqDecision t.
Proof. solve_decision. Defined.
End GoalStatus.

Module ReflectionResult.
(** The fields as the engine reads them: [success] and [shouldRetry]
    through their truthiness, [analysis] and [confidence] printed in a
    log line. *)
Record t : Type := mk {
  success : bool;
  analysis : string;
  shouldRetry : bool;
  adjustments : option string;
  confidence : Z }.
End ReflectionResult.

Module Task.
Record t : Type := mk {
  id : Z;
  description : string;
  status : TaskStatus.t;
  result : option string;
  reflection : option ReflectionResult.t;
  startedAt : option string;
  completedAt : option string }.

Definition set_status (v : TaskStatus.t) (k : t) : t :=
  mk (id k) (description k) v (result k) (reflection k) (startedAt k) (completedAt k).
Definition set_result (v : string) (k : t) : t :=
  mk (id k) (description k) (status k) (Some v) (reflection k) (startedAt k) (completedAt k).
Definition set_reflection (v : ReflectionResult.t) (k : t) : t :=
  mk (id k) (description k) (status k) (result k) (Some v) (startedAt k) (completedAt k).
Definition set_startedAt (v : string) (k : t) : t :=
  mk (id k) (description k) (status k) (result k) (reflection k) (Some v) (completedAt k).
Definition set_completedAt (v : string) (k : t) : t :=
  mk (id k) (description k) (status k) (result k) (reflection k) (startedAt k) (Some v).
End Task.

Module LogType.
Inductive t : Set := info | task | tool | reflection | error | warning.
End LogType.

Module AgentLogEntry.
Record t : Type := mk {
  timestamp : string;
  type : LogType.t;
  message : string;
  data : option string }.
End AgentLogEntry.

Module AgentState.
Record t : Type := mk {
  id : string;
  goal : string;
  tasks : list Task.t;
  currentTask : Z;
  log : list AgentLogEntry.t;
  status : RunStatus.t;
  stepsExecuted : Z;
  maxSteps : Z;
  createdAt : string;
  updatedAt : string;
  autonomous : bool }.

Definition set_tasks (v : list Task.t) (a : t) : t :=
  mk (id a) (goal a) v (currentTask a) (log a) (status a) (stepsExecuted a)
     (maxSteps a) (createdAt a) (updatedAt a) (autonomous a).
Definition set_currentTask (v : Z) (a : t) : t :=
  mk (id a) (goal a) (tasks a) v (log a) (status a) (stepsExecuted a)
     (maxSteps a) (createdAt a) (updatedAt a) (autonomous a).
Definition set_log (v : list AgentLogEntry.t) (a : t) : t :=
  mk (id a) (goal a) (tasks a) (currentTask a) v (status a) (stepsExecuted a)
     (maxSteps a) (createdAt a) (updatedAt a) (autonomous a).
Definition set_status (v : RunStatus.t) (a : t) : t :=
  mk (id a) (goal a) (tasks a) (currentTask a) (log a) v (stepsExecuted a)
     (maxSteps a) (createdAt a) (updatedAt a) (autonomous a).
Definition set_stepsExecuted (v : Z) (a : t) : t :=
  mk (id a) (goal a) (tasks a) (currentTask a) (log a) (status a) v
     (maxSteps a) (createdAt a) (updatedAt a) (autonomous a).
Definition set_updatedAt (v : string) (a : t) : t :=
  mk (id a) (goal a) (tasks a) (currentTask a) (log a) (status a) (stepsExecuted a)
     (maxSteps a) (createdAt a) v (autonomous a).
End AgentState.

Module MemoryType.
Inductive t : Set := task | decision | result | goal.
(** The tag as the JSON document spells it. *)
Definition name (k : t) : string :=
  match k with
  | task => "task" | decision => "decision" | result => "result" | goal => "goal"
  end.
End MemoryType.

Module MemoryEntry.
Record t : Type := mk {
  id : string;
  type : MemoryType.t;
  content : string;
  context : option string;
  timestamp : string;
  goalId : option string }.
End MemoryEntry.

Module GoalRecord.
Record t : Type := mk {
  id : string;
  goal : string;
  status : GoalStatus.t;
  createdAt : string;
  completedAt : option string }.
End GoalRecord.

Module PersistentMemory.
Record t : Type := mk {
  entries : list MemoryEntry.t;
  goals : list GoalRecord.t;
  lastUpdated : string }.
End PersistentMemory.

Module AgentConfig.
(** The two budgets are whole numbers here; a configuration with a
    fractional [maxSteps] or [maxRetries], which the code does not refuse,
    is outside the model. *)
Record t : Type := mk {
  maxSteps : Z;
  maxRetries : Z;
  autonomousMode : bool;
  reflectionEnabled : bool }.

(** [Partial<AgentConfig>]: [None] is an absent key. *)
Record partial : Type := mk_partial {
  p_maxSteps : option Z;
  p_maxRetries : option Z;
  p_autonomousMode : option bool;
  p_reflectionEnabled : option bool }.

Definition empty : partial := mk_partial None None None None.

(** [{ ...base, ...over }]. *)
Definition spread (base : t) (over : partial) : t :=
  mk (default (maxSteps base) (p_maxSteps over))
     (default (maxRetries base) (p_maxRetries over))
     (default (autonomousMode base) (p_autonomousMode over))
     (default (reflectionEnabled base) (p_reflectionEnabled over)).
End AgentConfig.

(** ** The outside world

    What the environment answers is fixed in advance by a [World]: each
    oracle is asked with the number of earlier requests of its kind. *)

(** A request to the language model either resolves to a text or is
    rejected with an error. *)
Inductive LLMOutcome : Type :=
  | Completion (text : string)
  | Rejected (message : string).

(** What the tool registry reports back to the executor: [result_json]
    is [JSON.stringify(result.result)], [summary_json] is
    [JSON.stringify(result.result || result.error)], [error] is the
    error text. *)
Record ToolOutput : Type := mkToolOutput {
  success : bool;
  result_json : string;
  summary_json : string;
  error : string }.

(** One run of [executeTaskWithTools], by the branch it takes: the model
    call is rejected; the answer holds no tool request and is the result;
    the tool parameters are not JSON; a tool is run. Of a tool that is
    run, the model keeps what it reports back; the files it writes are not
    part of the state, and the ledger file is taken to be out of its
    reach. *)
Inductive ExecOutcome : Type :=
  | ExecRejected (message : string)
  | ExecDirect (response : string)
  | ExecBadParams (parse_error : string)
  | ExecTool (toolName : string) (params : string) (out : ToolOutput).

Record World : Type := mkWorld {
  (** the [k]-th reading of the clock, as an ISO string *)
  clock : nat → string;
  (** the [k]-th identifier drawn by [generateId] *)
  random_id : nat → string;
  (** the [k]-th completion asked by the planner or the reflector *)
  llm : nat → LLMOutcome;
  (** the [k]-th run of the executor *)
  executor : nat → ExecOutcome;
  (** [JSON.parse] of the runtime, on a reflection verdict; [None] when it
      throws *)
  JSON_parse : string → option ReflectionResult.t;
  (** [new Date(iso).toLocaleString()] *)
  toLocaleString : string → string }.

(** The state the agent core reads and writes. *)
Record Sys : Type := mkSys {
  (** [agent_memory.json]; [None] when the file does not exist *)
  memory_file : option PersistentMemory.t;
  (** the [state] object of the run in progress *)
  agent : AgentState.t;
  (** the snapshots handed to [onUpdate], oldest first *)
  emitted : list AgentState.t;
  (** the prompts sent to the language model, oldest first *)
  prompts : list string;
  clock_reads : nat;
  ids_made : nat;
  llm_calls : nat;
  exec_calls : nat }.

Definition set_memory_file (v : option PersistentMemory.t) (s : Sys) : Sys :=
  mkSys v (agent s) (emitted s) (prompts s)
        (clock_reads s) (ids_made s) (llm_calls s) (exec_calls s).
Definition set_agent (v : AgentState.t) (s : Sys) : Sys :=
  mkSys (memory_file s) v (emitted s) (prompts s)
        (clock_reads s) (ids_made s) (llm_calls s) (exec_calls s).
Definition set_emitted (v : list AgentState.t) (s : Sys) : Sys :=
  mkSys (memory_file s) (agent s) v (prompts s)
        (clock_reads s) (ids_made s) (llm_calls s) (exec_calls s).
Definition set_prompts (v : list string) (s : Sys) : Sys :=
  mkSys (memory_file s) (agent s) (emitted s) v
        (clock_reads s) (ids_made s) (llm_calls s) (exec_calls s).
Definition tick_clock (s : Sys) : Sys :=
  mkSys (memory_file s) (agent s) (emitted s) (prompts s)
        (S (clock_reads s)) (ids_made s) (llm_calls s) (exec_calls s).
Definition tick_ids (s : Sys) : Sys :=
  mkSys (memory_file s) (agent s) (emitted s) (prompts s)
        (clock_reads s) (S (ids_made s)) (llm_calls s) (exec_calls s).
Definition tick_llm (s : Sys) : Sys :=
  mkSys (memory_file s) (agent s) (emitted s) (prompts s)
        (clock_reads s) (ids_made s) (S (llm_calls s)) (exec_calls s).
Definition tick_exec (s : Sys) : Sys :=
  mkSys (memory_file s) (agent s) (emitted s) (prompts s)
        (clock_reads s) (ids_made s) (llm_calls s) (S (exec_calls s)).

Abbreviation IO := (State Sys).

Section Oracles.
Context (w : World).

(** [new Date().toISOString()]. *)
Definition now : IO string :=
  λ s, (Ok (clock w (clock_reads s)), tick_clock s).

(** [generateId()], the same function in [memory.ts] and [engine.ts]. *)
Definition generateId : IO string :=
  λ s, (Ok (random_id w (ids_made s)), tick_ids s).
End Oracles.

(** ** The memory ledger ([memory.ts])

    The ledger is the file [agent_memory.json]. A file that is missing
    or cannot be read gives the empty ledger, as [loadMemory] has it;
    writes are taken to succeed (the source logs a failed write and goes
    on with the file as it was). *)

Module Memory.
Import PersistentMemory.

Section WithWorld.
Context (w : World).

Definition loadMemory : IO PersistentMemory.t :=
  file ← gets memory_file;
  match file with
  | Some memory => mret memory
  | None =>
      t ← now w;
      mret (PersistentMemory.mk [] [] t)
  end.

Definition saveMemory (memory : PersistentMemory.t) : IO unit :=
  t ← now w;
  modify (set_memory_file (Some (PersistentMemory.mk (entries memory) (goals memory) t))).

Definition addMemoryEntry (type : MemoryType.t) (content : string)
    (context : option string) (goalId : option string) : IO MemoryEntry.t :=
  memory ← loadMemory;
  id ← generateId w;
  t ← now w;
  let entry := MemoryEntry.mk id type content context t goalId in
  let pushed := entries memory ++ [entry] in
  let kept :=
    if (1000 <? length pushed)%nat then Js.slice_from (-1000) pushed else pushed in
  saveMemory (PersistentMemory.mk kept (goals memory) (lastUpdated memory));;
  mret entry.

Definition addGoal (goal : string) (id : string) : IO unit :=
  memory ← loadMemory;
  t ← now w;
  let record := GoalRecord.mk id goal GoalStatus.in_progress t None in
  saveMemory (PersistentMemory.mk (entries memory) (goals memory ++ [record])
                                  (lastUpdated memory)).

Definition is_terminal (status : GoalStatus.t) : bool :=
  match status with
  | GoalStatus.completed | GoalStatus.failed => true
  | GoalStatus.in_progress => false
  end.

Definition updateGoalStatus (goalId : string) (status : GoalStatus.t) : IO unit :=
  memory ← loadMemory;
  match list_find (λ g, GoalRecord.id g = goalId) (goals memory) with
  | Some (i, g) =>
      completedAt ←
        (if is_terminal status
         then t ← now w; mret (Some t)
         else mret (GoalRecord.completedAt g));
      let g' := GoalRecord.mk (GoalRecord.id g) (GoalRecord.goal g) status
                              (GoalRecord.createdAt g) completedAt in
      saveMemory (PersistentMemory.mk (entries memory) (<[i := g']> (goals memory))
                                      (lastUpdated memory))
  | None => mret ()
  end.

Definition getUnfinishedGoals : IO (list GoalRecord.t) :=
  memory ← loadMemory;
  mret (filter (λ g, GoalRecord.status g = GoalStatus.in_progress) (goals memory)).

(** [getRecentMemory(limit = 20, goalId?)]. *)
Definition getRecentMemory (limit : Z) (goalId : option string) : IO (list MemoryEntry.t) :=
  memory ← loadMemory;
  let entries :=
    if Js.truthy goalId
    then filter (λ e, MemoryEntry.goalId e = goalId) (entries memory)
    else entries memory in
  mret (Js.slice_from (- limit) entries).

(** One line of the prompt:
    [[TYPE] time: content (Context: context)]. *)
Definition format_entry (e : MemoryEntry.t) : string :=
  let time := toLocaleString w (MemoryEntry.timestamp e) in
  "[" +:+ Js.toUpperCase (MemoryType.name (MemoryEntry.type e)) +:+ "] "
      +:+ time +:+ ": " +:+ MemoryEntry.content e
      +:+ (if Js.truthy (MemoryEntry.context e)
           then " (Context: " +:+ default "" (MemoryEntry.context e) +:+ ")"
           else "").

Definition formatMemoryForPrompt (goalId : option string) : IO string :=
  entries ← getRecentMemory 15 goalId;
  if (length entries =? 0)%nat
  then mret "No previous memory available."
  else mret (Js.join Js.nl (format_entry <$> entries)).

Definition clearMemory : IO unit :=
  t ← now w;
  saveMemory (PersistentMemory.mk [] [] t).

End WithWorld.
End Memory.

(** ** [node:path], POSIX flavour *)

Module Path.

Definition slash : ascii := "/"%char.

(** The text cut at every [/]. *)
Fixpoint segments_go (cur : string) (s : string) : list string :=
  match s with
  | EmptyString => [String.rev cur]
  | String c rest =>
      if decide (c = slash) then String.rev cur :: segments_go "" rest
      else segments_go (String c cur) rest
  end.
Definition segments (s : string) : list string := segments_go "" s.

(** Normalisation of an absolute path: empty and [.] segments are
    dropped, [..] removes the segment before it and is dropped at the
    root.  [stack] holds the segments kept so far, innermost first. *)
Fixpoint normalize_go (stack : list string) (segs : list string) : list string :=
  match segs with
  | [] => reverse stack
  | seg :: rest =>
      if decide (seg = "") then normalize_go stack rest
      else if decide (seg = ".") then normalize_go stack rest
      else if decide (seg = "..") then normalize_go (tail stack) rest
      else normalize_go (seg :: stack) rest
  end.

Definition isAbsolute (p : string) : bool :=
  match p with
  | String c _ => bool_decide (c = slash)
  | EmptyString => false
  end.

(** [path.resolve(root, p)] for an absolute [root]: an absolute [p]
    replaces [root], a relative one is appended to it, and the result
    is normalised, without a trailing slash. *)
Definition resolve (root p : string) : string :=
  let full := if isAbsolute p then p else root +:+ "/" +:+ p in
  "/" +:+ String.concat "/" (normalize_go [] (segments full)).

(** [path.dirname] of a normalised absolute path. *)
Definition dirname (p : string) : string :=
  "/" +:+ String.concat "/" (removelast (normalize_go [] (segments p))).

End Path.

(** ** The tool sandbox ([tools.ts], schema-validated generation)

    The file tools [read_file], [write_file] and [apply_patch] are
    modelled here, the fetch and the subprocess tool in [Host] below; the
    tree listing and the search need a directory tree, and are left out.
    File contents are byte strings, and a text is taken for its bytes in
    UTF-8: the decoding [toString("utf8")] of the bytes read is not
    modelled, which is exact as long as they are well-formed UTF-8, as a
    text of bytes below 128 always is. *)

Module Sandbox.

(** An operation asked of the file system. *)
Inductive FsOp : Type :=
  | OpStat (path : string)
  | OpReadFile (path : string)
  | OpWriteFile (path content : string)
  | OpMkdir (path : string).

(** The disk: regular files by absolute path, and the operations asked
    of it so far, oldest first.  Directories are not tracked: a write
    succeeds wherever it goes. *)
Record Disk : Type := mkDisk {
  files : gmap string string;
  io_log : list FsOp }.

Abbreviation FS := (State Disk).

Definition record_op (op : FsOp) : FS unit :=
  modify (λ d, mkDisk (files d) (io_log d ++ [op])).

Definition fs_readFile (p : string) : FS string :=
  record_op (OpReadFile p);;
  d ← get;
  match files d !! p with
  | Some content => mret content
  | None => throw ("ENOENT: no such file or directory, open '" +:+ p +:+ "'")
  end.

Definition fs_writeFile (p content : string) : FS unit :=
  record_op (OpWriteFile p content);;
  modify (λ d, mkDisk (<[p := content]> (files d)) (io_log d)).

Definition fs_stat (p : string) : FS unit :=
  record_op (OpStat p);;
  d ← get;
  match files d !! p with
  | Some _ => mret ()
  | None => throw ("ENOENT: no such file or directory, stat '" +:+ p +:+ "'")
  end.

Definition fs_mkdir (p : string) : FS unit := record_op (OpMkdir p).

(** [ToolResult]. *)
Inductive ToolData : Type :=
  | FileContent (path content : string) (truncated : bool)
  | FileRange (path : string) (startLine endLine : Z) (content : string)
              (truncated : bool) (totalLinesInClip : Z)
  | Written (path : string) (bytes : Z)
  | Patched (path : string) (editsApplied : Z).

Inductive ToolResult : Type :=
  | ok (data : ToolData)
  | err (code message : string).

(** Tool arguments as the caller sends them. *)
Record ReadFileArgs : Type := mkReadFileArgs {
  rf_path : string;
  rf_startLine : option Z;
  rf_endLine : option Z;
  rf_maxBytes : option Z }.

Record WriteFileArgs : Type := mkWriteFileArgs {
  wf_path : string;
  wf_content : string;
  wf_createDirs : option bool }.

Record Edit : Type := mkEdit {
  startLine : Z;
  endLine : Z;
  newText : string }.

#[global] Instance Edit_eq_dec : EqDecision Edit.
Proof. solve_decision. Defined.

Record ApplyPatchArgs : Type := mkApplyPatchArgs {
  ap_path : string;
  ap_edits : list Edit }.

Inductive ToolCall : Type :=
  | read_file (args : ReadFileArgs)
  | write_file (args : WriteFileArgs)
  | apply_patch (args : ApplyPatchArgs).

(** Stands for the message of a [ZodError], the list of the issues as
    the library prints it; its text is not modelled. *)
Definition zod_error : string := "Invalid tool arguments".

Definition opt_ok (P : Z → bool) (o : option Z) : bool :=
  match o with Some v => P v | None => true end.

(** [parseToolArgs]: the schema of [toolSchemas.ts], with its defaults;
    a violation throws. *)
Definition parseReadFileArgs (raw : ReadFileArgs) : FS ReadFileArgs :=
  if negb (String.eqb (rf_path raw) "")
     && opt_ok (λ v, 1 <=? v)%Z (rf_startLine raw)
     && opt_ok (λ v, 1 <=? v)%Z (rf_endLine raw)
     && opt_ok (λ v, (1024 <=? v) && (v <=? 2000000))%Z (rf_maxBytes raw)
  then mret (mkReadFileArgs (rf_path raw) (rf_startLine raw) (rf_endLine raw)
                            (Some (default 250000%Z (rf_maxBytes raw))))
  else throw zod_error.

Definition parseWriteFileArgs (raw : WriteFileArgs) : FS WriteFileArgs :=
  if negb (String.eqb (wf_path raw) "")
  then mret (mkWriteFileArgs (wf_path raw) (wf_content raw)
                             (Some (default true (wf_createDirs raw))))
  else throw zod_error.

Definition parseApplyPatchArgs (raw : ApplyPatchArgs) : FS ApplyPatchArgs :=
  if negb (String.eqb (ap_path raw) "")
     && forallb (λ e, (1 <=? startLine e) && (1 <=? endLine e))%Z (ap_edits raw)
     && (1 <=? length (ap_edits raw))%nat
  then mret raw
  else throw zod_error.

(** [edits.sort((a, b) => b.startLine - a.startLine)]: the sort of
    JavaScript is stable, so an edit stays ahead of the later edits of
    the same [startLine]. *)
Fixpoint insert_desc (e : Edit) (l : list Edit) : list Edit :=
  match l with
  | [] => [e]
  | x :: rest =>
      if (startLine x <=? startLine e)%Z then e :: l
      else x :: insert_desc e rest
  end.
Definition sort_desc (l : list Edit) : list Edit := foldr insert_desc [] l.

(** One turn of the loop over the sorted edits: the range test against
    the lines as they are now, then the splice. *)
Definition apply_edit (path : string) (lines : list string) (e : Edit)
    : ToolResult + list string :=
  let startIdx := (startLine e - 1)%Z in
  let endIdx := (endLine e - 1)%Z in
  if ((startIdx <? 0) || (endIdx <? startIdx) || (Z.of_nat (length lines) <=? endIdx))%Z
  then inl (err "RANGE_ERROR"
                ("Invalid edit range [" +:+ Js.show (startLine e) +:+ ", "
                 +:+ Js.show (endLine e) +:+ "] for " +:+ path
                 +:+ " (lines=" +:+ Js.show (Z.of_nat (length lines)) +:+ ")"))
  else inr (Js.splice (Z.to_nat startIdx) (Z.to_nat (endIdx - startIdx + 1))
                      (Js.split_lines (newText e)) lines).

(** The loop: the first edit out of range returns its error. *)
Fixpoint apply_edits (path : string) (lines : list string) (edits : list Edit)
    : ToolResult + list string :=
  match edits with
  | [] => inr lines
  | e :: rest =>
      match apply_edit path lines e with
      | inl failure => inl failure
      | inr lines' => apply_edits path lines' rest
      end
  end.

Section WithRoot.
(** [WORKSPACE_ROOT], resolved once when the module is loaded. *)
Context (WORKSPACE_ROOT : string).

Definition safeResolve (relOrAbs : string) : FS string :=
  let resolved := Path.resolve WORKSPACE_ROOT relOrAbs in
  if negb (Js.startsWith resolved WORKSPACE_ROOT)
  then throw "Path escapes workspace root."
  else mret resolved.

Definition fileExists (p : string) : FS bool :=
  try_catch (fs_stat p;; mret true) (λ _, mret false).

Definition run_read_file (raw : ReadFileArgs) : FS ToolResult :=
  args ← parseReadFileArgs raw;
  filePath ← safeResolve (rf_path args);
  buf ← fs_readFile filePath;
  let clipped := Js.substring0 (Z.to_nat (default 250000%Z (rf_maxBytes args))) buf in
  let text := clipped in
  let truncated := (String.length clipped <? String.length buf)%nat in
  match rf_startLine args, rf_endLine args with
  | None, None => mret (ok (FileContent (rf_path args) text truncated))
  | _, _ =>
      let lines := Js.split_lines text in
      let len := Z.of_nat (length lines) in
      let start := Z.max 1 (default 1%Z (rf_startLine args)) in
      let stop := Z.min len (default len (rf_endLine args)) in
      let slice := Js.join Js.nl (Js.slice (Z.to_nat (start - 1)) (Z.to_nat stop) lines) in
      mret (ok (FileRange (rf_path args) start stop slice truncated len))
  end.

Definition run_write_file (raw : WriteFileArgs) : FS ToolResult :=
  args ← parseWriteFileArgs raw;
  filePath ← safeResolve (wf_path args);
  let dir := Path.dirname filePath in
  when (default true (wf_createDirs args)) (fs_mkdir dir);;
  fs_writeFile filePath (wf_content args);;
  mret (ok (Written (wf_path args) (Z.of_nat (String.length (wf_content args))))).

Definition run_apply_patch (raw : ApplyPatchArgs) : FS ToolResult :=
  args ← parseApplyPatchArgs raw;
  filePath ← safeResolve (ap_path args);
  exists_ ← fileExists filePath;
  if negb exists_
  then mret (err "NOT_FOUND" ("File not found: " +:+ ap_path args))
  else
    original ← fs_readFile filePath;
    let lines := Js.split_lines original in
    let edits := sort_desc (ap_edits args) in
    match apply_edits (ap_path args) lines edits with
    | inl failure => mret failure
    | inr lines' =>
        let updated := Js.join Js.nl lines' in
        fs_writeFile filePath updated;;
        mret (ok (Patched (ap_path args) (Z.of_nat (length edits))))
    end.

(** [executeTool]: whatever a case throws becomes a [TOOL_ERROR]
    result. *)
Definition executeTool (call : ToolCall) : FS ToolResult :=
  try_catch
    (match call with
     | read_file args => run_read_file args
     | write_file args => run_write_file args
     | apply_patch args => run_apply_patch args
     end)
    (λ message, mret (err "TOOL_ERROR" message)).

End WithRoot.
End Sandbox.

(** ** The tool registry of the first generation ([tools.ts]) *)

Module LegacyTools.

(** [ToolOutput]. *)
Record Output : Type := mkOutput {
  success : bool;
  result : option string;
  error : option string }.

(** The synchronous file system calls, with the operations asked of the
    disk recorded as in [Sandbox]. *)
Definition fs_existsSync (p : string) : Sandbox.FS bool :=
  Sandbox.record_op (Sandbox.OpStat p);;
  d ← get;
  mret (bool_decide (is_Some (Sandbox.files d !! p))).

Section WithRoot.
(** [WORKSPACE_DIR = process.cwd()]. *)
Context (WORKSPACE_DIR : string).

(** [readFileTool.execute]; the console lines of
    [logToolExecution] are left out. *)
Definition readFileTool (filepath : string) : Sandbox.FS Output :=
  try_catch
    (let fullPath := Path.resolve WORKSPACE_DIR filepath in
     if negb (Js.startsWith fullPath WORKSPACE_DIR)
     then mret (mkOutput false None (Some "Access denied: Path outside workspace"))
     else
       present ← fs_existsSync fullPath;
       if negb present
       then mret (mkOutput false None (Some ("File not found: " +:+ filepath)))
       else
         content ← Sandbox.fs_readFile fullPath;
         mret (mkOutput true (Some content) None))
    (λ message, mret (mkOutput false None (Some message))).
End WithRoot.
End LegacyTools.

(** The registry the engine prints into its prompts. *)
Module ToolRegistry.

Record Param : Type := mkParam {
  p_name : string;
  p_type : string;
  p_description : string;
  p_required : bool }.

Record Tool : Type := mkTool {
  name : string;
  description : string;
  parameters : list Param }.

Definition toolRegistry : list Tool :=
  [ mkTool "read_file" "Read the contents of a file from the workspace"
      [ mkParam "filepath" "string" "Path to the file relative to workspace" true ];
    mkTool "write_file" "Write content to a file in the workspace"
      [ mkParam "filepath" "string" "Path to the file relative to workspace" true;
        mkParam "content" "string" "Content to write to the file" true ];
    mkTool "list_files" "List files and directories in a given path"
      [ mkParam "dirpath" "string" "Directory path relative to workspace (default: root)" false;
        mkParam "recursive" "boolean" "Whether to list recursively" false ];
    mkTool "fetch_url" "Fetch content from a URL"
      [ mkParam "url" "string" "The URL to fetch" true;
        mkParam "method" "string" "HTTP method (GET, POST, etc.)" false;
        mkParam "headers" "object" "Request headers" false;
        mkParam "body" "string" "Request body for POST/PUT" false ] ].

Definition describe_param (p : Param) : string :=
  "  - " +:+ p_name p +:+ " (" +:+ p_type p
    +:+ (if p_required p then ", required" else "") +:+ "): " +:+ p_description p.

Definition describe_tool (tool : Tool) : string :=
  name tool +:+ ": " +:+ description tool +:+ Js.nl +:+ "Parameters:" +:+ Js.nl
    +:+ Js.join Js.nl (describe_param <$> parameters tool).

Definition getToolDescriptions : string :=
  Js.join (Js.nl +:+ Js.nl) (describe_tool <$> toolRegistry).

End ToolRegistry.

(** ** Planner, executor, reflector and the orchestration loop
       ([engine.ts]) *)

Module Engine.

Definition DEFAULT_CONFIG : AgentConfig.t := AgentConfig.mk 50 3 false true.

(** A template literal that spans several lines. *)
Definition text (lines : list string) : string := Js.join Js.nl lines.

(** *** The planner's parsing of the numbered list *)

(** [l.match(/^\d+/)]. *)
Definition starts_with_digit (l : string) : bool :=
  match l with
  | String c _ => Js.is_digit c
  | EmptyString => false
  end.

(** [line.replace(/^\d+[\).\s]*/, "")]. *)
Definition is_marker (c : ascii) : bool :=
  bool_decide (c = ")"%char) || bool_decide (c = "."%char) || Js.is_space c.
Definition strip_number (line : string) : string :=
  Js.drop_while is_marker (Js.drop_while Js.is_digit line).

Definition parse_plan (plan : string) : list Task.t :=
  imap (λ i line,
          Task.mk (Z.of_nat i + 1) (Js.trim (strip_number line))
                  TaskStatus.pending None None None None)
       (filter (λ l, starts_with_digit l = true) (Js.split_lf plan)).

(** *** The reflector's extraction of the verdict *)

(** [response.match(/\{[\s\S]*\}/)]: the text from the first opening
    brace to the last closing brace after it. *)
Fixpoint from_first_open (s : string) : option string :=
  match s with
  | EmptyString => None
  | String c rest =>
      if decide (c = "{"%char) then Some s else from_first_open rest
  end.
Fixpoint upto_last_close (s : string) : option string :=
  match s with
  | EmptyString => None
  | String c rest =>
      match upto_last_close rest with
      | Some p => Some (String c p)
      | None => if decide (c = "}"%char) then Some (String c "") else None
      end
  end.
Definition match_object (response : string) : option string :=
  from_first_open response ≫= upto_last_close.

(** The verdict returned when none could be read. *)
Definition default_reflection : ReflectionResult.t :=
  ReflectionResult.mk true "Reflection parsing failed, assuming success" false None 50.

(** *** Prompts *)

Definition planner_prompt (goal memory : string) : string :=
  text [ "You are an autonomous planner with access to the following tools:";
         "";
         ToolRegistry.getToolDescriptions;
         "";
         "Previous context from memory:";
         memory;
         "";
         "Break the following goal into clear, ordered tasks. Each task should be specific and actionable.";
         "Consider what tools might be needed for each task.";
         "Return ONLY a numbered list of tasks, one per line.";
         "";
         "Goal: " +:+ goal ].

Definition executor_prompt (goal memory description : string) : string :=
  let q := Js.dquote in
  text [ "You are an execution agent with access to these tools:";
         "";
         ToolRegistry.getToolDescriptions;
         "";
         "Previous memory context:";
         memory;
         "";
         "Current goal: " +:+ goal;
         "Current task: " +:+ description;
         "";
         "To use a tool, respond with:";
         "TOOL: tool_name";
         "PARAMS: {" +:+ q +:+ "param1" +:+ q +:+ ": " +:+ q +:+ "value1" +:+ q +:+ ", "
           +:+ q +:+ "param2" +:+ q +:+ ": " +:+ q +:+ "value2" +:+ q +:+ "}";
         "";
         "If no tool is needed, just provide your response directly.";
         "";
         "Execute the task and provide the result." ].

Definition reflector_prompt (goal description result : string) : string :=
  let q := Js.dquote in
  text [ "You are a self-reflection agent. Analyze the following task execution:";
         "";
         "Goal: " +:+ goal;
         "Task: " +:+ description;
         "Result: " +:+ result;
         "";
         "Evaluate:";
         "1. Was the task completed successfully? (true/false)";
         "2. What is your analysis of the outcome?";
         "3. Should the agent retry this task? (true/false)";
         "4. What adjustments should be made, if any?";
         "5. Confidence level (0-100)";
         "";
         "Respond in this exact JSON format:";
         "{";
         "  " +:+ q +:+ "success" +:+ q +:+ ": true/false,";
         "  " +:+ q +:+ "analysis" +:+ q +:+ ": " +:+ q +:+ "your analysis" +:+ q +:+ ",";
         "  " +:+ q +:+ "shouldRetry" +:+ q +:+ ": true/false,";
         "  " +:+ q +:+ "adjustments" +:+ q +:+ ": " +:+ q
           +:+ "suggested adjustments or null" +:+ q +:+ ",";
         "  " +:+ q +:+ "confidence" +:+ q +:+ ": 0-100";
         "}" ].

(** What one turn of the retry loop decides. *)
Inductive Step : Type :=
  | Continue (retries : Z) (result : string)
  | Break (result : string).

Section WithWorld.
Context (w : World).

Definition update_agent (f : AgentState.t → AgentState.t) : IO unit :=
  modify (λ s, set_agent (f (agent s)) s).

(** [task.field = v] for [task = state.tasks[i]]. *)
Definition update_task (i : nat) (f : Task.t → Task.t) : IO unit :=
  update_agent (λ a, AgentState.set_tasks (alter f i (AgentState.tasks a)) a).

(** [state.tasks[i]]; using an absent element throws a [TypeError]. *)
Definition get_task (i : nat) : IO Task.t :=
  a ← gets agent;
  match AgentState.tasks a !! i with
  | Some task => mret task
  | None => throw "Cannot set properties of undefined (setting 'status')"
  end.

Definition log (type : LogType.t) (message : string) (data : option string) : IO unit :=
  t ← now w;
  update_agent (λ a, AgentState.set_log
                       (AgentState.log a ++ [AgentLogEntry.mk t type message data]) a);;
  t' ← now w;
  update_agent (AgentState.set_updatedAt t').

(** [emit()]: the callback is handed the state as it is now; the
    callers serialise it on the spot, so a snapshot is a value. *)
Definition emit : IO unit :=
  modify (λ s, set_emitted (emitted s ++ [agent s]) s).

(** [callLLM] as the planner and the reflector use it. *)
Definition callLLM (prompt : string) : IO string :=
  λ s, let s' := tick_llm (set_prompts (prompts s ++ [prompt]) s) in
       match llm w (llm_calls s) with
       | Completion answer => (Ok answer, s')
       | Rejected message => (Throw message, s')
       end.

Definition planTasks (goal memory : string) : IO (list Task.t) :=
  plan ← callLLM (planner_prompt goal memory);
  mret (parse_plan plan).

(** The executor's request to the model and what it makes of the
    answer, as the world decides it. *)
Definition ask_executor (prompt : string) : IO ExecOutcome :=
  λ s, (Ok (executor w (exec_calls s)),
        tick_exec (set_prompts (prompts s ++ [prompt]) s)).

Definition executeTaskWithTools (task : Task.t) : IO string :=
  state ← gets agent;
  memory ← Memory.formatMemoryForPrompt w (Some (AgentState.id state));
  outcome ← ask_executor
              (executor_prompt (AgentState.goal state) memory (Task.description task));
  match outcome with
  | ExecRejected message => throw message
  | ExecDirect response => mret response
  | ExecBadParams e => mret ("Error parsing tool parameters: " +:+ e)
  | ExecTool toolName params out =>
      log LogType.tool ("Using tool: " +:+ toolName) (Some params);;
      Memory.addMemoryEntry w MemoryType.result
        ("Tool " +:+ toolName +:+ ": "
           +:+ (if success out then "Success" else "Failed")
           +:+ " - " +:+ summary_json out)
        (Some (Task.description task)) (Some (AgentState.id state));;
      mret (if success out
            then "Tool " +:+ toolName +:+ " succeeded: " +:+ result_json out
            else "Tool " +:+ toolName +:+ " failed: " +:+ error out)
  end.

Definition reflectOnTask (task : Task.t) (result : string) : IO ReflectionResult.t :=
  state ← gets agent;
  response ← callLLM (reflector_prompt (AgentState.goal state)
                                        (Task.description task) result);
  match match_object response with
  | Some jsonMatch =>
      match JSON_parse w jsonMatch with
      | Some reflection =>
          Memory.addMemoryEntry w MemoryType.decision
            ("Task " +:+ Js.dquote +:+ Task.description task +:+ Js.dquote +:+ ": "
               +:+ (if ReflectionResult.success reflection then "Success" else "Failed")
               +:+ " (confidence: " +:+ Js.show (ReflectionResult.confidence reflection)
               +:+ "%)")
            (Some (ReflectionResult.analysis reflection))
            (Some (AgentState.id state));;
          mret reflection
      | None => mret default_reflection
      end
  | None => mret default_reflection
  end.

(** *** The orchestration loop *)

Section Loop.
Context (finalConfig : AgentConfig.t) (stateId : string).

(** The [catch] clause of the retry loop; [result] is the local
    variable as the [try] block left it. *)
Definition on_error (i : nat) (task : Task.t) (retries : Z) (result : string)
    (message : string) : IO Step :=
  log LogType.error
      ("Error executing task " +:+ Js.show (Task.id task) +:+ ": " +:+ message) None;;
  let retries := (retries + 1)%Z in
  when (AgentConfig.maxRetries finalConfig <? retries)%Z
    (update_task i (Task.set_status TaskStatus.failed);;
     update_task i (Task.set_result
                      ("Failed after " +:+ Js.show retries +:+ " attempts: " +:+ message)));;
  mret (Continue retries result).

(** The [try] block after [result] has been assigned. *)
Definition after_execute (i : nat) (task : Task.t) (retries : Z) (result : string)
    : IO Step :=
  update_agent (λ a, AgentState.set_stepsExecuted (AgentState.stepsExecuted a + 1)%Z a);;
  log LogType.task
      ("Task " +:+ Js.show (Task.id task) +:+ " result: "
         +:+ Js.substring0 200 result +:+ "...") None;;
  emit;;
  if AgentConfig.reflectionEnabled finalConfig then
    update_agent (AgentState.set_status RunStatus.reflecting);;
    emit;;
    reflection ← reflectOnTask task result;
    update_task i (Task.set_reflection reflection);;
    log LogType.reflection
        ("Reflection: " +:+ ReflectionResult.analysis reflection
           +:+ " (confidence: " +:+ Js.show (ReflectionResult.confidence reflection)
           +:+ "%)") None;;
    emit;;
    if ReflectionResult.shouldRetry reflection
       && (retries <? AgentConfig.maxRetries finalConfig)%Z
    then
      log LogType.warning
          ("Retrying task " +:+ Js.show (Task.id task) +:+ " based on reflection") None;;
      mret (Continue (retries + 1)%Z result)
    else
      update_task i (Task.set_status
                       (if ReflectionResult.success reflection
                        then TaskStatus.done else TaskStatus.failed));;
      mret (Break result)
  else
    update_task i (Task.set_status TaskStatus.done);;
    mret (Break result).

(** One turn of [while (retries <= finalConfig.maxRetries)]. *)
Definition attempt (i : nat) (task : Task.t) (retries : Z) (result : string) : IO Step :=
  try_bind (executeTaskWithTools task)
           (λ result', try_catch (after_execute i task retries result')
                                 (on_error i task retries result'))
           (on_error i task retries result).

(** The retry loop; it returns the local [result]. *)
Fixpoint retry_loop (fuel : nat) (i : nat) (task : Task.t) (retries : Z)
    (result : string) : IO string :=
  if (retries <=? AgentConfig.maxRetries finalConfig)%Z then
    match fuel with
    | O => diverge
    | S fuel' =>
        step ← attempt i task retries result;
        match step with
        | Continue retries' result' => retry_loop fuel' i task retries' result'
        | Break result' => mret result'
        end
    end
  else mret result.

(** The turns [retries] can still take before it exceeds
    [maxRetries]. *)
Definition retry_fuel : nat := Z.to_nat (AgentConfig.maxRetries finalConfig + 1).

(** The body of the loop over the tasks; [true] is [break]. *)
Definition run_task (i : nat) : IO bool :=
  state ← gets agent;
  if (AgentState.maxSteps state <=? AgentState.stepsExecuted state)%Z then
    log LogType.warning
        ("Maximum steps (" +:+ Js.show (AgentState.maxSteps state)
           +:+ ") reached. Stopping execution.") None;;
    update_agent (AgentState.set_status RunStatus.paused);;
    mret true
  else
    update_agent (AgentState.set_currentTask (Z.of_nat i + 1));;
    task ← get_task i;
    update_task i (Task.set_status TaskStatus.running);;
    t ← now w;
    update_task i (Task.set_startedAt t);;
    update_agent (AgentState.set_status RunStatus.executing);;
    log LogType.task
        ("Starting task " +:+ Js.show (Task.id task) +:+ ": " +:+ Task.description task)
        None;;
    emit;;
    result ← retry_loop retry_fuel i task 0 "";
    update_task i (Task.set_result result);;
    t' ← now w;
    update_task i (Task.set_completedAt t');;
    Memory.addMemoryEntry w MemoryType.task
      ("Completed: " +:+ Task.description task)
      (Some (Js.substring0 500 result)) (Some stateId);;
    emit;;
    task' ← get_task i;
    if bool_decide (Task.status task' = TaskStatus.failed)
       && negb (AgentConfig.autonomousMode finalConfig)
    then
      log LogType.error
          ("Task " +:+ Js.show (Task.id task)
             +:+ " failed. Stopping non-autonomous execution.") None;;
      update_agent (AgentState.set_status RunStatus.failed);;
      mret true
    else mret false.

(** [for (let i = 0; i < state.tasks.length; i++)], over the
    indices still to visit; the loop never changes the number of
    tasks. *)
Fixpoint for_tasks (indices : list nat) : IO unit :=
  match indices with
  | [] => mret ()
  | i :: rest =>
      stop ← run_task i;
      if (stop : bool) then mret () else for_tasks rest
  end.

(** The verdict after the loop. *)
Definition conclude : IO unit :=
  state ← gets agent;
  let allDone :=
    forallb (λ t, bool_decide (Task.status t = TaskStatus.done)) (AgentState.tasks state) in
  let anyFailed :=
    existsb (λ t, bool_decide (Task.status t = TaskStatus.failed)) (AgentState.tasks state) in
  if allDone then
    update_agent (AgentState.set_status RunStatus.completed);;
    Memory.updateGoalStatus w stateId GoalStatus.completed;;
    log LogType.info "All tasks completed successfully!" None
  else if anyFailed then
    update_agent (AgentState.set_status RunStatus.failed);;
    Memory.updateGoalStatus w stateId GoalStatus.failed;;
    log LogType.error "Some tasks failed." None
  else mret ().

(** The outer [try] block of [runAgent]. *)
Definition plan_and_run (goal : string) : IO unit :=
  memory ← Memory.formatMemoryForPrompt w None;
  tasks ← planTasks goal memory;
  update_agent (AgentState.set_tasks tasks);;
  let planned := "Planned " +:+ Js.show (Z.of_nat (length tasks)) +:+ " tasks" in
  log LogType.info planned None;;
  Memory.addMemoryEntry w MemoryType.decision (planned +:+ " for goal") None (Some stateId);;
  emit;;
  state ← gets agent;
  for_tasks (seq 0 (length (AgentState.tasks state)));;
  conclude.

(** The outer [catch] clause of [runAgent]. *)
Definition on_agent_error (message : string) : IO unit :=
  log LogType.error ("Agent error: " +:+ message) None;;
  update_agent (AgentState.set_status RunStatus.failed);;
  Memory.updateGoalStatus w stateId GoalStatus.failed.

End Loop.

Definition runAgent (goal : string) (config : AgentConfig.partial)
    (forcedId : option string) : IO AgentState.t :=
  let finalConfig := AgentConfig.spread DEFAULT_CONFIG config in
  stateId ← match forcedId with
            | Some id => mret id
            | None => generateId w
            end;
  createdAt ← now w;
  updatedAt ← now w;
  modify (set_agent
            (AgentState.mk stateId goal [] 0 [] RunStatus.planning 0
                           (AgentConfig.maxSteps finalConfig) createdAt updatedAt
                           (AgentConfig.autonomousMode finalConfig)));;
  emit;;
  log LogType.info ("Starting agent with goal: " +:+ goal) None;;
  Memory.addGoal w goal stateId;;
  Memory.addMemoryEntry w MemoryType.goal goal None (Some stateId);;
  emit;;
  try_catch (plan_and_run finalConfig stateId goal) (on_agent_error stateId);;
  emit;;
  gets agent.

(** [resumeUnfinishedGoals]: the loop over the goals found
    unfinished when it starts. *)
Fixpoint resume_each (unfinished : list GoalRecord.t) (results : list AgentState.t)
    : IO (list AgentState.t) :=
  match unfinished with
  | [] => mret results
  | goal :: rest =>
      state ← runAgent (GoalRecord.goal goal)
                       (AgentConfig.mk_partial None None (Some true) None) None;
      resume_each rest (results ++ [state])
  end.

Definition resumeUnfinishedGoals : IO (list AgentState.t) :=
  unfinished ← Memory.getUnfinishedGoals w;
  resume_each unfinished [].

End WithWorld.
End Engine.

(** ** The queue worker ([worker.ts], [events.ts], [redis.ts]) *)

Module Worker.

Inductive Level : Set := info | warn | error.

(** The statuses the type of a [done] event admits. *)
Inductive DoneStatus : Set := completed | failed | paused.

(** [AgentEvent], in the variants the worker publishes. *)
Inductive AgentEvent : Type :=
  | state_event (agentId : string) (state : AgentState.t)
  | log_event (agentId : string) (level : Level) (message : string)
  | done_event (agentId : string) (status : DoneStatus).

Record AgentJobPayload : Type := mkJob {
  agentId : string;
  goal : string;
  config : option AgentConfig.partial }.

(** Redis: the documents stored with their time to live in seconds,
    and the messages published, each with its channel, oldest first. *)
Record Redis : Type := mkRedis {
  store : gmap string (AgentState.t * Z);
  published : list (string * AgentEvent) }.

Definition redisKeyAgentState (agentId : string) : string :=
  "agent:" +:+ agentId +:+ ":state".

Definition redisChannelAgentEvents (agentId : string) : string :=
  "agent:" +:+ agentId +:+ ":events".

Definition publish (agentId : string) (event : AgentEvent) (r : Redis) : Redis :=
  mkRedis (store r) (published r ++ [(redisChannelAgentEvents agentId, event)]).

(** [connection.set(key, JSON.stringify(state), "EX", 60 * 60)]. *)
Definition set_state (agentId : string) (state : AgentState.t) (r : Redis) : Redis :=
  mkRedis (<[redisKeyAgentState agentId := (state, (60 * 60)%Z)]> (store r)) (published r).

(** The [onUpdate] callback of a job.  It serialises the state twice: in
    the arguments of [connection.set], when it is called, and for the
    state event only after the [await] of that [set], from the same
    object.  The run does not wait for the callback ([void onUpdate(s)])
    and goes on changing the object: the store gets the snapshot [state],
    the event carries [seen], what the object holds once the store has
    answered. *)
Definition onUpdate (agentId : string) (r : Redis) (state seen : AgentState.t) : Redis :=
  publish agentId (state_event agentId seen) (set_state agentId state r).

(** The callbacks of a run, from the [k]-th on, for the snapshots handed
    to them, oldest first.  The store answers in the order it was asked.
    When it answers is not for the run to decide: [late k] is what the
    state object holds when the [k]-th callback publishes.  The last
    callback of a run that returns, with [final], is called in the turn in
    which [runAgent] returns and the object is not changed after that, so
    it finds the final state. *)
Fixpoint callbacks (agentId : string) (late : nat → AgentState.t)
    (final : option AgentState.t) (k : nat) (snapshots : list AgentState.t) (r : Redis)
    : Redis :=
  match snapshots with
  | [] => r
  | state :: rest =>
      let seen := match rest, final with
                  | [], Some finalState => finalState
                  | _, _ => late k
                  end in
      callbacks agentId late final (S k) rest (onUpdate agentId r state seen)
  end.

Definition done_status (final : RunStatus.t) : DoneStatus :=
  if decide (final = RunStatus.completed) then completed else failed.

(** The processor of one job.  [runAgent] runs on the agent's state
    [s], with the record of its callback empty at the start; the
    callbacks it has started are replayed on Redis in the order of the
    snapshots, and all of them have published when the processor, which
    waits for the store to take the final state, publishes [done].  A
    processor that throws ends in the [failed] listener of the worker. *)
Definition process_job (w : World) (late : nat → AgentState.t) (job : AgentJobPayload)
    (s : Sys) (r : Redis) : Result (string * RunStatus.t) * Sys * Redis :=
  let r := publish (agentId job) (log_event (agentId job) info "Job started") r in
  match Engine.runAgent w (goal job) (default AgentConfig.empty (config job))
                        (Some (agentId job)) (set_emitted [] s) with
  | (Ok finalState, s') =>
      let r := callbacks (agentId job) late (Some finalState) 0 (emitted s') r in
      let r := set_state (agentId job) finalState r in
      let r := publish (agentId job)
                       (done_event (agentId job) (done_status (AgentState.status finalState))) r in
      (Ok (agentId job, AgentState.status finalState), s', r)
  | (Throw message, s') =>
      let r := callbacks (agentId job) late None 0 (emitted s') r in
      let r := publish (agentId job) (log_event (agentId job) error message) r in
      let r := publish (agentId job) (done_event (agentId job) failed) r in
      (Throw message, s', r)
  | (Diverge, s') => (Diverge, s', r)
  end.

End Worker.

(** ** Worlds and states to run the model on *)

Module Demo.

(** A verdict as the reflector is asked to print it. *)
Definition verdict_json (success shouldRetry : bool) : string :=
  let q := Js.dquote in
  let b (v : bool) := if v then "true" else "false" in
  "{" +:+ q +:+ "success" +:+ q +:+ ": " +:+ b success +:+ ", "
      +:+ q +:+ "analysis" +:+ q +:+ ": " +:+ q +:+ "checked" +:+ q +:+ ", "
      +:+ q +:+ "shouldRetry" +:+ q +:+ ": " +:+ b shouldRetry +:+ ", "
      +:+ q +:+ "confidence" +:+ q +:+ ": 90}".

(** [JSON.parse] on the four verdicts above; any other text is taken
    not to parse. *)
Definition parse_verdict (s : string) : option ReflectionResult.t :=
  if String.eqb s (verdict_json true false)
  then Some (ReflectionResult.mk true "checked" false None 90)
  else if String.eqb s (verdict_json true true)
  then Some (ReflectionResult.mk true "checked" true None 90)
  else if String.eqb s (verdict_json false false)
  then Some (ReflectionResult.mk false "checked" false None 90)
  else if String.eqb s (verdict_json false true)
  then Some (ReflectionResult.mk false "checked" true None 90)
  else None.

Definition clock (k : nat) : string := "t" +:+ pretty k.
Definition random_id (k : nat) : string := "id" +:+ pretty k.

(** A world from its model answers and its executor runs. *)
Definition world (llm : nat → LLMOutcome) (executor : nat → ExecOutcome) : World :=
  mkWorld clock random_id llm executor parse_verdict (λ iso, iso).

(** The state of a fresh process: no ledger on disk. *)
Definition blank : AgentState.t :=
  AgentState.mk "" "" [] 0 [] RunStatus.idle 0 0 "" "" false.
Definition fresh : Sys := mkSys None blank [] [] 0 0 0 0.

(** A plan of [n] tasks, as a numbered list. *)
Definition plan (n : nat) : string :=
  Js.join Js.nl ((λ k, pretty (S k) +:+ ". step " +:+ pretty (S k)) <$> seq 0 n).

End Demo.

(** ** The statistics of the ledger ([memory.ts]) *)

Module MemoryStats.

Record t : Type := mk {
  totalEntries : nat;
  totalGoals : nat;
  completedGoals : nat;
  failedGoals : nat }.

Definition getMemoryStats (w : World) : IO t :=
  memory ← Memory.loadMemory w;
  let goals := PersistentMemory.goals memory in
  mret (mk (length (PersistentMemory.entries memory))
           (length goals)
           (length (filter (λ g, GoalRecord.status g = GoalStatus.completed) goals))
           (length (filter (λ g, GoalRecord.status g = GoalStatus.failed) goals))).

End MemoryStats.

(** ** The sandbox: subprocesses and fetches ([tools.ts])

    The cases [run_command] and [fetch_url] of [executeTool]. What a
    child process and a server answer is given by two oracles; the
    requests made of them are recorded, oldest first. What a child does
    to the files and on the network while it runs is not modelled: the
    disk of the host is the disk as the tools themselves use it. *)

Module Host.

(** [spawn(cmd, args, { cwd, shell: false, env })]; [env] is what the
    call lays over [process.env]. *)
Record Spawn : Type := mkSpawn {
  sp_cmd : string;
  sp_args : list string;
  sp_cwd : string;
  sp_env : list (string * string) }.

(** How the promise of [runCommandSandbox] is settled, by the event that
    comes first: the child closes with its exit code ([None] for [null])
    and what it wrote; the timer fires and the child is killed; the child
    reports an error; or [spawn] itself throws. *)
Inductive ProcessOutcome : Type :=
  | Closed (code : option Z) (stdout stderr : string)
  | TimedOut
  | SpawnFailed (message : string)
  | SpawnThrew (message : string).

(** [fetch(url)] followed by [res.text()]. *)
Inductive FetchOutcome : Type :=
  | Fetched (status : Z) (contentType : option string) (text : string)
  | FetchFailed (message : string).

Record t : Type := mk {
  disk : Sandbox.Disk;
  spawned : list Spawn;
  fetched : list string }.

Abbreviation Run := (State t).

(** [ToolResult], for the data of these two tools. *)
Inductive Data : Type :=
  | CommandOutput (code : option Z) (stdout stderr : string) (truncated : bool)
  | Page (url : string) (status : Z) (contentType : option string) (body : string)
         (truncated : bool).

Inductive Result : Type :=
  | ok (data : Data)
  | err (code message : string).

(** Tool arguments as the caller sends them. *)
Record RunCommandArgs : Type := mkRunCommandArgs {
  rc_cmd : string;
  rc_args : option (list string);
  rc_cwd : option string;
  rc_timeoutMs : option Z;
  rc_env : option (list (string * string)) }.

Record FetchUrlArgs : Type := mkFetchUrlArgs {
  fu_url : string;
  fu_maxBytes : option Z }.

Inductive ToolCall : Type :=
  | run_command (args : RunCommandArgs)
  | fetch_url (args : FetchUrlArgs).

Definition ALLOWLIST : list string :=
  ["npm"; "pnpm"; "yarn"; "node"; "npx"; "ls"; "pwd"; "grep"].

(** A step on the disk, taken on the host. *)
Definition on_disk {A} (m : Sandbox.FS A) : Run A :=
  λ h, let (r, d) := m (disk h) in (r, mk d (spawned h) (fetched h)).

Section WithHost.
(** [WORKSPACE_ROOT]; the children and the servers of the environment;
    [z.string().url()]. *)
Context (WORKSPACE_ROOT : string).
Context (child : Spawn → ProcessOutcome) (server : string → FetchOutcome).
Context (is_url : string → bool).

Definition spawn (request : Spawn) : Run ProcessOutcome :=
  λ h, (Ok (child request), mk (disk h) (spawned h ++ [request]) (fetched h)).

Definition fetch (url : string) : Run FetchOutcome :=
  λ h, (Ok (server url), mk (disk h) (spawned h) (fetched h ++ [url])).

(** [parseToolArgs], with the defaults of the schema. *)
Definition parseRunCommandArgs (raw : RunCommandArgs) : Run RunCommandArgs :=
  if negb (String.eqb (rc_cmd raw) "")
     && Sandbox.opt_ok (λ v, (500 <=? v) && (v <=? 120000))%Z (rc_timeoutMs raw)
  then mret (mkRunCommandArgs (rc_cmd raw)
                              (Some (default [] (rc_args raw)))
                              (Some (default "." (rc_cwd raw)))
                              (Some (default 30000%Z (rc_timeoutMs raw)))
                              (Some (default [] (rc_env raw))))
  else throw Sandbox.zod_error.

Definition parseFetchUrlArgs (raw : FetchUrlArgs) : Run FetchUrlArgs :=
  if is_url (fu_url raw)
     && Sandbox.opt_ok (λ v, (1024 <=? v) && (v <=? 2000000))%Z (fu_maxBytes raw)
  then mret (mkFetchUrlArgs (fu_url raw) (Some (default 250000%Z (fu_maxBytes raw))))
  else throw Sandbox.zod_error.

Definition runCommandSandbox (args : RunCommandArgs) : Run Result :=
  if negb (bool_decide (rc_cmd args ∈ ALLOWLIST))
  then mret (err "CMD_NOT_ALLOWED" ("Command not allowed: " +:+ rc_cmd args))
  else
    cwdAbs ← on_disk (Sandbox.safeResolve WORKSPACE_ROOT (default "." (rc_cwd args)));
    outcome ← spawn (mkSpawn (rc_cmd args) (default [] (rc_args args)) cwdAbs
                             (default [] (rc_env args)));
    match outcome with
    | Closed code stdout stderr =>
        let limit := Z.to_nat 50000 in
        mret (ok (CommandOutput code (Js.substring0 limit stdout)
                                (Js.substring0 limit stderr)
                                ((limit <? String.length stdout)%nat
                                 || (limit <? String.length stderr)%nat)))
    | TimedOut =>
        mret (err "TIMEOUT"
                  ("Command timed out after "
                     +:+ Js.show (default 30000%Z (rc_timeoutMs args)) +:+ "ms"))
    | SpawnFailed message => mret (err "SPAWN_ERROR" message)
    | SpawnThrew message => throw message
    end.

Definition run_run_command (raw : RunCommandArgs) : Run Result :=
  args ← parseRunCommandArgs raw;
  runCommandSandbox args.

Definition run_fetch_url (raw : FetchUrlArgs) : Run Result :=
  args ← parseFetchUrlArgs raw;
  outcome ← fetch (fu_url args);
  match outcome with
  | Fetched status contentType text =>
      let clipped := Js.substring0 (Z.to_nat (default 250000%Z (fu_maxBytes args))) text in
      mret (ok (Page (fu_url args) status contentType clipped
                     (String.length clipped <? String.length text)%nat))
  | FetchFailed message => throw message
  end.

(** [executeTool], in its cases [run_command] and [fetch_url]. *)
Definition executeTool (call : ToolCall) : Run Result :=
  try_catch
    (match call with
     | run_command args => run_run_command args
     | fetch_url args => run_fetch_url args
     end)
    (λ message, mret (err "TOOL_ERROR" message)).

End WithHost.
End Host.

(** * Properties *)

(** ** The monad, pointwise *)

Lemma bind_unfold {S A B} (m : State S A) (k : A → State S B) (s : S) :
  (m ≫= k) s =
  match m s with
  | (Ok a, s') => k a s'
  | (Throw e, s') => (Throw e, s')
  | (Diverge, s') => (Diverge, s')
  end.
Proof. reflexivity. Qed.

Lemma bind_ok {S A B} (m : State S A) (k : A → State S B) (s s' : S) (a : A) :
  m s = (Ok a, s') → (m ≫= k) s = k a s'.
Proof. intros H. rewrite bind_unfold, H. reflexivity. Qed.

(** Unfolds the operations of the monad, to run a program by
    computation. *)
Ltac unfold_monad :=
  unfold mbind, mret, State_bind, State_ret, throw, diverge, get, gets, modify,
         try_catch, try_bind, when.

(** A sequence that ends well went well through its first part. *)
Lemma bind_ok_inv {S A B} (m : State S A) (k : A → State S B) (s s2 : S) (b : B) :
  (m ≫= k) s = (Ok b, s2) →
  ∃ a s1, m s = (Ok a, s1) ∧ k a s1 = (Ok b, s2).
Proof.
  rewrite bind_unfold. destruct (m s) as [[a | e |] s1]; intros H.
  - exists a, s1. split; [reflexivity | exact H].
  - discriminate H.
  - discriminate H.
Qed.

(** ** The memory ledger *)

(** The journal on disk. *)
Definition journal (s : Sys) : list MemoryEntry.t :=
  match memory_file s with
  | Some memory => PersistentMemory.entries memory
  | None => []
  end.

(** The goal table on disk. *)
Definition goal_table (s : Sys) : list GoalRecord.t :=
  match memory_file s with
  | Some memory => PersistentMemory.goals memory
  | None => []
  end.

(** The [n] newest elements of a list kept in arrival order. *)
Definition newest {A} (n : nat) (l : list A) : list A := drop (length l - n) l.

(** What a caller of [addMemoryEntry] passes. *)
Record AppendRequest : Type := mkAppend {
  a_type : MemoryType.t;
  a_content : string;
  a_context : option string;
  a_goalId : option string }.

(** The entry holds what the request asked to record. *)
Definition records (r : AppendRequest) (e : MemoryEntry.t) : Prop :=
  MemoryEntry.type e = a_type r ∧ MemoryEntry.content e = a_content r
  ∧ MemoryEntry.context e = a_context r ∧ MemoryEntry.goalId e = a_goalId r.

(** A sequence of appends; it returns the entries made, oldest first. *)
Fixpoint append_all (w : World) (reqs : list AppendRequest) : IO (list MemoryEntry.t) :=
  match reqs with
  | [] => mret []
  | r :: rest =>
      e ← Memory.addMemoryEntry w (a_type r) (a_content r) (a_context r) (a_goalId r);
      es ← append_all w rest;
      mret (e :: es)
  end.

Lemma slice_from_neg_newest {A} (n : nat) (l : list A) :
  (0 < n)%nat → Js.slice_from (- Z.of_nat n) l = newest n l.
Proof.
  intros Hn. unfold Js.slice_from, newest.
  destruct (Z.ltb_spec (- Z.of_nat n) 0) as [_ | Hge]; [| lia].
  f_equal. lia.
Qed.

Lemma newest_all {A} (n : nat) (l : list A) : length l ≤ n → newest n l = l.
Proof.
  intros Hle. unfold newest. replace (length l - n) with 0 by lia. reflexivity.
Qed.

Lemma length_newest {A} (n : nat) (l : list A) : length (newest n l) = length l `min` n.
Proof. unfold newest. rewrite length_drop. lia. Qed.

(** Trimming early does not change what is kept in the end. *)
Lemma newest_app_newest {A} (n : nat) (l k : list A) :
  newest n (newest n l ++ k) = newest n (l ++ k).
Proof.
  destruct (decide (length l ≤ n)) as [Hle | Hgt].
  - rewrite (newest_all n l Hle). reflexivity.
  - unfold newest at 1 3. rewrite !length_app, length_newest.
    assert (Hkeep : length l `min` n + length k - n = length k) by lia.
    assert (Hsplit : length l + length k - n = (length l - n) + length k) by lia.
    rewrite Hkeep, Hsplit, <- drop_drop. unfold newest.
    rewrite (drop_app_le l k (length l - n)) by lia. reflexivity.
Qed.

(** One append: the entry goes last and the journal keeps its 1000
    newest entries. *)
Lemma addMemoryEntry_journal (w : World) type content context goalId (s : Sys) :
  ∃ e s', Memory.addMemoryEntry w type content context goalId s = (Ok e, s')
    ∧ records (mkAppend type content context goalId) e
    ∧ journal s' = newest 1000 (journal s ++ [e])
    ∧ goal_table s' = goal_table s
    ∧ agent s' = agent s.
Proof.
  unfold Memory.addMemoryEntry, Memory.loadMemory, Memory.saveMemory, journal, goal_table.
  destruct s as [file ag em pr c i l x].
  destruct file as [memory |]; cbn -[Nat.ltb Js.slice_from newest].
  - eexists _, _. split; [reflexivity |]. cbn -[Nat.ltb Js.slice_from newest].
    split; [repeat split |]. split; [| split; reflexivity].
    match goal with |- context [(1000 <? length ?p)%nat] =>
      destruct (Nat.ltb_spec 1000 (length p)) as [Hlt | Hge] end.
    + apply (slice_from_neg_newest 1000). lia.
    + symmetry. apply newest_all. exact Hge.
  - eexists _, _. split; [reflexivity |]. cbn. split; [repeat split |].
    split; [| split; reflexivity]. reflexivity.
Qed.

(** C7. Whatever is appended to a ledger that is within its cap, the
    journal afterwards holds the 1000 most recent entries of the old
    journal followed by the appended entries, oldest dropped first, and so
    never more than 1000; appending 1005 entries to an empty ledger leaves
    the last 1000 of them. *)
Theorem ledger_capped_fifo (w : World) (reqs : list AppendRequest) (s : Sys) :
  length (journal s) ≤ 1000 →
  ∃ es s', append_all w reqs s = (Ok es, s')
    ∧ Forall2 records reqs es
    ∧ journal s' = newest 1000 (journal s ++ es)
    ∧ length (journal s') ≤ 1000.
Proof.
  revert s. induction reqs as [| r reqs IH]; intros s Hcap.
  - exists [], s. cbn. split; [reflexivity |]. split; [constructor |].
    rewrite app_nil_r, newest_all by exact Hcap. split; [reflexivity | exact Hcap].
  - destruct (addMemoryEntry_journal w (a_type r) (a_content r) (a_context r) (a_goalId r) s)
      as (e & s1 & Hrun & Hrec & Hj & _ & _).
    assert (Hcap1 : length (journal s1) ≤ 1000).
    { rewrite Hj, length_newest. lia. }
    destruct (IH s1 Hcap1) as (es & s2 & Hrest & Hall & Hj2 & Hlen).
    exists (e :: es), s2. cbn [append_all].
    rewrite (bind_ok _ _ _ _ _ Hrun), (bind_ok _ _ _ _ _ Hrest). cbn.
    split; [reflexivity |]. split.
    + constructor; [| exact Hall]. destruct r; exact Hrec.
    + split; [| exact Hlen].
      rewrite Hj2, Hj, newest_app_newest, <- app_assoc. reflexivity.
Qed.

(** A world whose model answers nothing of use. *)
Definition quiet_world : World :=
  Demo.world (λ _, Completion "") (λ _, ExecDirect "").

Definition notes (n : nat) : list AppendRequest :=
  (λ k, mkAppend MemoryType.result ("note " +:+ pretty k) None None) <$> seq 0 n.

(** 1005 appends to an empty ledger: 1000 entries remain, the first five
    are gone. *)
Lemma ledger_capped_fifo_1005 :
  ∃ es s', append_all quiet_world (notes 1005) Demo.fresh = (Ok es, s')
    ∧ length es = 1005
    ∧ journal s' = drop 5 es
    ∧ length (journal s') = 1000.
Proof.
  destruct (ledger_capped_fifo quiet_world (notes 1005) Demo.fresh)
    as (es & s' & Hrun & Hall & Hj & Hlen).
  { simpl. lia. }
  assert (Hes : length es = 1005).
  { rewrite <- (Forall2_length _ _ _ Hall). vm_compute. reflexivity. }
  exists es, s'. split; [exact Hrun |]. split; [exact Hes |].
  assert (Hdrop : journal s' = drop 5 es).
  { rewrite Hj. unfold newest. cbn [journal Demo.fresh memory_file app].
    rewrite Hes. reflexivity. }
  split; [exact Hdrop |].
  rewrite Hdrop, length_drop, Hes. reflexivity.
Defined.

(** The entries [getRecentMemory] chooses from. *)
Definition selected (goalId : option string) (s : Sys) : list MemoryEntry.t :=
  if Js.truthy goalId
  then filter (λ e, MemoryEntry.goalId e = goalId) (journal s)
  else journal s.

(** The text handed to the prompt for the entries shown. *)
Definition memory_text (w : World) (shown : list MemoryEntry.t) : string :=
  if decide (shown = []) then "No previous memory available."
  else Js.join Js.nl (Memory.format_entry w <$> shown).

(** The wording of the specification: the lines of the entries shown,
    the most recent one first. *)
Definition recent_first_text (w : World) (shown : list MemoryEntry.t) : string :=
  Js.join Js.nl (Memory.format_entry w <$> reverse shown).

Lemma loadMemory_journal (w : World) (s : Sys) :
  ∃ memory s', Memory.loadMemory w s = (Ok memory, s')
    ∧ PersistentMemory.entries memory = journal s
    ∧ PersistentMemory.goals memory = goal_table s
    ∧ memory_file s' = memory_file s
    ∧ prompts s' = prompts s.
Proof.
  unfold Memory.loadMemory, journal, goal_table.
  destruct s as [file ag em pr c i l x]. destruct file as [memory |]; cbn.
  - eexists _, _. repeat split.
  - eexists _, _. repeat split.
Qed.

(** C9, as the code has it. The memory text of a prompt shows the at most
    15 most recent entries (of the goal, when one is given), each on a line
    of its own with its type tag and its time, in the order of the journal:
    the oldest of them first, the most recent last. The planner is sent
    this text inside its prompt. *)
Theorem prompt_memory_chronological (w : World) (goalId : option string) (s : Sys) :
  let shown := newest 15 (selected goalId s) in
  ∃ s', Memory.formatMemoryForPrompt w goalId s = (Ok (memory_text w shown), s')
    ∧ length shown ≤ 15
    ∧ (∀ e, ∃ rest,
         Memory.format_entry w e =
           "[" +:+ Js.toUpperCase (MemoryType.name (MemoryEntry.type e)) +:+ "] "
               +:+ toLocaleString w (MemoryEntry.timestamp e) +:+ ": "
               +:+ MemoryEntry.content e +:+ rest)
    ∧ journal s' = journal s
    ∧ (∀ goal,
         prompts ((Memory.formatMemoryForPrompt w goalId ≫= Engine.planTasks w goal) s).2
           = prompts s ++ [Engine.planner_prompt goal (memory_text w shown)]).
Proof.
  intros shown.
  destruct (loadMemory_journal w s) as (memory & s' & Hload & Hentries & _ & Hfile & Hprompts).
  assert (Hrun : Memory.formatMemoryForPrompt w goalId s = (Ok (memory_text w shown), s')).
  { unfold Memory.formatMemoryForPrompt, Memory.getRecentMemory.
    rewrite bind_unfold, bind_unfold, Hload. cbn -[Js.slice_from Nat.eqb].
    rewrite Hentries. fold (selected goalId s).
    rewrite (slice_from_neg_newest 15) by lia. fold shown.
    unfold memory_text. destruct shown as [| e shown']; reflexivity. }
  exists s'. split; [exact Hrun |]. split; [| split; [| split]].
  - unfold shown. rewrite length_newest. lia.
  - intros e. eexists. reflexivity.
  - unfold journal. rewrite Hfile. reflexivity.
  - intros goal. rewrite (bind_ok _ _ _ _ _ Hrun).
    unfold Engine.planTasks, Engine.callLLM. unfold_monad.
    destruct (llm w (llm_calls s')); cbn [snd prompts tick_llm set_prompts];
      rewrite Hprompts; reflexivity.
Qed.

(** A ledger of two notes. *)
Definition two_notes : Sys := (append_all quiet_world (notes 2) Demo.fresh).2.

(** C9, as worded, fails on a ledger of two notes: the older note comes
    first in the text, not the more recent one. *)
Lemma prompt_memory_not_recent_first :
  journal two_notes ≠ []
  ∧ (Memory.formatMemoryForPrompt quiet_world None two_notes).1
      = Ok ("[RESULT] t1: note 0" +:+ Js.nl +:+ "[RESULT] t3: note 1")
  ∧ (Memory.formatMemoryForPrompt quiet_world None two_notes).1
      ≠ Ok (recent_first_text quiet_world (newest 15 (selected None two_notes))).
Proof.
  split; [| split].
  - vm_compute. discriminate.
  - vm_compute. reflexivity.
  - vm_compute. discriminate.
Qed.

(** ** The tool sandbox *)

Import Sandbox.

(** Containment in the directory tree under [root]: the root itself, or
    a path below it. *)
Definition inside (root p : string) : bool :=
  String.eqb p root || Js.startsWith p (root +:+ "/").

(** A disk with a workspace at [/ws] and files beside it. *)
Definition ws_disk : Disk :=
  mkDisk (<["/ws/notes.txt" := "hello"]>
            (<["/ws-evil/secret" := "top secret"]>
               (<["/etc/passwd" := "root:x:0:0"]> ∅))) [].

(** What the prefix test does guarantee: a resolved path that does not
    start with the text of the root is refused before the disk is
    touched. *)
Lemma read_file_refused_outside_prefix (root path : string) (d : Disk) :
  path ≠ "" →
  Js.startsWith (Path.resolve root path) root = false →
  executeTool root (read_file (mkReadFileArgs path None None None)) d
    = (Ok (err "TOOL_ERROR" "Path escapes workspace root."), d).
Proof.
  intros Hpath Hout. apply String.eqb_neq in Hpath.
  unfold executeTool, run_read_file, parseReadFileArgs, safeResolve. unfold_monad.
  cbn -[String.eqb Path.resolve Js.startsWith]. rewrite Hpath.
  cbn -[String.eqb Path.resolve Js.startsWith]. rewrite Hout. reflexivity.
Qed.

(** C2, at its failing input. With the workspace at [/ws], reading
    [../../etc/passwd] is refused with no operation on the disk, in both
    generations of the tools; but [../ws-evil/secret] resolves to
    [/ws-evil/secret], which lies outside [/ws] and still starts with the
    text [/ws]: it passes the test, the file is read and its content is
    returned. *)
Theorem sandbox_prefix_test_lets_sibling_through :
  (executeTool "/ws" (read_file (mkReadFileArgs "../../etc/passwd" None None None)) ws_disk
     = (Ok (err "TOOL_ERROR" "Path escapes workspace root."), ws_disk)
   ∧ LegacyTools.readFileTool "/ws" "../../etc/passwd" ws_disk
     = (Ok (LegacyTools.mkOutput false None (Some "Access denied: Path outside workspace")),
        ws_disk))
  ∧ Path.resolve "/ws" "../ws-evil/secret" = "/ws-evil/secret"
  ∧ inside "/ws" "/ws-evil/secret" = false
  ∧ (let (r, d) := executeTool "/ws"
                     (read_file (mkReadFileArgs "../ws-evil/secret" None None None)) ws_disk in
     r = Ok (ok (FileContent "../ws-evil/secret" "top secret" false))
     ∧ io_log d = [OpReadFile "/ws-evil/secret"])
  ∧ (let (r, d) := LegacyTools.readFileTool "/ws" "../ws-evil/secret" ws_disk in
     r = Ok (LegacyTools.mkOutput true (Some "top secret") None)
     ∧ io_log d = [OpStat "/ws-evil/secret"; OpReadFile "/ws-evil/secret"]).
Proof.
  split; [split |].
  - apply read_file_refused_outside_prefix; [discriminate | reflexivity].
  - reflexivity.
  - repeat split; vm_compute; reflexivity.
Qed.

(** *** Patches *)

(** The edit lies within a file of [n] lines. *)
Definition in_range (n : nat) (e : Edit) : Prop :=
  (1 ≤ startLine e)%Z ∧ (startLine e ≤ endLine e)%Z ∧ (endLine e ≤ Z.of_nat n)%Z.

(** The two edits share no line. *)
Definition disjoint (a b : Edit) : Prop :=
  (endLine a < startLine b)%Z ∨ (endLine b < startLine a)%Z.

(** No edit is listed twice and no two edits share a line. *)
Definition pairwise_disjoint (l : list Edit) : Prop :=
  NoDup l ∧ ∀ a b, a ∈ l → b ∈ l → a ≠ b → disjoint a b.

(** The edits in descending order of their first line. *)
Definition descending (l : list Edit) : Prop :=
  StronglySorted (λ a b, (startLine b < startLine a)%Z) l.

(** One edit on its own: the lines [startLine..endLine] give way to the
    lines of [newText]. *)
Definition replace_lines (lines : list string) (e : Edit) : list string :=
  take (Z.to_nat (startLine e - 1)) lines
    ++ Js.split_lines (newText e)
    ++ drop (Z.to_nat (endLine e)) lines.

Definition by_start_desc (a b : Edit) : Prop := (startLine b ≤ startLine a)%Z.
Definition below (a b : Edit) : Prop := (endLine b < startLine a)%Z.

Lemma split_lines_go_nonempty (cur s : string) : 1 ≤ length (Js.split_lines_go cur s).
Proof.
  revert cur. induction s as [| c rest IH]; intros cur; cbn; [lia |].
  destruct (decide (c = Js.lf)); [cbn; lia |].
  destruct (decide (c = Js.cr)); [| apply IH].
  destruct rest as [| c' rest']; [apply IH |].
  destruct (decide (c' = Js.lf)); [cbn; lia | apply IH].
Qed.

Lemma split_lines_nonempty (s : string) : 1 ≤ length (Js.split_lines s).
Proof. apply split_lines_go_nonempty. Qed.

Lemma insert_desc_perm (e : Edit) (l : list Edit) : insert_desc e l ≡ₚ e :: l.
Proof.
  induction l as [| x l IH]; cbn; [reflexivity |].
  destruct (startLine x <=? startLine e)%Z; [reflexivity |].
  rewrite IH. apply perm_swap.
Qed.

Lemma sort_desc_perm (l : list Edit) : sort_desc l ≡ₚ l.
Proof.
  induction l as [| e l IH]; cbn; [reflexivity |].
  rewrite insert_desc_perm, IH. reflexivity.
Qed.

Lemma insert_desc_sorted (e : Edit) (l : list Edit) :
  StronglySorted by_start_desc l → StronglySorted by_start_desc (insert_desc e l).
Proof.
  induction 1 as [| x l Hl IH Hx]; cbn.
  - repeat constructor.
  - destruct (Z.leb_spec (startLine x) (startLine e)) as [Hle | Hgt].
    + constructor; [constructor; assumption |].
      constructor; [exact Hle |].
      eapply Forall_impl; [exact Hx |]. unfold by_start_desc. intros y Hy. lia.
    + constructor; [exact IH |].
      rewrite insert_desc_perm. constructor; [unfold by_start_desc; lia | exact Hx].
Qed.

Lemma sort_desc_sorted (l : list Edit) : StronglySorted by_start_desc (sort_desc l).
Proof.
  induction l as [| e l IH]; cbn; [constructor | apply insert_desc_sorted, IH].
Qed.

(** A sorted list without repetition is sorted for any relation that
    follows from the first one between different elements. *)
Lemma StronglySorted_refine {A} (R R' : relation A) (l : list A) :
  StronglySorted R l → NoDup l →
  (∀ a b, a ∈ l → b ∈ l → a ≠ b → R a b → R' a b) →
  StronglySorted R' l.
Proof.
  induction 1 as [| x l Hl IH Hx]; intros Hnd Himp; [constructor |].
  apply NoDup_cons in Hnd as [Hnotin Hnd].
  constructor.
  - apply IH; [exact Hnd |]. intros a b Ha Hb. apply Himp; right; assumption.
  - rewrite Forall_forall in Hx |- *. intros b Hb.
    apply Himp; [left | right; exact Hb | | apply Hx, Hb].
    intros ->. contradiction.
Qed.

Section Patch.
Context (n : nat) (edits : list Edit).
Hypothesis Hrange : Forall (in_range n) edits.
Hypothesis Hdisj : pairwise_disjoint edits.

Lemma same_start_same_edit (a b : Edit) :
  a ∈ edits → b ∈ edits → by_start_desc a b → by_start_desc b a → a = b.
Proof.
  intros Ha Hb Hab Hba. destruct (decide (a = b)) as [| Hne]; [assumption |].
  rewrite Forall_forall in Hrange.
  destruct (Hrange a Ha) as (_ & Haa & _), (Hrange b Hb) as (_ & Hbb & _).
  destruct (proj2 Hdisj a b Ha Hb Hne) as [H | H];
    unfold by_start_desc in *; lia.
Qed.

Lemma ordered_below (a b : Edit) :
  a ∈ edits → b ∈ edits → a ≠ b → by_start_desc a b → below a b.
Proof.
  intros Ha Hb Hne Hab. rewrite Forall_forall in Hrange.
  destruct (Hrange a Ha) as (_ & Haa & _).
  destruct (proj2 Hdisj a b Ha Hb Hne) as [H | H];
    unfold by_start_desc, below in *; lia.
Qed.

(** Every listing of the edits in descending order is the one the tool
    computes. *)
Lemma sort_desc_unique (ordered : list Edit) :
  ordered ≡ₚ edits → StronglySorted by_start_desc ordered → ordered = sort_desc edits.
Proof.
  intros Hperm Hsorted.
  apply (StronglySorted_unique_strong by_start_desc);
    [| exact Hsorted | apply sort_desc_sorted | rewrite sort_desc_perm; exact Hperm].
  intros a b Ha Hb. apply same_start_same_edit.
  - rewrite <- Hperm. exact Ha.
  - rewrite <- (sort_desc_perm edits). exact Hb.
Qed.

Lemma sort_desc_below : StronglySorted below (sort_desc edits).
Proof.
  apply (StronglySorted_refine by_start_desc); [apply sort_desc_sorted | |].
  - rewrite sort_desc_perm. exact (proj1 Hdisj).
  - intros a b Ha Hb. rewrite sort_desc_perm in Ha, Hb. apply ordered_below; assumption.
Qed.
End Patch.

Lemma descending_by_start (l : list Edit) : descending l → StronglySorted by_start_desc l.
Proof.
  induction 1 as [| x l Hl IH Hx]; constructor; [exact IH |].
  eapply Forall_impl; [exact Hx |]. unfold by_start_desc. intros y Hy. lia.
Qed.

(** An edit in range passes the range test and is spliced in. *)
Lemma apply_edit_in_range (path : string) (lines : list string) (e : Edit) :
  in_range (length lines) e → apply_edit path lines e = inr (replace_lines lines e).
Proof.
  intros (H1 & H2 & H3). unfold apply_edit.
  destruct (Z.ltb_spec (startLine e - 1) 0) as [| _]; [lia |].
  destruct (Z.ltb_spec (endLine e - 1) (startLine e - 1)) as [| _]; [lia |].
  destruct (Z.leb_spec (Z.of_nat (length lines)) (endLine e - 1)) as [| _]; [lia |].
  cbn [orb]. unfold Js.splice, replace_lines. do 4 f_equal. lia.
Qed.

Lemma length_replace_lines (lines : list string) (e : Edit) :
  in_range (length lines) e → (startLine e ≤ Z.of_nat (length (replace_lines lines e)))%Z.
Proof.
  intros (H1 & H2 & H3). unfold replace_lines.
  rewrite !length_app, length_take, length_drop.
  pose proof (split_lines_nonempty (newText e)). lia.
Qed.

(** Edits applied from the bottom of the file upwards never fall out of
    range, and the loop computes their successive application. *)
Lemma apply_edits_below (path : string) (es : list Edit) :
  StronglySorted below es → ∀ lines : list string,
  Forall (in_range (length lines)) es →
  apply_edits path lines es = inr (foldl replace_lines lines es).
Proof.
  induction 1 as [| e es Hes IH He]; intros lines Hrange; [reflexivity |].
  apply Forall_cons in Hrange as [Hre Hrest].
  cbn [apply_edits foldl]. rewrite (apply_edit_in_range path lines e Hre).
  apply IH. pose proof (length_replace_lines lines e Hre) as Hlen.
  rewrite Forall_forall in He, Hrest |- *. intros e' He'.
  destruct (Hrest e' He') as (H1 & H2 & _). specialize (He e' He'). unfold below in He.
  repeat split; [exact H1 | exact H2 | lia].
Qed.

(** The schema accepts edits that are in range. *)
Lemma parse_in_range (path : string) (n : nat) (edits : list Edit) (d : Disk) :
  path ≠ "" → edits ≠ [] → Forall (in_range n) edits →
  parseApplyPatchArgs (mkApplyPatchArgs path edits) d = (Ok (mkApplyPatchArgs path edits), d).
Proof.
  intros Hpath Hne Hrange. unfold parseApplyPatchArgs. cbn [ap_path ap_edits].
  apply String.eqb_neq in Hpath. rewrite Hpath. cbn [negb andb].
  assert (Hall : forallb (λ e, (1 <=? startLine e)%Z && (1 <=? endLine e)%Z) edits = true).
  { apply forallb_forall. intros e He. rewrite Forall_forall in Hrange.
    apply list_elem_of_In in He. destruct (Hrange e He) as (H1 & H2 & _).
    apply andb_true_iff. split; apply Z.leb_le; lia. }
  rewrite Hall. destruct edits; [exfalso; apply Hne; reflexivity |]. reflexivity.
Qed.

(** The tool on a file that exists, from the sorted edits onwards. *)
Lemma run_apply_patch_present (root path content : string) (d : Disk) (edits : list Edit) :
  parseApplyPatchArgs (mkApplyPatchArgs path edits) d = (Ok (mkApplyPatchArgs path edits), d) →
  Js.startsWith (Path.resolve root path) root = true →
  files d !! Path.resolve root path = Some content →
  executeTool root (apply_patch (mkApplyPatchArgs path edits)) d =
    let p := Path.resolve root path in
    let d1 := mkDisk (files d) (io_log d ++ [OpStat p] ++ [OpReadFile p]) in
    match apply_edits path (Js.split_lines content) (sort_desc edits) with
    | inl failure => (Ok failure, d1)
    | inr lines' =>
        let updated := Js.join Js.nl lines' in
        (Ok (ok (Patched path (Z.of_nat (length (sort_desc edits))))),
         mkDisk (<[p := updated]> (files d)) (io_log d1 ++ [OpWriteFile p updated]))
    end.
Proof.
  intros Hparse Hin Hfile.
  unfold executeTool, run_apply_patch, try_catch.
  rewrite bind_unfold, Hparse. cbn [ap_path ap_edits].
  unfold safeResolve. rewrite Hin. cbn [negb].
  unfold fileExists, fs_stat, fs_readFile, fs_writeFile, record_op.
  unfold_monad. cbn [files io_log]. rewrite Hfile. cbn [negb files io_log].
  rewrite Hfile. rewrite <- app_assoc.
  destruct (apply_edits path (Js.split_lines content) (sort_desc edits)); reflexivity.
Qed.

(** C8. For edits that are in range and pairwise disjoint, the tool
    gives the same result and leaves the same disk whatever the order of
    the edits array, and the file then holds the lines obtained by applying
    the edits one at a time in descending order of [startLine]. *)
Theorem apply_patch_order_independent (root path content : string) (d : Disk)
    (edits edits' : list Edit) :
  path ≠ "" →
  Js.startsWith (Path.resolve root path) root = true →
  files d !! Path.resolve root path = Some content →
  edits ≠ [] →
  Forall (in_range (length (Js.split_lines content))) edits →
  pairwise_disjoint edits →
  edits' ≡ₚ edits →
  executeTool root (apply_patch (mkApplyPatchArgs path edits')) d
    = executeTool root (apply_patch (mkApplyPatchArgs path edits)) d
  ∧ ∀ ordered, ordered ≡ₚ edits → descending ordered →
      ∃ d', executeTool root (apply_patch (mkApplyPatchArgs path edits)) d
              = (Ok (ok (Patched path (Z.of_nat (length edits)))), d')
        ∧ files d' !! Path.resolve root path
            = Some (Js.join Js.nl (foldl replace_lines (Js.split_lines content) ordered)).
Proof.
  intros Hpath Hin Hfile Hne Hrange Hdisj Hperm.
  set (n := length (Js.split_lines content)) in *.
  assert (Hne' : edits' ≠ []).
  { intros ->. apply Permutation_nil in Hperm. contradiction. }
  assert (Hrange' : Forall (in_range n) edits') by (rewrite Hperm; exact Hrange).
  assert (Hsame : sort_desc edits' = sort_desc edits).
  { apply (sort_desc_unique n edits Hrange Hdisj).
    - rewrite sort_desc_perm. exact Hperm.
    - apply sort_desc_sorted. }
  pose proof (parse_in_range path n edits d Hpath Hne Hrange) as Hparse.
  pose proof (parse_in_range path n edits' d Hpath Hne' Hrange') as Hparse'.
  rewrite (run_apply_patch_present root path content d edits Hparse Hin Hfile).
  rewrite (run_apply_patch_present root path content d edits' Hparse' Hin Hfile).
  rewrite Hsame. split; [reflexivity |].
  intros ordered Hord Hdesc.
  rewrite <- (sort_desc_unique n edits Hrange Hdisj ordered Hord (descending_by_start _ Hdesc)).
  assert (Hbelow : StronglySorted below ordered).
  { rewrite (sort_desc_unique n edits Hrange Hdisj ordered Hord (descending_by_start _ Hdesc)).
    apply (sort_desc_below n edits Hrange Hdisj). }
  assert (Hrange_o : Forall (in_range n) ordered) by (rewrite Hord; exact Hrange).
  cbv zeta. rewrite (apply_edits_below path ordered Hbelow _ Hrange_o).
  eexists. split.
  - rewrite (Permutation_length Hord). reflexivity.
  - cbn [files]. apply lookup_insert_eq.
Qed.

(** A workspace with a file of ten lines. *)
Definition ten_lines : string :=
  Js.join Js.nl ["l1"; "l2"; "l3"; "l4"; "l5"; "l6"; "l7"; "l8"; "l9"; "l10"].
Definition ten_line_disk : Disk := mkDisk (<["/ws/f.txt" := ten_lines]> ∅) [].

Definition high_first : list Edit := [mkEdit 5 5 "X"; mkEdit 2 3 "Y"].
Definition low_first : list Edit := [mkEdit 2 3 "Y"; mkEdit 5 5 "X"].

(** The example of the specification: both orders of the two edits leave
    the same file, line 5 replaced by [X] and lines 2 to 3 by [Y]. *)
Lemma apply_patch_order_independent_example :
  executeTool "/ws" (apply_patch (mkApplyPatchArgs "f.txt" low_first)) ten_line_disk
    = executeTool "/ws" (apply_patch (mkApplyPatchArgs "f.txt" high_first)) ten_line_disk
  ∧ ∃ d', executeTool "/ws" (apply_patch (mkApplyPatchArgs "f.txt" high_first)) ten_line_disk
            = (Ok (ok (Patched "f.txt" 2)), d')
      ∧ files d' !! "/ws/f.txt"
          = Some (Js.join Js.nl ["l1"; "Y"; "l4"; "X"; "l6"; "l7"; "l8"; "l9"; "l10"]).
Proof.
  destruct (apply_patch_order_independent "/ws" "f.txt" ten_lines ten_line_disk
              high_first low_first) as [Hsame Hcontent].
  - discriminate.
  - reflexivity.
  - vm_compute. reflexivity.
  - discriminate.
  - change (length (Js.split_lines ten_lines)) with 10.
    unfold high_first, in_range.
    repeat (apply List.Forall_cons); [| | apply List.Forall_nil];
      cbn [startLine endLine]; lia.
  - split.
    + apply NoDup_cons. split; [| apply NoDup_singleton].
      rewrite list_elem_of_singleton. discriminate.
    + intros a b Ha Hb Hne. unfold high_first in Ha, Hb.
      rewrite !elem_of_cons, elem_of_nil in Ha, Hb.
      destruct Ha as [-> | [-> | []]], Hb as [-> | [-> | []]];
        try contradiction; unfold disjoint; cbn; lia.
  - apply perm_swap.
  - split; [exact Hsame |].
    destruct (Hcontent high_first) as (d' & Hrun & Hfile).
    + reflexivity.
    + unfold descending, high_first.
      apply SSorted_cons.
      * apply SSorted_cons; [apply SSorted_nil | apply List.Forall_nil].
      * apply List.Forall_cons; [cbn; lia | apply List.Forall_nil].
    + exists d'. split; [exact Hrun | exact Hfile].
Defined.

(** ** The queue worker *)

(** [runAgent] hands its final state to the callback before it returns
    it. *)
Lemma runAgent_last_emitted (w : World) goal config forcedId (s s' : Sys) final :
  Engine.runAgent w goal config forcedId s = (Ok final, s') →
  last (emitted s') = Some final.
Proof.
  unfold Engine.runAgent. cbv zeta. intros H.
  do 10 (apply bind_ok_inv in H as (? & ? & _ & H)).
  apply bind_ok_inv in H as ([] & s1 & Hemit & H).
  unfold Engine.emit, modify in Hemit. unfold gets in H.
  injection Hemit as <-. injection H as <- <-.
  cbn [emitted set_emitted agent]. apply last_snoc.
Qed.

(** What the callbacks of a run publish: one state event for each
    snapshot, in their order, each with what the state object holds when
    its callback publishes; for a run that has returned, the last one
    carries the final state. *)
Lemma callbacks_published (agentId : string) (late : nat → AgentState.t)
    (final : option AgentState.t) (snapshots : list AgentState.t) :
  ∀ (k : nat) (r : Worker.Redis),
  ∃ states,
    Worker.published (Worker.callbacks agentId late final k snapshots r)
    = Worker.published r
        ++ ((λ st, (Worker.redisChannelAgentEvents agentId, Worker.state_event agentId st))
              <$> states)
    ∧ length states = length snapshots
    ∧ (∀ j, S j < length snapshots → states !! j = Some (late (k + j)))
    ∧ (∀ finalState, final = Some finalState → snapshots ≠ [] →
         last states = Some finalState).
Proof.
  induction snapshots as [| state rest IH]; intros k r; cbn [Worker.callbacks].
  - exists []. cbn. rewrite app_nil_r. repeat split; [intros j Hj; lia | congruence].
  - set (seen := match rest, final with [], Some f => f | _, _ => late k end).
    destruct (IH (S k) (Worker.onUpdate agentId r state seen))
      as (states & Hpub & Hlen & Hlate & Hlast).
    exists (seen :: states). split; [| split; [| split]].
    + rewrite Hpub. cbn. rewrite <- app_assoc. reflexivity.
    + cbn. rewrite Hlen. reflexivity.
    + intros [| j] Hj; cbn [length] in Hj.
      * change ((seen :: states) !! 0) with (Some seen). rewrite Nat.add_0_r. unfold seen.
        destruct rest; [cbn in Hj; lia | reflexivity].
      * change ((seen :: states) !! S j) with (states !! j).
        rewrite (Hlate j) by lia. do 2 f_equal. lia.
    + intros finalState Hfinal _. destruct rest as [| state' rest'].
      * destruct states; [| discriminate Hlen]. unfold seen. rewrite Hfinal. reflexivity.
      * destruct states as [| st states']; [discriminate Hlen |].
        change (last (seen :: st :: states')) with (last (st :: states')).
        apply Hlast; [exact Hfinal | discriminate].
Qed.

(** The callbacks of a job store under the key of their job only. *)
Lemma callbacks_store (agentId : string) (late : nat → AgentState.t)
    (final : option AgentState.t) (snapshots : list AgentState.t) (key : string) :
  key ≠ Worker.redisKeyAgentState agentId →
  ∀ (k : nat) (r : Worker.Redis),
  Worker.store (Worker.callbacks agentId late final k snapshots r) !! key
  = Worker.store r !! key.
Proof.
  intros Hkey. induction snapshots as [| state rest IH]; intros k r; cbn [Worker.callbacks].
  - reflexivity.
  - rewrite IH. cbn. apply lookup_insert_ne. intros Heq. apply Hkey. symmetry. exact Heq.
Qed.

Lemma runAgent_emits (w : World) goal config forcedId (s s' : Sys) final :
  Engine.runAgent w goal config forcedId s = (Ok final, s') → emitted s' ≠ [].
Proof.
  intros Hrun Hnil. apply runAgent_last_emitted in Hrun. rewrite Hnil in Hrun. discriminate Hrun.
Qed.

(** C10. When the run of a job ends paused, the worker returns the status
    [paused] and stores the final state, with that status, under the key
    of the job; and it has published, in this order: the start of the job,
    one state event for each snapshot of the run, and a [done] event whose
    status is [failed]. The state events carry what the state object
    holds when their callbacks publish, which is for the timing of the
    store to decide, except the last: it carries the final state, with its
    status [paused]. A [done] event never carries [paused], and carries
    [completed] only for a completed run. *)
Theorem paused_run_reported_failed (w : World) (late : nat → AgentState.t)
    (job : Worker.AgentJobPayload) (s s' : Sys) (r : Worker.Redis) (final : AgentState.t) :
  Engine.runAgent w (Worker.goal job) (default AgentConfig.empty (Worker.config job))
                  (Some (Worker.agentId job)) (set_emitted [] s) = (Ok final, s') →
  AgentState.status final = RunStatus.paused →
  let id := Worker.agentId job in
  let channel := Worker.redisChannelAgentEvents id in
  ∃ r' states,
    Worker.process_job w late job s r = (Ok (id, RunStatus.paused), s', r')
    ∧ Worker.published r'
        = Worker.published r
            ++ [(channel, Worker.log_event id Worker.info "Job started")]
            ++ ((λ st, (channel, Worker.state_event id st)) <$> states)
            ++ [(channel, Worker.done_event id Worker.failed)]
    ∧ length states = length (emitted s')
    ∧ (∀ k, S k < length (emitted s') → states !! k = Some (late k))
    ∧ last states = Some final
    ∧ Worker.store r' !! Worker.redisKeyAgentState id = Some (final, 3600%Z)
    ∧ (∀ st, Worker.done_status st ≠ Worker.paused
             ∧ (Worker.done_status st = Worker.completed ↔ st = RunStatus.completed)).
Proof.
  intros Hrun Hpaused id channel.
  destruct (callbacks_published id late (Some final) (emitted s') 0
              (Worker.publish id (Worker.log_event id Worker.info "Job started") r))
    as (states & Hpub & Hlen & Hlate & Hlast).
  eexists _, states. split; [| split; [| split; [| split; [| split; [| split]]]]].
  - unfold Worker.process_job. rewrite Hrun, Hpaused. reflexivity.
  - cbn [Worker.published Worker.publish Worker.set_state]. fold id. rewrite Hpub.
    cbn [Worker.published Worker.publish]. rewrite <- !app_assoc. reflexivity.
  - exact Hlen.
  - exact Hlate.
  - apply Hlast; [reflexivity |]. exact (runAgent_emits _ _ _ _ _ _ _ Hrun).
  - cbn [Worker.store Worker.publish Worker.set_state]. apply lookup_insert_eq.
  - intros st. unfold Worker.done_status.
    destruct (decide (st = RunStatus.completed)) as [-> | Hne].
    + split; [discriminate | split; reflexivity].
    + split; [discriminate | split; [discriminate | intros ->; contradiction]].
Qed.

(** A job whose step budget is empty: the run pauses before its only
    task. *)
Definition plan_world (n : nat) : World :=
  Demo.world (λ k, match k with 0 => Completion (Demo.plan n) | _ => Completion "done" end)
             (λ _, ExecDirect "ok").
Definition no_budget : AgentConfig.partial :=
  AgentConfig.mk_partial (Some 0%Z) None None None.
Definition paused_job : Worker.AgentJobPayload := Worker.mkJob "run-1" "tidy up" (Some no_budget).
Definition paused_run : Result AgentState.t * Sys :=
  Engine.runAgent (plan_world 1) "tidy up" no_budget (Some "run-1") (set_emitted [] Demo.fresh).
Definition paused_final : AgentState.t :=
  match paused_run.1 with Ok final => final | _ => Demo.blank end.

(** The store answers late: every callback of the job finds the state
    object as the run has left it. *)
Definition all_late : nat → AgentState.t := λ _, paused_final.

Lemma paused_run_reported_failed_example :
  AgentState.status paused_final = RunStatus.paused
  ∧ ∃ r' states,
      Worker.process_job (plan_world 1) all_late paused_job Demo.fresh (Worker.mkRedis ∅ [])
        = (Ok ("run-1", RunStatus.paused), paused_run.2, r')
      ∧ last (Worker.published r')
          = Some ("agent:run-1:events", Worker.done_event "run-1" Worker.failed)
      ∧ length states = length (emitted paused_run.2)
      ∧ last states = Some paused_final
      ∧ Worker.store r' !! "agent:run-1:state" = Some (paused_final, 3600%Z).
Proof.
  split; [vm_compute; reflexivity |].
  destruct (paused_run_reported_failed (plan_world 1) all_late paused_job Demo.fresh
              paused_run.2 (Worker.mkRedis ∅ []) paused_final)
    as (r' & states & Hjob & Hpub & Hlen & _ & Hlast & Hstore & _).
  - vm_compute. reflexivity.
  - vm_compute. reflexivity.
  - exists r', states. split; [exact Hjob |]. split; [| split; [| split]].
    + rewrite Hpub, !app_assoc. apply last_snoc.
    + exact Hlen.
    + exact Hlast.
    + exact Hstore.
Defined.

(** ** The engine on chosen worlds *)

(** The executor is rejected at every attempt. *)
Definition failing_world : World :=
  Demo.world (λ _, Completion (Demo.plan 1)) (λ _, ExecRejected "boom").

(** C5, at its failing input. One task, the default budget of three
    retries, an executor that throws at each of the four attempts: the task
    ends [failed], but the summary written by the [catch] clause is
    overwritten by the assignment after the loop, so the result is the
    empty text in the final state and in every snapshot. *)
Theorem exhausted_retries_lose_summary :
  let (r, s) := Engine.runAgent failing_world "g" AgentConfig.empty None Demo.fresh in
  ∃ final, r = Ok final
    ∧ AgentState.status final = RunStatus.failed
    ∧ Task.status <$> AgentState.tasks final = [TaskStatus.failed]
    ∧ Task.result <$> AgentState.tasks final = [Some ""]
    ∧ (λ snapshot, Task.result <$> AgentState.tasks snapshot) <$> emitted s
        = [[]; []; [None]; [None]; [Some ""]; [Some ""]]
    ∧ AgentLogEntry.message <$> AgentState.log final
        = [ "Starting agent with goal: g"; "Planned 1 tasks"; "Starting task 1: step 1";
            "Error executing task 1: boom"; "Error executing task 1: boom";
            "Error executing task 1: boom"; "Error executing task 1: boom";
            "Task 1 failed. Stopping non-autonomous execution."; "Some tasks failed." ].
Proof.
  vm_compute. eexists. repeat split.
Qed.

(** The summary is written, but only until the loop is left: right
    after the last failed attempt the task holds it. *)
Lemma summary_written_by_catch :
  let task := Task.mk 1 "step 1" TaskStatus.running None None None None in
  let s := set_agent (AgentState.set_tasks [task] Demo.blank) Demo.fresh in
  (λ t, (Task.status t, Task.result t))
    <$> AgentState.tasks
          (agent (Engine.on_error failing_world Engine.DEFAULT_CONFIG 0 task 3 "" "boom" s).2)
  = [(TaskStatus.failed, Some "Failed after 4 attempts: boom")].
Proof. vm_compute. reflexivity. Qed.

(** The model answers a plan at its first two calls. *)
Definition resuming_world : World :=
  Demo.world (λ k, match k with
                   | 0 | 1 => Completion (Demo.plan 1)
                   | _ => Completion "looks fine"
                   end)
             (λ _, ExecDirect "ok").

(** C4, at its failing input. The paused run [run-1] has left its goal
    [in_progress]. Resuming runs the goal again with [autonomous] forced
    to [true], but under the freshly drawn identifier [id2]: the new run
    gets a goal record of its own, and the record of [run-1] stays
    [in_progress]. *)
Theorem resumed_run_gets_fresh_id :
  (λ g, (GoalRecord.id g, GoalRecord.status g)) <$> goal_table paused_run.2
    = [("run-1", GoalStatus.in_progress)]
  ∧ let (r, s) := Engine.resumeUnfinishedGoals resuming_world paused_run.2 in
    ∃ resumed, r = Ok [resumed]
      ∧ AgentState.autonomous resumed = true
      ∧ AgentState.id resumed = "id2"
      ∧ AgentState.id resumed ≠ "run-1"
      ∧ (λ g, (GoalRecord.id g, GoalRecord.status g)) <$> goal_table s
          = [("run-1", GoalStatus.in_progress); ("id2", GoalStatus.completed)].
Proof.
  split; [vm_compute; reflexivity |].
  vm_compute. eexists. repeat split. discriminate.
Qed.

(** ** The reflector *)

(** The statuses of the tasks, in order. *)
Definition statuses (a : AgentState.t) : list TaskStatus.t :=
  Task.status <$> AgentState.tasks a.

Lemma statuses_alter_status (x : TaskStatus.t) (i : nat) (l : list Task.t) :
  Task.status <$> alter (Task.set_status x) i l = <[i := x]> (Task.status <$> l).
Proof.
  revert i. induction l as [| t l IH]; intros [| i]; cbn; try reflexivity.
  f_equal. apply IH.
Qed.

Lemma statuses_alter_keep (f : Task.t → Task.t) (i : nat) (l : list Task.t) :
  (∀ t, Task.status (f t) = Task.status t) →
  Task.status <$> alter f i l = Task.status <$> l.
Proof.
  intros Hf. revert i. induction l as [| t l IH]; intros [| i]; cbn; try reflexivity.
  - f_equal. apply Hf.
  - f_equal. apply IH.
Qed.

(** No verdict can be read from the response: it holds no braces in the
    right order, or [JSON.parse] throws on the text between them. *)
Definition unreadable (w : World) (response : string) : Prop :=
  match Engine.match_object response with
  | Some jsonMatch => JSON_parse w jsonMatch = None
  | None => True
  end.

(** C6. When no verdict can be read from the answer of the model,
    [reflectOnTask] returns the default verdict (success, no retry,
    confidence 50) and writes nothing to the ledger; the turn of the retry
    loop then marks the task [done] and leaves the loop without a retry. *)
Theorem reflection_falls_back (w : World) (finalConfig : AgentConfig.t) (i : nat)
    (task : Task.t) (retries : Z) (result response : string) (s : Sys) :
  llm w (llm_calls s) = Completion response →
  unreadable w response →
  (∃ s', Engine.reflectOnTask w task result s = (Ok Engine.default_reflection, s')
       ∧ memory_file s' = memory_file s ∧ agent s' = agent s)
  ∧ ReflectionResult.success Engine.default_reflection = true
  ∧ ReflectionResult.shouldRetry Engine.default_reflection = false
  ∧ ReflectionResult.confidence Engine.default_reflection = 50%Z
  ∧ (AgentConfig.reflectionEnabled finalConfig = true →
     ∃ s', Engine.after_execute w finalConfig i task retries result s
             = (Ok (Engine.Break result), s')
       ∧ statuses (agent s') = <[i := TaskStatus.done]> (statuses (agent s))
       ∧ memory_file s' = memory_file s).
Proof.
  intros Hllm Hbad.
  assert (Hreflect : ∀ s0, llm_calls s0 = llm_calls s →
            ∃ s', Engine.reflectOnTask w task result s0 = (Ok Engine.default_reflection, s')
              ∧ memory_file s' = memory_file s0 ∧ agent s' = agent s0).
  { intros s0 Hcalls. unfold Engine.reflectOnTask, Engine.callLLM. unfold_monad.
    rewrite Hcalls, Hllm. unfold unreadable in Hbad.
    destruct (Engine.match_object response) as [jsonMatch |].
    - rewrite Hbad. eexists. split; [reflexivity |]. split; reflexivity.
    - eexists. split; [reflexivity |]. split; reflexivity. }
  split; [apply Hreflect; reflexivity |].
  split; [reflexivity |]. split; [reflexivity |]. split; [reflexivity |].
  intros Henabled. unfold Engine.after_execute. rewrite Henabled.
  unfold Engine.log, Engine.emit, Engine.update_agent, Engine.update_task, now.
  unfold_monad.
  match goal with
  | |- context [Engine.reflectOnTask w task result ?s0] =>
      destruct (Hreflect s0 eq_refl) as (s1 & Hrun & Hfile & Hagent); rewrite Hrun
  end.
  cbn -[Js.show Js.substring0 String.append].
  eexists. split; [reflexivity |].
  cbn -[Js.show Js.substring0 String.append]. rewrite Hagent, Hfile.
  cbn -[Js.show Js.substring0 String.append]. split; [| reflexivity].
  unfold statuses. cbn [AgentState.tasks].
  rewrite statuses_alter_status, statuses_alter_keep by reflexivity. reflexivity.
Qed.

(** The reflector is answered in plain words. *)
Definition chatty_world : World :=
  Demo.world (λ _, Completion "It went well, I think.") (λ _, ExecDirect "ok").
Definition first_task : Task.t := Task.mk 1 "step 1" TaskStatus.running None None None None.

Lemma reflection_falls_back_example :
  unreadable chatty_world "It went well, I think."
  ∧ ∃ s', Engine.reflectOnTask chatty_world first_task "ok" Demo.fresh
            = (Ok Engine.default_reflection, s')
      ∧ memory_file s' = memory_file Demo.fresh ∧ agent s' = agent Demo.fresh.
Proof.
  assert (Hbad : unreadable chatty_world "It went well, I think.").
  { vm_compute. exact I. }
  split; [exact Hbad |].
  refine (proj1 (reflection_falls_back chatty_world Engine.DEFAULT_CONFIG 0 first_task
                   0 "ok" "It went well, I think." Demo.fresh _ Hbad)).
  reflexivity.
Defined.

(** ** The orchestration loop, through the fields that drive it *)

(** A step that leaves the state object of the run as it was and cannot
    fail. *)
Definition quiet {A} (m : IO A) : Prop :=
  ∀ s, ∃ a s', m s = (Ok a, s') ∧ agent s' = agent s.

Create HintDb quiet discriminated.

Lemma quiet_ret {A} (a : A) : quiet (mret a).
Proof. intros s. exists a, s. split; reflexivity. Qed.

Lemma quiet_bind {A B} (m : IO A) (k : A → IO B) :
  quiet m → (∀ a, quiet (k a)) → quiet (m ≫= k).
Proof.
  intros Hm Hk s. destruct (Hm s) as (a & s1 & Hrun & Hagent).
  destruct (Hk a s1) as (b & s2 & Hrun2 & Hagent2).
  exists b, s2. rewrite (bind_ok _ _ _ _ _ Hrun). split; [exact Hrun2 | congruence].
Qed.

Lemma quiet_gets {A} (f : Sys → A) : quiet (gets f).
Proof. intros s. exists (f s), s. split; reflexivity. Qed.

Lemma quiet_now (w : World) : quiet (now w).
Proof. intros s. eexists _, _. split; reflexivity. Qed.

Lemma quiet_generateId (w : World) : quiet (generateId w).
Proof. intros s. eexists _, _. split; reflexivity. Qed.

Lemma quiet_set_memory_file (v : option PersistentMemory.t) : quiet (modify (set_memory_file v)).
Proof. intros s. eexists _, _. split; reflexivity. Qed.

Lemma quiet_emit : quiet Engine.emit.
Proof. intros s. eexists _, _. split; reflexivity. Qed.

Lemma quiet_ask_executor (w : World) (prompt : string) : quiet (Engine.ask_executor w prompt).
Proof. intros s. eexists _, _. split; reflexivity. Qed.

#[local] Hint Resolve quiet_ret quiet_gets quiet_now quiet_generateId
  quiet_set_memory_file quiet_emit quiet_ask_executor : quiet.

(** Takes a program apart along its sequences and its branches. *)
Ltac quiet_steps :=
  repeat first
    [ solve [auto with quiet]
    | apply quiet_bind; [| intros ?]
    | match goal with
      | |- quiet (match ?x with _ => _ end) => destruct x
      | |- quiet (if ?b then _ else _) => destruct b
      end ].

Lemma quiet_loadMemory (w : World) : quiet (Memory.loadMemory w).
Proof. unfold Memory.loadMemory. quiet_steps. Qed.
#[local] Hint Resolve quiet_loadMemory : quiet.

Lemma quiet_saveMemory (w : World) (memory : PersistentMemory.t) :
  quiet (Memory.saveMemory w memory).
Proof. unfold Memory.saveMemory. quiet_steps. Qed.
#[local] Hint Resolve quiet_saveMemory : quiet.

Lemma quiet_addMemoryEntry (w : World) type content context goalId :
  quiet (Memory.addMemoryEntry w type content context goalId).
Proof. unfold Memory.addMemoryEntry. quiet_steps. Qed.

Lemma quiet_addGoal (w : World) (goal id : string) : quiet (Memory.addGoal w goal id).
Proof. unfold Memory.addGoal. quiet_steps. Qed.

Lemma quiet_updateGoalStatus (w : World) (goalId : string) (status : GoalStatus.t) :
  quiet (Memory.updateGoalStatus w goalId status).
Proof. unfold Memory.updateGoalStatus. quiet_steps. Qed.

Lemma quiet_formatMemoryForPrompt (w : World) (goalId : option string) :
  quiet (Memory.formatMemoryForPrompt w goalId).
Proof. unfold Memory.formatMemoryForPrompt, Memory.getRecentMemory. quiet_steps. Qed.

#[local] Hint Resolve quiet_addMemoryEntry quiet_addGoal quiet_updateGoalStatus
  quiet_formatMemoryForPrompt : quiet.

(** The fields of the state object that decide the course of the loop. *)
Record View : Type := mkView {
  v_statuses : list TaskStatus.t;
  v_status : RunStatus.t;
  v_steps : Z;
  v_maxSteps : Z }.

Definition view (a : AgentState.t) : View :=
  mkView (statuses a) (AgentState.status a) (AgentState.stepsExecuted a) (AgentState.maxSteps a).

Definition with_statuses (l : list TaskStatus.t) (v : View) : View :=
  mkView l (v_status v) (v_steps v) (v_maxSteps v).
Definition with_status (x : RunStatus.t) (v : View) : View :=
  mkView (v_statuses v) x (v_steps v) (v_maxSteps v).
Definition with_steps (k : Z) (v : View) : View :=
  mkView (v_statuses v) (v_status v) k (v_maxSteps v).

(** From a state seen as [v], the program ends with a value and a view
    in [Q], or throws with a view in [E]; it does not run out of fuel. *)
Definition wp {A} (m : IO A) (v : View) (Q : A → View → Prop) (E : string → View → Prop)
    : Prop :=
  ∀ s, view (agent s) = v →
    match m s with
    | (Ok a, s') => Q a (view (agent s'))
    | (Throw e, s') => E e (view (agent s'))
    | (Diverge, _) => False
    end.

(** The program never throws. *)
Definition never : string → View → Prop := λ _ _, False.

Lemma wp_ret {A} (a : A) v (Q : A → View → Prop) E : Q a v → wp (mret a) v Q E.
Proof. intros HQ s <-. exact HQ. Qed.

Lemma wp_throw {A} (e : string) v (Q : A → View → Prop) (E : string → View → Prop) :
  E e v → wp (throw e) v Q E.
Proof. intros HE s <-. exact HE. Qed.

Lemma wp_bind {A B} (m : IO A) (k : A → IO B) v (Q : B → View → Prop) E :
  wp m v (λ a v', wp (k a) v' Q E) E → wp (m ≫= k) v Q E.
Proof.
  intros Hm s Hv. specialize (Hm s Hv). rewrite bind_unfold.
  destruct (m s) as [[a | e |] s1]; [| exact Hm | exact Hm].
  exact (Hm s1 eq_refl).
Qed.

Lemma wp_mono {A} (m : IO A) v (Q Q' : A → View → Prop) (E E' : string → View → Prop) :
  wp m v Q E → (∀ a v', Q a v' → Q' a v') → (∀ e v', E e v' → E' e v') → wp m v Q' E'.
Proof.
  intros Hm HQ HE s Hv. specialize (Hm s Hv).
  destruct (m s) as [[a | e |] s1]; [apply HQ | apply HE |]; exact Hm.
Qed.

Lemma wp_try_catch {A} (m : IO A) (handler : string → IO A) v (Q : A → View → Prop) E :
  wp m v Q (λ e v', wp (handler e) v' Q E) → wp (try_catch m handler) v Q E.
Proof.
  intros Hm s Hv. specialize (Hm s Hv). unfold try_catch.
  destruct (m s) as [[a | e |] s1]; [exact Hm | | exact Hm].
  exact (Hm s1 eq_refl).
Qed.

Lemma wp_try_bind {A B} (m : IO A) (k : A → IO B) (handler : string → IO B) v
    (Q : B → View → Prop) E :
  wp m v (λ a v', wp (k a) v' Q E) (λ e v', wp (handler e) v' Q E) →
  wp (try_bind m k handler) v Q E.
Proof.
  intros Hm s Hv. specialize (Hm s Hv). unfold try_bind.
  destruct (m s) as [[a | e |] s1]; [| | exact Hm]; exact (Hm s1 eq_refl).
Qed.

Lemma wp_quiet {A} (m : IO A) v (Q : A → View → Prop) E :
  quiet m → (∀ a, Q a v) → wp m v Q E.
Proof.
  intros Hm HQ s <-. destruct (Hm s) as (a & s' & -> & ->). apply HQ.
Qed.

Lemma wp_update_agent (f : AgentState.t → AgentState.t) v (Q : unit → View → Prop) E :
  (∀ a, view a = v → Q () (view (f a))) → wp (Engine.update_agent f) v Q E.
Proof. intros HQ s Hv. cbn. apply HQ, Hv. Qed.

Lemma wp_gets_agent v (Q : AgentState.t → View → Prop) E :
  (∀ a, view a = v → Q a v) → wp (gets agent) v Q E.
Proof. intros HQ s Hv. cbn. rewrite Hv. apply HQ, Hv. Qed.

Lemma wp_set_agent (a : AgentState.t) v (Q : unit → View → Prop) E :
  Q () (view a) → wp (modify (set_agent a)) v Q E.
Proof. intros HQ s _. exact HQ. Qed.

Lemma wp_set_status (x : RunStatus.t) v (Q : unit → View → Prop) E :
  Q () (with_status x v) → wp (Engine.update_agent (AgentState.set_status x)) v Q E.
Proof. intros HQ. apply wp_update_agent. intros a <-. exact HQ. Qed.

Lemma wp_count_step v (Q : unit → View → Prop) E :
  Q () (with_steps (v_steps v + 1) v) →
  wp (Engine.update_agent
        (λ a, AgentState.set_stepsExecuted (AgentState.stepsExecuted a + 1)%Z a)) v Q E.
Proof. intros HQ. apply wp_update_agent. intros a <-. exact HQ. Qed.

Lemma wp_set_currentTask (k : Z) v (Q : unit → View → Prop) E :
  Q () v → wp (Engine.update_agent (AgentState.set_currentTask k)) v Q E.
Proof. intros HQ. apply wp_update_agent. intros a <-. exact HQ. Qed.

Lemma wp_set_tasks (tasks : list Task.t) v (Q : unit → View → Prop) E :
  Q () (with_statuses (Task.status <$> tasks) v) →
  wp (Engine.update_agent (AgentState.set_tasks tasks)) v Q E.
Proof. intros HQ. apply wp_update_agent. intros a <-. exact HQ. Qed.

Lemma wp_task_status (i : nat) (x : TaskStatus.t) v (Q : unit → View → Prop) E :
  Q () (with_statuses (<[i := x]> (v_statuses v)) v) →
  wp (Engine.update_task i (Task.set_status x)) v Q E.
Proof.
  intros HQ. apply wp_update_agent. intros a <-.
  unfold view, statuses. cbn [AgentState.tasks AgentState.set_tasks AgentState.status
    AgentState.stepsExecuted AgentState.maxSteps].
  rewrite statuses_alter_status. exact HQ.
Qed.

Lemma wp_task_field (i : nat) (f : Task.t → Task.t) v (Q : unit → View → Prop) E :
  (∀ t, Task.status (f t) = Task.status t) → Q () v →
  wp (Engine.update_task i f) v Q E.
Proof.
  intros Hf HQ. apply wp_update_agent. intros a <-.
  unfold view, statuses. cbn [AgentState.tasks AgentState.set_tasks AgentState.status
    AgentState.stepsExecuted AgentState.maxSteps].
  rewrite statuses_alter_keep by exact Hf. exact HQ.
Qed.

Lemma wp_log (w : World) type message data v (Q : unit → View → Prop) E :
  Q () v → wp (Engine.log w type message data) v Q E.
Proof. intros HQ s <-. exact HQ. Qed.

Lemma wp_get_task (i : nat) (x : TaskStatus.t) v (Q : Task.t → View → Prop) E :
  v_statuses v !! i = Some x →
  (∀ task, Task.status task = x → Q task v) → wp (Engine.get_task i) v Q E.
Proof.
  intros Hi HQ s Hv. unfold Engine.get_task. unfold_monad.
  rewrite <- Hv in Hi. cbn [view v_statuses] in Hi. unfold statuses in Hi.
  rewrite list_lookup_fmap in Hi.
  destruct (AgentState.tasks (agent s) !! i) as [task |]; [| discriminate Hi].
  rewrite Hv. apply HQ. injection Hi as Hi. exact Hi.
Qed.

Lemma wp_callLLM (w : World) (prompt : string) v (Q : string → View → Prop)
    (E : string → View → Prop) :
  (∀ answer, Q answer v) → (∀ e, E e v) → wp (Engine.callLLM w prompt) v Q E.
Proof.
  intros HQ HE s <-. unfold Engine.callLLM.
  destruct (llm w (llm_calls s)); [apply HQ | apply HE].
Qed.

(** One primitive step of a program. *)
Ltac wp_prim :=
  first
    [ apply wp_log
    | apply wp_set_status
    | apply wp_count_step
    | apply wp_set_currentTask
    | apply wp_set_tasks
    | apply wp_task_status
    | apply wp_task_field; [reflexivity |]
    | apply wp_quiet; [solve [auto with quiet] | intros ?]
    | apply wp_throw
    | apply wp_ret ];
  cbv beta.

(** A primitive step followed by the rest of the program. *)
Ltac wp_seq := apply wp_bind; wp_prim.

Lemma wp_executeTaskWithTools (w : World) (task : Task.t) v (Q : string → View → Prop)
    (E : string → View → Prop) :
  (∀ result, Q result v) → (∀ e, E e v) → wp (Engine.executeTaskWithTools w task) v Q E.
Proof.
  intros HQ HE. unfold Engine.executeTaskWithTools.
  apply wp_bind, wp_gets_agent. intros state _. cbv beta.
  do 2 wp_seq.
  match goal with |- wp (match ?o with _ => _ end) _ _ _ => destruct o end.
  - apply wp_throw, HE.
  - apply wp_ret, HQ.
  - apply wp_ret, HQ.
  - do 2 wp_seq. apply wp_ret, HQ.
Qed.

Lemma wp_reflectOnTask (w : World) (task : Task.t) (result : string) v
    (Q : ReflectionResult.t → View → Prop) (E : string → View → Prop) :
  (∀ reflection, Q reflection v) → (∀ e, E e v) →
  wp (Engine.reflectOnTask w task result) v Q E.
Proof.
  intros HQ HE. unfold Engine.reflectOnTask.
  apply wp_bind, wp_gets_agent. intros state _. cbv beta.
  apply wp_bind, wp_callLLM; [| exact HE]. intros response.
  destruct (Engine.match_object response) as [jsonMatch |]; [| apply wp_ret, HQ].
  destruct (JSON_parse w jsonMatch) as [reflection |]; [| apply wp_ret, HQ].
  wp_seq. apply wp_ret, HQ.
Qed.

Section LoopFacts.
Context (w : World) (finalConfig : AgentConfig.t) (stateId : string).

Let R : Z := AgentConfig.maxRetries finalConfig.
Let auto : bool := AgentConfig.autonomousMode finalConfig.

(** What a turn of the retry loop may change besides the status of its
    task: the run may go to [reflecting], and one step may be counted. *)
Definition drift (v v' : View) : Prop :=
  v_maxSteps v' = v_maxSteps v
  ∧ (v_status v' = v_status v ∨ v_status v' = RunStatus.reflecting)
  ∧ (v_steps v ≤ v_steps v' ≤ v_steps v + 1)%Z.

Definition settled (x : TaskStatus.t) : Prop :=
  x = TaskStatus.done ∨ x = TaskStatus.failed.

(** After a turn of the retry loop on task [i]. *)
Definition attempt_post (i : nat) (retries : Z) (v : View) (step : Engine.Step) (v' : View)
    : Prop :=
  drift v v'
  ∧ match step with
    | Engine.Break _ => ∃ x, settled x ∧ v_statuses v' = <[i := x]> (v_statuses v)
    | Engine.Continue retries' _ =>
        retries' = (retries + 1)%Z
        ∧ v_statuses v' = if (R <? retries')%Z
                          then <[i := TaskStatus.failed]> (v_statuses v)
                          else v_statuses v
    end.

Lemma on_error_spec (i : nat) (task : Task.t) (retries : Z) (result e : string) (v0 v : View) :
  drift v0 v → v_statuses v = v_statuses v0 →
  wp (Engine.on_error w finalConfig i task retries result e) v (attempt_post i retries v0) never.
Proof.
  intros Hdrift Hsame. unfold Engine.on_error. wp_seq.
  apply wp_bind. unfold when. fold R.
  destruct (R <? retries + 1)%Z eqn:Hexhausted.
  - wp_seq. wp_prim. apply wp_ret. split; [exact Hdrift |].
    split; [reflexivity |]. fold R. rewrite Hexhausted. cbn. rewrite Hsame. reflexivity.
  - wp_prim. apply wp_ret. split; [exact Hdrift |].
    split; [reflexivity |]. fold R. rewrite Hexhausted. exact Hsame.
Qed.

Lemma after_execute_spec (i : nat) (task : Task.t) (retries : Z) (result : string) (v : View) :
  wp (Engine.after_execute w finalConfig i task retries result) v
     (attempt_post i retries v)
     (λ _ v', drift v v' ∧ v_statuses v' = v_statuses v).
Proof.
  unfold Engine.after_execute. do 3 wp_seq.
  destruct (AgentConfig.reflectionEnabled finalConfig).
  - do 2 wp_seq. apply wp_bind, wp_reflectOnTask.
    + intros reflection. do 3 wp_seq. fold R.
      destruct (ReflectionResult.shouldRetry reflection && (retries <? R)%Z) eqn:Hretry.
      * wp_seq. apply wp_ret. split.
        { repeat split; cbn; auto; lia. }
        split; [reflexivity |].
        apply andb_true_iff in Hretry as [_ Hlt]. apply Z.ltb_lt in Hlt.
        destruct (Z.ltb_spec R (retries + 1)) as [| _]; [lia | reflexivity].
      * wp_seq. apply wp_ret. split.
        { repeat split; cbn; auto; lia. }
        eexists. split; [| reflexivity].
        destruct (ReflectionResult.success reflection); [left | right]; reflexivity.
    + intros e. split; [| reflexivity]. repeat split; cbn; auto; lia.
  - wp_seq. apply wp_ret. split.
    { repeat split; cbn; auto; lia. }
    exists TaskStatus.done. split; [left; reflexivity | reflexivity].
Qed.

Lemma attempt_spec (i : nat) (task : Task.t) (retries : Z) (result : string) (v : View) :
  wp (Engine.attempt w finalConfig i task retries result) v (attempt_post i retries v) never.
Proof.
  unfold Engine.attempt. apply wp_try_bind, wp_executeTaskWithTools.
  - intros result'. apply wp_try_catch.
    eapply wp_mono; [apply after_execute_spec | auto |].
    intros e v' [Hdrift Hsame]. apply on_error_spec; assumption.
  - intros e. apply on_error_spec; [| reflexivity].
    repeat split; auto; lia.
Qed.

(** After the retry loop on task [i], entered with [retries]. *)
Definition retry_post (i : nat) (retries : Z) (v : View) (v' : View) : Prop :=
  v_maxSteps v' = v_maxSteps v
  ∧ (v_status v' = v_status v ∨ v_status v' = RunStatus.reflecting)
  ∧ (v_steps v ≤ v_steps v' ≤ v_steps v + Z.max 0 (R + 1 - retries))%Z
  ∧ if (retries <=? R)%Z
    then ∃ x, settled x ∧ v_statuses v' = <[i := x]> (v_statuses v)
    else v_statuses v' = v_statuses v.

(** The retry loop ends within the fuel [runAgent] gives it. *)
Lemma retry_loop_spec (i : nat) (task : Task.t) (fuel : nat) :
  ∀ (retries : Z) (result : string) (v : View),
  Z.to_nat (R + 1 - retries) ≤ fuel →
  wp (Engine.retry_loop w finalConfig fuel i task retries result) v
     (λ _ v', retry_post i retries v v') never.
Proof.
  induction fuel as [| fuel IH]; intros retries result v Hfuel.
  - cbn [Engine.retry_loop]. fold R.
    destruct (Z.leb_spec retries R) as [Hle | Hgt]; [lia |].
    apply wp_ret. unfold retry_post.
    destruct (Z.leb_spec retries R) as [| _]; [lia |]. repeat split; auto; lia.
  - cbn [Engine.retry_loop]. fold R.
    destruct (Z.leb_spec retries R) as [Hle | Hgt].
    + apply wp_bind. eapply wp_mono; [apply attempt_spec | | auto].
      intros step v1 [(Hmax & Hstatus & Hsteps) Hstep].
      destruct step as [retries' result' | result'].
      * destruct Hstep as [-> Hstatuses].
        eapply wp_mono; [apply (IH (retries + 1)%Z result' v1); lia | | auto].
        intros _ v2 (Hmax2 & Hstatus2 & Hsteps2 & Hpost). unfold retry_post.
        destruct (Z.leb_spec retries R) as [_ |]; [| lia].
        split; [congruence |]. split; [destruct Hstatus2; [rewrite H; exact Hstatus | auto] |].
        split; [lia |].
        destruct (Z.leb_spec (retries + 1) R) as [Hmore | Hlast].
        -- destruct (Z.ltb_spec R (retries + 1)) as [| _]; [lia |].
           rewrite Hstatuses in Hpost. exact Hpost.
        -- destruct (Z.ltb_spec R (retries + 1)) as [_ |]; [| lia].
           exists TaskStatus.failed. split; [right; reflexivity |]. congruence.
      * apply wp_ret. unfold retry_post.
        destruct (Z.leb_spec retries R) as [_ |]; [| lia].
        split; [exact Hmax |]. split; [exact Hstatus |]. split; [lia | exact Hstep].
    + apply wp_ret. unfold retry_post.
      destruct (Z.leb_spec retries R) as [| _]; [lia |]. repeat split; auto; lia.
Qed.

(** After the body of the loop over the tasks, on task [i]: the budget
    was used up and the run is paused, or the task was run. *)
Definition task_post (i : nat) (v : View) (stop : bool) (v' : View) : Prop :=
  v_maxSteps v' = v_maxSteps v
  ∧ (((v_maxSteps v ≤ v_steps v)%Z ∧ stop = true ∧ v' = with_status RunStatus.paused v)
     ∨ ((v_steps v < v_maxSteps v)%Z
        ∧ (v_steps v ≤ v_steps v' ≤ v_steps v + Z.max 0 (R + 1))%Z
        ∧ ∃ x, v_statuses v' = <[i := x]> (v_statuses v)
            ∧ (if (0 <=? R)%Z then settled x else x = TaskStatus.running)
            ∧ stop = bool_decide (x = TaskStatus.failed) && negb auto
            ∧ (if stop then v_status v' = RunStatus.failed
               else v_status v' = RunStatus.executing
                    ∨ v_status v' = RunStatus.reflecting))).

Lemma run_task_spec (i : nat) (v : View) :
  i < length (v_statuses v) →
  wp (Engine.run_task w finalConfig stateId i) v (task_post i v) never.
Proof.
  intros Hi. unfold Engine.run_task.
  apply wp_bind, wp_gets_agent. intros state Hstate. cbv beta.
  replace (AgentState.maxSteps state) with (v_maxSteps v) by (rewrite <- Hstate; reflexivity).
  replace (AgentState.stepsExecuted state) with (v_steps v) by (rewrite <- Hstate; reflexivity).
  destruct (Z.leb_spec (v_maxSteps v) (v_steps v)) as [Hspent | Hleft].
  { do 2 wp_seq. apply wp_ret. split; [reflexivity |]. left. auto. }
  destruct (lookup_lt_is_Some_2 _ _ Hi) as [x0 Hx0].
  wp_seq.
  apply wp_bind, (wp_get_task i x0); [exact Hx0 |]. intros task _. cbv beta.
  do 6 wp_seq.
  apply wp_bind. eapply wp_mono; [apply retry_loop_spec; unfold Engine.retry_fuel; lia | | auto].
  intros result v2 (Hmax & Hstatus & Hsteps & Hpost). cbv beta.
  cbn [v_maxSteps v_status v_steps v_statuses with_status with_statuses] in Hmax, Hstatus,
    Hsteps, Hpost.
  replace (R + 1 - 0)%Z with (R + 1)%Z in Hsteps by lia.
  assert (Hx : ∃ x, v_statuses v2 = <[i := x]> (v_statuses v)
                 ∧ (if (0 <=? R)%Z then settled x else x = TaskStatus.running)).
  { fold R. destruct (0 <=? R)%Z.
    - destruct Hpost as (x & Hx & ->). exists x. rewrite list_insert_insert_eq. auto.
    - exists TaskStatus.running. auto. }
  destruct Hx as (x & Hstatuses & Hx).
  do 5 wp_seq.
  apply wp_bind, (wp_get_task i x).
  { rewrite Hstatuses. apply list_lookup_insert_eq, Hi. }
  intros task' Htask'. cbv beta. rewrite Htask'. fold auto.
  destruct (bool_decide (x = TaskStatus.failed) && negb auto) eqn:Hstop.
  - do 2 wp_seq. apply wp_ret. split; [exact Hmax |]. right.
    split; [exact Hleft |]. split; [exact Hsteps |].
    exists x. split; [exact Hstatuses |]. split; [exact Hx |]. split; [auto | reflexivity].
  - apply wp_ret. split; [exact Hmax |]. right.
    split; [exact Hleft |]. split; [exact Hsteps |].
    exists x. split; [exact Hstatuses |]. split; [exact Hx |]. split; [auto |].
    destruct Hstatus as [-> | ->]; auto.
Qed.

(** *** The loop over the tasks *)

(** A task the loop has gone past: it is done, or it failed in a run that
    goes on after a failure, or the retry budget was negative and the task
    was never attempted. *)
Definition passed (x : TaskStatus.t) : Prop :=
  x = TaskStatus.done
  ∨ (auto = true ∧ x = TaskStatus.failed)
  ∨ ((R < 0)%Z ∧ x = TaskStatus.running).

(** Of [n] tasks, the first [k] are passed and the others still
    pending. *)
Definition progress (n k : nat) (l : list TaskStatus.t) : Prop :=
  length l = n
  ∧ (∀ j x, j < k → l !! j = Some x → passed x)
  ∧ (∀ j, k ≤ j → j < n → l !! j = Some TaskStatus.pending).

(** Task [k] of [n] failed, the tasks before it are done and the tasks
    after it still pending. *)
Definition halted (n k : nat) (l : list TaskStatus.t) : Prop :=
  length l = n
  ∧ l !! k = Some TaskStatus.failed
  ∧ (∀ j, j < k → l !! j = Some TaskStatus.done)
  ∧ (∀ j, k < j → j < n → l !! j = Some TaskStatus.pending).

(** The steps counted stay within the budget [M] plus the retries of one
    task. *)
Definition within_budget (M : Z) (v : View) : Prop :=
  (0 ≤ v_steps v)%Z ∧ (v_steps v = 0 ∨ v_steps v ≤ M + R)%Z.

Definition running_status (x : RunStatus.t) : Prop :=
  x = RunStatus.planning ∨ x = RunStatus.executing ∨ x = RunStatus.reflecting.

Definition loop_inv (n : nat) (M : Z) (k : nat) (v : View) : Prop :=
  progress n k (v_statuses v) ∧ v_maxSteps v = M ∧ within_budget M v
  ∧ running_status (v_status v).

(** When the loop is left: it went through its tasks or paused, or it
    halted at a failed task of a run that is not autonomous. *)
Definition loop_post (n : nat) (M : Z) (v : View) : Prop :=
  v_maxSteps v = M
  ∧ ((∃ k, progress n k (v_statuses v)
        ∧ ((v_status v = RunStatus.paused ∧ (M ≤ v_steps v)%Z ∧ within_budget M v)
           ∨ running_status (v_status v)))
     ∨ (auto = false ∧ v_status v = RunStatus.failed ∧ ∃ k, halted n k (v_statuses v))).

Lemma for_tasks_spec (n : nat) (M : Z) (m : nat) :
  ∀ (k : nat) (v : View), k + m = n → loop_inv n M k v →
  wp (Engine.for_tasks w finalConfig stateId (seq k m)) v (λ _ v', loop_post n M v') never.
Proof.
  induction m as [| m IH]; intros k v Hk (Hprog & Hmax & Hbudget & Hstatus).
  { apply wp_ret. split; [exact Hmax |]. left. exists k. auto. }
  cbn [seq Engine.for_tasks]. destruct Hprog as (Hlen & Hbefore & Hafter).
  apply wp_bind. eapply wp_mono; [apply run_task_spec; lia | | auto].
  intros stop v1 (Hmax1 & [(Hspent & -> & ->) | (Hleft & Hsteps & x & Hl & Hx & Hstop & Hst)]).
  { apply wp_ret. split; [exact Hmax |]. left. exists k.
    split; [split; [exact Hlen | split; assumption] |].
    left. split; [reflexivity |]. split; [cbn; lia | exact Hbudget]. }
  cbv beta. fold R in Hsteps.
  assert (Hbefore1 : ∀ j, j < k → v_statuses v1 !! j = v_statuses v !! j).
  { intros j Hj. rewrite Hl. apply list_lookup_insert_ne. lia. }
  assert (Hafter1 : ∀ j, k < j → j < n → v_statuses v1 !! j = Some TaskStatus.pending).
  { intros j Hj Hn. rewrite Hl, list_lookup_insert_ne by lia. apply Hafter; lia. }
  assert (Hat : v_statuses v1 !! k = Some x).
  { rewrite Hl. apply list_lookup_insert_eq. lia. }
  assert (Hlen1 : length (v_statuses v1) = n).
  { rewrite Hl, length_insert. exact Hlen. }
  destruct stop.
  - symmetry in Hstop. apply andb_true_iff in Hstop as [Hfailed Hauto].
    apply bool_decide_eq_true in Hfailed. apply negb_true_iff in Hauto. subst x.
    apply wp_ret. split; [congruence |]. right.
    split; [exact Hauto |]. split; [exact Hst |]. exists k.
    split; [exact Hlen1 |]. split; [exact Hat |]. split; [| exact Hafter1].
    intros j Hj. rewrite (Hbefore1 j Hj).
    destruct (lookup_lt_is_Some_2 (v_statuses v) j) as [y Hy]; [lia |].
    rewrite Hy. f_equal.
    destruct (Hbefore j y Hj Hy) as [-> | [[Hyes _] | [Hneg _]]]; [reflexivity | congruence |].
    destruct (Z.leb_spec 0 R) as [| _]; [lia | discriminate Hx].
  - apply (IH (S k) v1); [lia |].
    split; [| split; [congruence | split]].
    + split; [exact Hlen1 |]. split.
      * intros j y Hj Hy. destruct (decide (j = k)) as [-> | Hne].
        -- rewrite Hat in Hy. injection Hy as <-.
           destruct (Z.leb_spec 0 R) as [Hpos | Hneg].
           ++ destruct Hx as [-> | ->]; [left; reflexivity |].
              right; left. split; [| reflexivity].
              symmetry in Hstop. rewrite bool_decide_eq_true_2 in Hstop by reflexivity.
              destruct auto; [reflexivity | discriminate Hstop].
           ++ right; right. auto.
        -- rewrite Hbefore1 in Hy by lia. apply (Hbefore j y); [lia | exact Hy].
      * intros j Hj Hn. apply Hafter1; lia.
    + destruct Hbudget as [Hnonneg Hbound]. split; [lia |].
      destruct (Z.leb_spec 0 R) as [Hpos | Hneg].
      * right. rewrite <- Hmax. lia.
      * destruct Hbound as [Hzero | Hbound]; [left | right]; lia.
    + destruct Hst as [-> | ->]; unfold running_status; auto.
Qed.

End LoopFacts.

Lemma all_done (l : list Task.t) (j : nat) (x : TaskStatus.t) :
  forallb (λ t, bool_decide (Task.status t = TaskStatus.done)) l = true →
  (Task.status <$> l) !! j = Some x → x = TaskStatus.done.
Proof.
  intros Hall Hj. rewrite list_lookup_fmap in Hj.
  destruct (l !! j) as [t |] eqn:Ht; [| discriminate Hj]. injection Hj as <-.
  rewrite forallb_forall in Hall. apply list_elem_of_lookup_2, list_elem_of_In in Ht.
  eapply bool_decide_eq_true_1, Hall, Ht.
Qed.

Lemma none_failed (l : list Task.t) (j : nat) :
  existsb (λ t, bool_decide (Task.status t = TaskStatus.failed)) l = false →
  (Task.status <$> l) !! j ≠ Some TaskStatus.failed.
Proof.
  intros Hnone Hj. rewrite list_lookup_fmap in Hj.
  destruct (l !! j) as [t |] eqn:Ht; [| discriminate Hj]. injection Hj as Hfailed.
  apply list_elem_of_lookup_2, list_elem_of_In in Ht.
  assert (Hsome : existsb (λ t, bool_decide (Task.status t = TaskStatus.failed)) l = true).
  { apply existsb_exists. exists t. split; [exact Ht |]. apply bool_decide_eq_true_2, Hfailed. }
  congruence.
Qed.

Lemma parse_plan_pending (plan : string) (j : nat) (x : TaskStatus.t) :
  (Task.status <$> Engine.parse_plan plan) !! j = Some x → x = TaskStatus.pending.
Proof.
  unfold Engine.parse_plan. rewrite list_lookup_fmap, list_lookup_imap.
  destruct (_ !! j); [| discriminate]. cbn. intros [= <-]. reflexivity.
Qed.

Section RunFacts.
Context (w : World) (finalConfig : AgentConfig.t) (stateId : string).

Let R : Z := AgentConfig.maxRetries finalConfig.
Let auto : bool := AgentConfig.autonomousMode finalConfig.

(** What holds of a run when it returns: a paused run has used up its
    budget [M], by no more than the retries of one task; and in a run that
    is not autonomous, a failed task is the one the loop halted at. *)
Definition outcome (M : Z) (v : View) : Prop :=
  v_maxSteps v = M
  ∧ (v_status v = RunStatus.paused → (M ≤ v_steps v)%Z ∧ within_budget finalConfig M v)
  ∧ (auto = false → ∀ i, v_statuses v !! i = Some TaskStatus.failed →
       v_status v = RunStatus.failed
       ∧ halted (length (v_statuses v)) i (v_statuses v)).

Lemma progress_not_failed (n k i : nat) (l : list TaskStatus.t) :
  auto = false → progress finalConfig n k l → l !! i ≠ Some TaskStatus.failed.
Proof.
  intros Hauto (Hlen & Hbefore & Hafter) Hi.
  pose proof (lookup_lt_Some _ _ _ Hi) as Hlt.
  destruct (decide (i < k)) as [Hik | Hik].
  - destruct (Hbefore i _ Hik Hi) as [Hd | [[Hyes _] | [_ Hr]]];
      [discriminate Hd | fold auto in Hyes; congruence | discriminate Hr].
  - rewrite Hafter in Hi by lia. discriminate Hi.
Qed.

Lemma halted_unique (n k i : nat) (l : list TaskStatus.t) :
  halted n k l → l !! i = Some TaskStatus.failed → i = k.
Proof.
  intros (Hlen & Hk & Hbefore & Hafter) Hi.
  pose proof (lookup_lt_Some _ _ _ Hi) as Hlt.
  destruct (lt_eq_lt_dec i k) as [[Hlt' | ->] | Hgt]; [| reflexivity |].
  - rewrite Hbefore in Hi by exact Hlt'. discriminate Hi.
  - rewrite Hafter in Hi by lia. discriminate Hi.
Qed.

Lemma conclude_spec (n : nat) (M : Z) (v : View) :
  loop_post finalConfig n M v →
  wp (Engine.conclude w stateId) v (λ _ v', outcome M v') never.
Proof.
  intros (Hmax & Hpost). unfold Engine.conclude.
  apply wp_bind, wp_gets_agent. intros state Hstate. cbv beta zeta.
  assert (Hl : Task.status <$> AgentState.tasks state = v_statuses v)
    by (rewrite <- Hstate; reflexivity).
  destruct (forallb _ (AgentState.tasks state)) eqn:Hall.
  { do 2 wp_seq. wp_prim. split; [exact Hmax |]. split; [discriminate |].
    intros _ i Hi. cbn in Hi. rewrite <- Hl in Hi.
    discriminate (all_done _ _ _ Hall Hi). }
  destruct (existsb _ (AgentState.tasks state)) eqn:Hany.
  - do 2 wp_seq. wp_prim. split; [exact Hmax |]. split; [discriminate |].
    intros Hauto i Hi. cbn in Hi |- *. split; [reflexivity |].
    destruct Hpost as [(k & Hprog & _) | (_ & _ & k & Hhalt)].
    + destruct (progress_not_failed _ _ i _ Hauto Hprog Hi).
    + rewrite (halted_unique _ _ _ _ Hhalt Hi). destruct Hhalt as (Hn & Hrest).
      unfold halted. rewrite Hn. split; [reflexivity | exact Hrest].
  - apply wp_ret. split; [exact Hmax |]. split.
    + intros Hpaused.
      destruct Hpost as [(k & _ & [(_ & Hspent & Hbudget) | Hrun]) | (_ & Hfailed & _)].
      * split; assumption.
      * rewrite Hpaused in Hrun. destruct Hrun as [| [|]]; discriminate.
      * congruence.
    + intros _ i Hi. rewrite <- Hl in Hi. destruct (none_failed _ _ Hany Hi).
Qed.

(** The view of the state object [runAgent] creates. *)
Definition initial_view (M : Z) : View := mkView [] RunStatus.planning 0 M.

Lemma plan_and_run_spec (goal : string) (M : Z) :
  wp (Engine.plan_and_run w finalConfig stateId goal) (initial_view M)
     (λ _ v', outcome M v') (λ _ v', v' = initial_view M).
Proof.
  unfold Engine.plan_and_run. wp_seq.
  apply wp_bind. unfold Engine.planTasks. apply wp_bind, wp_callLLM; [| reflexivity].
  intros plan. apply wp_ret. cbv beta zeta.
  do 4 wp_seq.
  apply wp_bind, wp_gets_agent. intros state Hstate. cbv beta.
  set (l := Task.status <$> Engine.parse_plan plan) in *.
  assert (Hlen : length (AgentState.tasks state) = length l).
  { replace l with (v_statuses (view state)) by (rewrite Hstate; reflexivity).
    cbn. unfold statuses. rewrite length_fmap. reflexivity. }
  rewrite Hlen. apply wp_bind.
  eapply wp_mono;
    [apply (for_tasks_spec w finalConfig stateId (length l) M (length l) 0)
    | | intros e v' []].
  - reflexivity.
  - split; [| split; [reflexivity | split]].
    + split; [reflexivity |]. split; [intros j x Hj; lia |].
      intros j _ Hj. cbn [v_statuses with_statuses].
      destruct (lookup_lt_is_Some_2 l j Hj) as [x Hx]. rewrite Hx.
      f_equal. exact (parse_plan_pending plan j x Hx).
    + split; [reflexivity | left; reflexivity].
    + left. reflexivity.
  - intros [] v1 Hpost. cbv beta in Hpost |- *.
    eapply wp_mono; [apply (conclude_spec (length l) M), Hpost | auto | intros e v' []].
Qed.

Lemma on_agent_error_spec (e : string) (M : Z) :
  wp (Engine.on_agent_error w stateId e) (initial_view M) (λ _ v', outcome M v') never.
Proof.
  unfold Engine.on_agent_error. do 2 wp_seq. wp_prim.
  split; [reflexivity |]. split; [discriminate |].
  intros _ i Hi. discriminate Hi.
Qed.

End RunFacts.

(** A run always returns, and its final state is as [outcome] says for
    the budget of its configuration. *)
Lemma runAgent_outcome (w : World) (goal : string) (config : AgentConfig.partial)
    (forcedId : option string) (s : Sys) :
  let finalConfig := AgentConfig.spread Engine.DEFAULT_CONFIG config in
  ∃ final s', Engine.runAgent w goal config forcedId s = (Ok final, s')
    ∧ outcome finalConfig (AgentConfig.maxSteps finalConfig) (view final).
Proof.
  intros finalConfig.
  assert (Hwp : wp (Engine.runAgent w goal config forcedId) (view (agent s))
                  (λ final v', view final = v'
                     ∧ outcome finalConfig (AgentConfig.maxSteps finalConfig) v') never).
  { unfold Engine.runAgent. fold finalConfig. cbv zeta.
    apply wp_bind, wp_quiet; [destruct forcedId; auto with quiet |]. intros stateId. cbv beta.
    do 2 wp_seq. apply wp_bind, wp_set_agent. cbv beta.
    change (view (AgentState.mk _ _ _ _ _ _ _ _ _ _ _))
      with (initial_view (AgentConfig.maxSteps finalConfig)).
    do 5 wp_seq.
    apply wp_bind, wp_try_catch.
    eapply wp_mono; [apply plan_and_run_spec | |].
    - intros [] v1 Hout. cbv beta in Hout |- *. wp_seq. apply wp_gets_agent.
      intros final Hfinal. split; assumption.
    - intros e v1 ->.
      eapply wp_mono; [apply (on_agent_error_spec w finalConfig stateId) | | auto].
      intros [] v2 Hout. cbv beta in Hout |- *. wp_seq. apply wp_gets_agent.
      intros final Hfinal. split; assumption. }
  specialize (Hwp s eq_refl).
  destruct (Engine.runAgent w goal config forcedId s) as [[final | e |] s'];
    [| destruct Hwp | destruct Hwp].
  exists final, s'. split; [reflexivity |]. destruct Hwp as [-> Hout]. exact Hout.
Qed.

(** ** The step budget *)

(** The [try] block of [runAgent] as far as the end of the loop over the
    tasks: [plan_and_run] without the verdict that follows the loop. It
    throws when the planner is rejected. *)
Definition plan_and_loop (w : World) (finalConfig : AgentConfig.t) (stateId goal : string)
    : IO unit :=
  memory ← Memory.formatMemoryForPrompt w None;
  tasks ← Engine.planTasks w goal memory;
  Engine.update_agent (AgentState.set_tasks tasks);;
  let planned := "Planned " +:+ Js.show (Z.of_nat (length tasks)) +:+ " tasks" in
  Engine.log w LogType.info planned None;;
  Memory.addMemoryEntry w MemoryType.decision (planned +:+ " for goal") None (Some stateId);;
  Engine.emit;;
  state ← gets agent;
  Engine.for_tasks w finalConfig stateId (seq 0 (length (AgentState.tasks state))).

(** [runAgent] as far as the end of the loop over the tasks: the state it
    leaves is the state in which the loop is left, by its last turn or by
    a [break], before the verdict is drawn. *)
Definition run_to_loop_end (w : World) (goal : string) (config : AgentConfig.partial)
    (forcedId : option string) : IO unit :=
  let finalConfig := AgentConfig.spread Engine.DEFAULT_CONFIG config in
  stateId ← match forcedId with
            | Some id => mret id
            | None => generateId w
            end;
  createdAt ← now w;
  updatedAt ← now w;
  modify (set_agent
            (AgentState.mk stateId goal [] 0 [] RunStatus.planning 0
                           (AgentConfig.maxSteps finalConfig) createdAt updatedAt
                           (AgentConfig.autonomousMode finalConfig)));;
  Engine.emit;;
  Engine.log w LogType.info ("Starting agent with goal: " +:+ goal) None;;
  Memory.addGoal w goal stateId;;
  Memory.addMemoryEntry w MemoryType.goal goal None (Some stateId);;
  Engine.emit;;
  plan_and_loop w finalConfig stateId goal.

(** The steps counted have reached the budget of the run, and exceed it
    by at most [R]. *)
Definition spent_within (R : Z) (a : AgentState.t) : Prop :=
  (AgentState.maxSteps a ≤ AgentState.stepsExecuted a)%Z
  ∧ (0 ≤ AgentState.stepsExecuted a)%Z
  ∧ (AgentState.stepsExecuted a = 0
     ∨ AgentState.stepsExecuted a ≤ AgentState.maxSteps a + R)%Z.

Lemma bind_assoc_pt {S A B C} (m : State S A) (k : A → State S B) (k' : B → State S C)
    (s : S) :
  ((m ≫= k) ≫= k') s = (m ≫= (λ a, k a ≫= k')) s.
Proof. rewrite !bind_unfold. destruct (m s) as [[a | e |] s1]; reflexivity. Qed.

Lemma bind_cong_pt {S A B} (m : State S A) (k1 k2 : A → State S B) (s : S) :
  (∀ a s', k1 a s' = k2 a s') → (m ≫= k1) s = (m ≫= k2) s.
Proof. intros H. rewrite !bind_unfold. destruct (m s) as [[a | e |] s1]; auto. Qed.

(** [plan_and_run] is [plan_and_loop], then the verdict. *)
Lemma plan_and_run_split (w : World) (finalConfig : AgentConfig.t) (stateId goal : string)
    (s : Sys) :
  Engine.plan_and_run w finalConfig stateId goal s
  = (plan_and_loop w finalConfig stateId goal ≫= λ _, Engine.conclude w stateId) s.
Proof.
  unfold Engine.plan_and_run, plan_and_loop. cbv zeta. symmetry.
  do 7 (rewrite bind_assoc_pt; apply bind_cong_pt; intros ? ?).
  reflexivity.
Qed.

(** The verdict changes neither the count of the steps nor the budget, and
    it does not throw. *)
Lemma conclude_keeps_steps (w : World) (stateId : string) (v : View) :
  wp (Engine.conclude w stateId) v
     (λ _ v', v_steps v' = v_steps v ∧ v_maxSteps v' = v_maxSteps v) never.
Proof.
  unfold Engine.conclude. apply wp_bind, wp_gets_agent. intros state _. cbv beta zeta.
  destruct (forallb _ _); [do 2 wp_seq; wp_prim; split; reflexivity |].
  destruct (existsb _ _); [do 2 wp_seq; wp_prim; split; reflexivity |].
  apply wp_ret. split; reflexivity.
Qed.

(** When the loop over the tasks is left with the status [paused], the
    budget is used up, by no more than the retries of one task. *)
Lemma plan_and_loop_spec (w : World) (finalConfig : AgentConfig.t) (stateId goal : string)
    (M : Z) :
  wp (plan_and_loop w finalConfig stateId goal) (initial_view M)
     (λ _ v', v_maxSteps v' = M
              ∧ (v_status v' = RunStatus.paused →
                 (M ≤ v_steps v')%Z ∧ within_budget finalConfig M v'))
     (λ _ _, True).
Proof.
  unfold plan_and_loop. wp_seq.
  apply wp_bind. unfold Engine.planTasks. apply wp_bind, wp_callLLM; [| intros e; exact I].
  intros plan. apply wp_ret. cbv beta zeta.
  do 4 wp_seq.
  apply wp_bind, wp_gets_agent. intros state Hstate. cbv beta.
  set (l := Task.status <$> Engine.parse_plan plan) in *.
  assert (Hlen : length (AgentState.tasks state) = length l).
  { replace l with (v_statuses (view state)) by (rewrite Hstate; reflexivity).
    cbn. unfold statuses. rewrite length_fmap. reflexivity. }
  rewrite Hlen.
  eapply wp_mono;
    [apply (for_tasks_spec w finalConfig stateId (length l) M (length l) 0)
    | | intros e v' []].
  - reflexivity.
  - split; [| split; [reflexivity | split]].
    + split; [reflexivity |]. split; [intros j x Hj; lia |].
      intros j _ Hj. cbn [v_statuses with_statuses].
      destruct (lookup_lt_is_Some_2 l j Hj) as [x Hx]. rewrite Hx.
      f_equal. exact (parse_plan_pending plan j x Hx).
    + split; [reflexivity | left; reflexivity].
    + left. reflexivity.
  - intros [] v1 (Hmax & Hpost). split; [exact Hmax |]. intros Hpaused.
    destruct Hpost as [(k & _ & [(_ & Hspent & Hbudget) | Hrun]) | (_ & Hfailed & _)].
    + split; assumption.
    + rewrite Hpaused in Hrun. destruct Hrun as [| [|]]; discriminate.
    + congruence.
Qed.

Lemma run_to_loop_end_spec (w : World) (goal : string) (config : AgentConfig.partial)
    (forcedId : option string) (v : View) :
  let finalConfig := AgentConfig.spread Engine.DEFAULT_CONFIG config in
  let M := AgentConfig.maxSteps finalConfig in
  wp (run_to_loop_end w goal config forcedId) v
     (λ _ v', v_maxSteps v' = M
              ∧ (v_status v' = RunStatus.paused →
                 (M ≤ v_steps v')%Z ∧ within_budget finalConfig M v'))
     (λ _ _, True).
Proof.
  intros finalConfig M. unfold run_to_loop_end. fold finalConfig. cbv zeta.
  apply wp_bind, wp_quiet; [destruct forcedId; auto with quiet |]. intros stateId. cbv beta.
  do 2 wp_seq. apply wp_bind, wp_set_agent. cbv beta.
  change (view (AgentState.mk _ _ _ _ _ _ _ _ _ _ _)) with (initial_view M).
  do 5 wp_seq. apply plan_and_loop_spec.
Qed.

(** From the end of the loop, [runAgent] draws the verdict, hands the
    state to the callback and returns it. *)
Lemma runAgent_from_loop_end (w : World) (goal : string) (config : AgentConfig.partial)
    (forcedId : option string) (s mid : Sys) :
  run_to_loop_end w goal config forcedId s = (Ok (), mid) →
  Engine.runAgent w goal config forcedId s
  = (Engine.conclude w (default (random_id w (ids_made s)) forcedId);;
     Engine.emit;; gets agent) mid.
Proof.
  unfold run_to_loop_end, Engine.runAgent. cbv zeta. intros H.
  apply bind_ok_inv in H as (stateId & s1 & Hid & H). rewrite (bind_ok _ _ _ _ _ Hid).
  assert (HstateId : stateId = default (random_id w (ids_made s)) forcedId).
  { destruct forcedId; injection Hid as <- _; reflexivity. }
  do 8 (apply bind_ok_inv in H as (? & ? & Hstep & H); rewrite (bind_ok _ _ _ _ _ Hstep);
        clear Hstep).
  rewrite <- HstateId. rewrite !bind_unfold. unfold try_catch.
  rewrite plan_and_run_split, (bind_ok _ _ _ _ _ H).
  pose proof (conclude_keeps_steps w stateId _ mid eq_refl) as Hnever.
  destruct (Engine.conclude w stateId mid) as [[[] | e |] s']; [reflexivity | | reflexivity].
  destruct Hnever.
Qed.

(** C1, as the code has it. A run always returns. The budget is tested
    only before a task starts, and a task takes up to [maxRetries + 1]
    steps. Whenever the loop over the tasks sets the status [paused],
    that is, whenever it is left with that status, the steps executed have
    reached [maxSteps] and exceed it by at most [maxRetries] (or no step
    was executed at all, when the budget was not positive): so it is in
    the state in which the loop is left and, the verdict after the loop
    leaving the count as it is, in the final state, whether its status is
    still [paused] or has been overwritten with [failed]. The same holds
    of every final state whose status is [paused]. *)
Theorem paused_within_budget_plus_retries (w : World) (goal : string)
    (config : AgentConfig.partial) (forcedId : option string) (s : Sys) :
  let finalConfig := AgentConfig.spread Engine.DEFAULT_CONFIG config in
  let stateId := default (random_id w (ids_made s)) forcedId in
  let R := AgentConfig.maxRetries finalConfig in
  ∃ final s', Engine.runAgent w goal config forcedId s = (Ok final, s')
    ∧ AgentState.maxSteps final = AgentConfig.maxSteps finalConfig
    ∧ (AgentState.status final = RunStatus.paused → spent_within R final)
    ∧ (∀ mid, run_to_loop_end w goal config forcedId s = (Ok (), mid) →
         AgentState.status (agent mid) = RunStatus.paused →
         spent_within R (agent mid)
         ∧ (Engine.conclude w stateId;; Engine.emit;; gets agent) mid = (Ok final, s')
         ∧ AgentState.stepsExecuted final = AgentState.stepsExecuted (agent mid)
         ∧ AgentState.maxSteps final = AgentState.maxSteps (agent mid)
         ∧ spent_within R final).
Proof.
  intros finalConfig stateId R.
  destruct (runAgent_outcome w goal config forcedId s) as (final & s' & Hrun & Hmax & Hpaused & _).
  exists final, s'. split; [exact Hrun |]. cbn in Hmax. split; [exact Hmax |].
  split.
  { intros Hstatus. destruct (Hpaused Hstatus) as (Hspent & Hnonneg & Hbound).
    cbn in Hspent, Hnonneg, Hbound. fold finalConfig in Hspent, Hbound. fold R in Hbound.
    unfold spent_within. rewrite Hmax. split; [exact Hspent |]. split; [exact Hnonneg | exact Hbound]. }
  intros mid Hloop Hmid.
  pose proof (run_to_loop_end_spec w goal config forcedId _ s eq_refl) as Hspec.
  rewrite Hloop in Hspec. cbv zeta in Hspec. fold finalConfig in Hspec.
  destruct Hspec as (HmaxMid & Hbudget).
  destruct (Hbudget Hmid) as (Hspent & Hnonneg & Hbound).
  cbn [view v_maxSteps v_steps v_status] in HmaxMid, Hspent, Hnonneg, Hbound.
  fold R in Hbound.
  assert (HwithinMid : spent_within R (agent mid)).
  { unfold spent_within. rewrite HmaxMid. split; [exact Hspent |]. split; assumption. }
  pose proof (runAgent_from_loop_end w goal config forcedId s mid Hloop) as Hrest.
  fold stateId in Hrest. rewrite Hrun in Hrest. symmetry in Hrest.
  assert (Hkept : AgentState.stepsExecuted final = AgentState.stepsExecuted (agent mid)
                  ∧ AgentState.maxSteps final = AgentState.maxSteps (agent mid)).
  { pose proof (conclude_keeps_steps w stateId _ mid eq_refl) as Hconclude.
    apply bind_ok_inv in Hrest as ([] & s1 & Hc & Hrest). rewrite Hc in Hconclude.
    apply bind_ok_inv in Hrest as ([] & s2 & Hemit & Hrest).
    unfold Engine.emit, modify in Hemit. injection Hemit as <-.
    unfold gets in Hrest. injection Hrest as <- _.
    cbn [agent set_emitted]. exact Hconclude. }
  destruct Hkept as (Hsteps & Hbudget').
  split; [exact HwithinMid |]. split; [exact Hrest |]. split; [exact Hsteps |].
  split; [exact Hbudget' |].
  unfold spent_within in *. rewrite Hsteps, Hbudget'. exact HwithinMid.
Qed.

(** The reflector asks for one retry of the first task. *)
Definition retry_world : World :=
  Demo.world (λ k, match k with
                   | 0 => Completion (Demo.plan 2)
                   | 1 => Completion (Demo.verdict_json true true)
                   | _ => Completion "fine"
                   end)
             (λ _, ExecDirect "r").
Definition one_step : AgentConfig.partial := AgentConfig.mk_partial (Some 1%Z) None None None.

(** C1, as worded, fails: with a budget of one step and two tasks, the
    first task is retried once, and the run pauses before the second task
    with two steps executed. *)
Lemma paused_beyond_budget :
  let (r, _) := Engine.runAgent retry_world "g" one_step None Demo.fresh in
  ∃ final, r = Ok final
    ∧ AgentState.status final = RunStatus.paused
    ∧ AgentState.maxSteps final = 1%Z
    ∧ AgentState.stepsExecuted final = 2%Z
    ∧ ¬ (AgentState.stepsExecuted final ≤ AgentState.maxSteps final)%Z.
Proof.
  vm_compute. eexists. repeat split. intros H. apply H. reflexivity.
Qed.

(** ** The halt of a run that is not autonomous *)

(** C3. In a run that is not autonomous, which always returns, a task
    that ended [failed] is where the loop stopped: the final status is
    [failed], every earlier task is [done] and every later task is still
    [pending]. *)
Theorem non_autonomous_halts_at_failure (w : World) (goal : string)
    (config : AgentConfig.partial) (forcedId : option string) (s : Sys) :
  AgentConfig.autonomousMode (AgentConfig.spread Engine.DEFAULT_CONFIG config) = false →
  ∃ final s', Engine.runAgent w goal config forcedId s = (Ok final, s')
    ∧ ∀ i, statuses final !! i = Some TaskStatus.failed →
        AgentState.status final = RunStatus.failed
        ∧ (∀ j, j < i → statuses final !! j = Some TaskStatus.done)
        ∧ (∀ j, i < j → j < length (AgentState.tasks final) →
             statuses final !! j = Some TaskStatus.pending).
Proof.
  intros Hauto.
  destruct (runAgent_outcome w goal config forcedId s) as (final & s' & Hrun & _ & _ & Hhalt).
  exists final, s'. split; [exact Hrun |]. intros i Hi.
  destruct (Hhalt Hauto i Hi) as (Hstatus & _ & _ & Hbefore & Hafter).
  split; [exact Hstatus |]. split; [exact Hbefore |].
  intros j Hij Hj. apply Hafter; [exact Hij |].
  cbn. unfold statuses. rewrite length_fmap. exact Hj.
Qed.

(** Three tasks, the second of which the reflector judges failed. *)
Definition halting_world : World :=
  Demo.world (λ k, match k with
                   | 0 => Completion (Demo.plan 3)
                   | 1 => Completion (Demo.verdict_json true false)
                   | _ => Completion (Demo.verdict_json false false)
                   end)
             (λ _, ExecDirect "r").
Definition halting_run : Result AgentState.t * Sys :=
  Engine.runAgent halting_world "g" AgentConfig.empty None Demo.fresh.

(** The example of the specification: task 1 done, task 2 failed, task 3
    pending, and the run failed. *)
Lemma non_autonomous_halts_at_failure_example :
  ∃ final s', halting_run = (Ok final, s')
    ∧ statuses final = [TaskStatus.done; TaskStatus.failed; TaskStatus.pending]
    ∧ AgentState.status final = RunStatus.failed
    ∧ statuses final !! 0 = Some TaskStatus.done
    ∧ statuses final !! 2 = Some TaskStatus.pending.
Proof.
  unfold halting_run.
  destruct (non_autonomous_halts_at_failure halting_world "g" AgentConfig.empty None Demo.fresh)
    as (final & s' & Hrun & Hhalt).
  { reflexivity. }
  exists final, s'. split; [exact Hrun |].
  assert (Hstatuses : statuses final
                        = [TaskStatus.done; TaskStatus.failed; TaskStatus.pending]).
  { assert (Hfinal : match halting_run.1 with Ok f => f | _ => Demo.blank end = final).
    { unfold halting_run. rewrite Hrun. reflexivity. }
    rewrite <- Hfinal. vm_compute. reflexivity. }
  split; [exact Hstatuses |].
  destruct (Hhalt 1) as (Hstatus & Hbefore & Hafter).
  { rewrite Hstatuses. reflexivity. }
  split; [exact Hstatus |]. split.
  - apply Hbefore. lia.
  - apply Hafter; [lia |].
    rewrite <- (length_fmap Task.status). fold (statuses final). rewrite Hstatuses. cbn. lia.
Defined.

(** The reflector judges every attempt failed and asks for another one:
    the first of two tasks takes its four attempts, and fails. *)
Definition dogged_world : World :=
  Demo.world (λ k, match k with
                   | 0 => Completion (Demo.plan 2)
                   | _ => Completion (Demo.verdict_json false true)
                   end)
             (λ _, ExecDirect "r").
Definition one_step_on : AgentConfig.partial :=
  AgentConfig.mk_partial (Some 1%Z) None (Some true) None.

(** An autonomous run with a budget of one step, whose first task fails
    after four steps: the loop goes on to the second task and pauses
    there, and the verdict overwrites the status with [failed]. The four
    steps, within the bound of one plus three, are those of the state in
    which the loop was left and of the final state. *)
Lemma paused_within_budget_plus_retries_example :
  ∃ final s' mid,
    Engine.runAgent dogged_world "g" one_step_on None Demo.fresh = (Ok final, s')
    ∧ run_to_loop_end dogged_world "g" one_step_on None Demo.fresh = (Ok (), mid)
    ∧ AgentState.status (agent mid) = RunStatus.paused
    ∧ AgentState.status final = RunStatus.failed
    ∧ AgentState.stepsExecuted (agent mid) = 4%Z
    ∧ AgentState.stepsExecuted final = 4%Z
    ∧ (1 ≤ AgentState.stepsExecuted final ≤ 1 + 3)%Z.
Proof.
  destruct (paused_within_budget_plus_retries dogged_world "g" one_step_on None Demo.fresh)
    as (final & s' & Hrun & Hmax & _ & Hmid).
  set (mid := (run_to_loop_end dogged_world "g" one_step_on None Demo.fresh).2).
  assert (Hloop : run_to_loop_end dogged_world "g" one_step_on None Demo.fresh = (Ok (), mid))
    by (vm_compute; reflexivity).
  destruct (Hmid mid Hloop) as (_ & Hrest & Hsteps & _ & Hwithin).
  { vm_compute. reflexivity. }
  assert (Hfinal : final = match Engine.runAgent dogged_world "g" one_step_on None Demo.fresh
                           with (Ok f, _) => f | _ => Demo.blank end)
    by (rewrite Hrun; reflexivity).
  assert (Hfour : AgentState.stepsExecuted (agent mid) = 4%Z) by (vm_compute; reflexivity).
  exists final, s', mid. split; [exact Hrun |]. split; [exact Hloop |].
  split; [vm_compute; reflexivity |].
  split; [rewrite Hfinal; vm_compute; reflexivity |].
  split; [exact Hfour |]. split; [rewrite Hsteps; exact Hfour |].
  rewrite Hsteps, Hfour. lia.
Defined.

(** * Further properties of the code *)

(** ** The ledger: reads *)

(** The identifiers of the goal table, in order. *)
Definition goal_ids (s : Sys) : list string := GoalRecord.id <$> goal_table s.

(** [getRecentMemory]: a positive limit gives the newest entries of the
    journal (of the goal, when one is given), at most [limit] of them and
    oldest first; the limit 0 gives all of them, as [slice(-0)] is
    [slice(0)]. Reading leaves the journal as it was. *)
Theorem recent_memory_by_limit (w : World) (limit : Z) (goalId : option string) (s : Sys) :
  ∃ recent s', Memory.getRecentMemory w limit goalId s = (Ok recent, s')
    ∧ ((0 < limit)%Z → recent = newest (Z.to_nat limit) (selected goalId s)
                        ∧ (Z.of_nat (length recent) ≤ limit)%Z)
    ∧ (limit = 0%Z → recent = selected goalId s)
    ∧ journal s' = journal s.
Proof.
  destruct (loadMemory_journal w s) as (memory & s' & Hload & Hentries & _ & Hfile & _).
  eexists _, s'. split.
  { unfold Memory.getRecentMemory. rewrite (bind_ok _ _ _ _ _ Hload). reflexivity. }
  cbv zeta. rewrite Hentries. fold (selected goalId s).
  split; [| split].
  - intros Hpos.
    assert (Hcut : Js.slice_from (- limit) (selected goalId s)
                   = newest (Z.to_nat limit) (selected goalId s)).
    { rewrite <- (slice_from_neg_newest (Z.to_nat limit)) by lia.
      rewrite Z2Nat.id by lia. reflexivity. }
    rewrite Hcut. split; [reflexivity |]. rewrite length_newest. lia.
  - intros ->. reflexivity.
  - unfold journal. rewrite Hfile. reflexivity.
Qed.

Lemma recent_memory_by_limit_example :
  ∃ recent s', Memory.getRecentMemory quiet_world 1 None two_notes = (Ok recent, s')
    ∧ recent = newest 1 (selected None two_notes)
    ∧ (Z.of_nat (length recent) ≤ 1)%Z.
Proof.
  destruct (recent_memory_by_limit quiet_world 1 None two_notes)
    as (recent & s' & Hrun & Hpos & _ & _).
  exists recent, s'. split; [exact Hrun |]. apply Hpos. lia.
Defined.

(** ** The ledger: the goal table *)

Lemma list_find_first_id (goalId : string) (before after : list GoalRecord.t) (g : GoalRecord.t) :
  GoalRecord.id g = goalId → goalId ∉ GoalRecord.id <$> before →
  list_find (λ r, GoalRecord.id r = goalId) (before ++ g :: after) = Some (length before, g).
Proof.
  intros Hg. induction before as [| b before IH]; intros Hnotin; cbn.
  - rewrite decide_True by exact Hg. reflexivity.
  - rewrite fmap_cons, not_elem_of_cons in Hnotin. destruct Hnotin as [Hb Hrest].
    rewrite decide_False by (intros Heq; apply Hb; symmetry; exact Heq).
    rewrite (IH Hrest). reflexivity.
Qed.

Lemma list_find_no_id (goalId : string) (l : list GoalRecord.t) :
  goalId ∉ GoalRecord.id <$> l → list_find (λ r, GoalRecord.id r = goalId) l = None.
Proof.
  induction l as [| b l IH]; intros Hnotin; cbn; [reflexivity |].
  rewrite fmap_cons, not_elem_of_cons in Hnotin. destruct Hnotin as [Hb Hrest].
  rewrite decide_False by (intros Heq; apply Hb; symmetry; exact Heq).
  rewrite (IH Hrest). reflexivity.
Qed.

Lemma insert_after (before after : list GoalRecord.t) (g g' : GoalRecord.t) :
  <[length before := g']> (before ++ g :: after) = before ++ g' :: after.
Proof. induction before as [| b before IH]; cbn; [reflexivity | f_equal; exact IH]. Qed.

(** The table after [updateGoalStatus] found its record. *)
Lemma updateGoalStatus_table (w : World) (goalId : string) (status : GoalStatus.t)
    (s : Sys) (before after : list GoalRecord.t) (g : GoalRecord.t) :
  goal_table s = before ++ g :: after →
  GoalRecord.id g = goalId →
  goalId ∉ GoalRecord.id <$> before →
  ∃ s' completedAt,
    Memory.updateGoalStatus w goalId status s = (Ok (), s')
    ∧ goal_table s'
        = before ++ GoalRecord.mk (GoalRecord.id g) (GoalRecord.goal g) status
                                  (GoalRecord.createdAt g) completedAt :: after
    ∧ (Memory.is_terminal status = true → is_Some completedAt)
    ∧ agent s' = agent s.
Proof.
  intros Htable Hg Hnotin.
  destruct s as [file ag em pr c i l x]. unfold goal_table in *. cbn in Htable.
  destruct file as [memory |]; [| destruct before; discriminate Htable].
  unfold Memory.updateGoalStatus, Memory.loadMemory, Memory.saveMemory, now. unfold_monad.
  cbn [memory_file]. rewrite Htable, (list_find_first_id goalId before after g Hg Hnotin).
  destruct (Memory.is_terminal status); cbn; rewrite insert_after;
    eexists _, _; (split; [reflexivity |]); (split; [reflexivity |]);
    (split; [| reflexivity]); [eauto | discriminate].
Qed.

(** [updateGoalStatus] changes the first record that carries the
    identifier, and no other record, also when a later record carries the
    same identifier; a terminal status stamps [completedAt]; the journal is
    left as it was. *)
Theorem updateGoalStatus_first_match (w : World) (goalId : string) (status : GoalStatus.t)
    (s : Sys) (before after : list GoalRecord.t) (g : GoalRecord.t) :
  goal_table s = before ++ g :: after →
  GoalRecord.id g = goalId →
  goalId ∉ GoalRecord.id <$> before →
  ∃ s' completedAt,
    Memory.updateGoalStatus w goalId status s = (Ok (), s')
    ∧ goal_table s'
        = before ++ GoalRecord.mk (GoalRecord.id g) (GoalRecord.goal g) status
                                  (GoalRecord.createdAt g) completedAt :: after
    ∧ (if Memory.is_terminal status then is_Some completedAt
       else completedAt = GoalRecord.completedAt g)
    ∧ journal s' = journal s
    ∧ agent s' = agent s.
Proof.
  intros Htable Hg Hnotin.
  destruct s as [file ag em pr c i l x]. unfold goal_table, journal in *. cbn in Htable.
  destruct file as [memory |]; [| destruct before; discriminate Htable].
  unfold Memory.updateGoalStatus, Memory.loadMemory, Memory.saveMemory, now. unfold_monad.
  cbn [memory_file]. rewrite Htable, (list_find_first_id goalId before after g Hg Hnotin).
  destruct (Memory.is_terminal status); cbn; rewrite insert_after;
    eexists _, _; (split; [reflexivity |]); cbn; repeat split; eauto.
Qed.

(** A table in which the identifier [run-1] occurs twice. *)
Definition twice_run_1 : Sys :=
  set_memory_file
    (Some (PersistentMemory.mk []
             [ GoalRecord.mk "run-0" "a" GoalStatus.completed "t0" (Some "t1");
               GoalRecord.mk "run-1" "b" GoalStatus.in_progress "t2" None;
               GoalRecord.mk "run-1" "b" GoalStatus.in_progress "t3" None ]
             "t3"))
    Demo.fresh.

Lemma updateGoalStatus_first_match_example :
  ∃ s' stamp,
    Memory.updateGoalStatus quiet_world "run-1" GoalStatus.completed twice_run_1 = (Ok (), s')
    ∧ goal_table s'
        = [ GoalRecord.mk "run-0" "a" GoalStatus.completed "t0" (Some "t1");
            GoalRecord.mk "run-1" "b" GoalStatus.completed "t2" stamp;
            GoalRecord.mk "run-1" "b" GoalStatus.in_progress "t3" None ].
Proof.
  destruct (updateGoalStatus_first_match quiet_world "run-1" GoalStatus.completed twice_run_1
              [GoalRecord.mk "run-0" "a" GoalStatus.completed "t0" (Some "t1")]
              [GoalRecord.mk "run-1" "b" GoalStatus.in_progress "t3" None]
              (GoalRecord.mk "run-1" "b" GoalStatus.in_progress "t2" None))
    as (s' & stamp & Hrun & Htable & _).
  - reflexivity.
  - reflexivity.
  - rewrite list_fmap_singleton, list_elem_of_singleton. discriminate.
  - exists s', stamp. split; [exact Hrun | exact Htable].
Defined.

(** [updateGoalStatus] on an identifier that no record carries writes
    nothing: the file is left as it was, also when it does not exist. *)
Theorem updateGoalStatus_unknown_id (w : World) (goalId : string) (status : GoalStatus.t)
    (s : Sys) :
  goalId ∉ goal_ids s →
  ∃ s', Memory.updateGoalStatus w goalId status s = (Ok (), s')
    ∧ memory_file s' = memory_file s
    ∧ agent s' = agent s.
Proof.
  intros Hnotin. destruct s as [file ag em pr c i l x].
  unfold goal_ids, goal_table in Hnotin. cbn in Hnotin.
  unfold Memory.updateGoalStatus, Memory.loadMemory, now. unfold_monad. cbn [memory_file].
  destruct file as [memory |].
  - rewrite (list_find_no_id goalId _ Hnotin). eexists. repeat split.
  - cbn. eexists. repeat split.
Qed.

Lemma updateGoalStatus_unknown_id_example :
  ∃ s', Memory.updateGoalStatus quiet_world "run-9" GoalStatus.failed twice_run_1 = (Ok (), s')
    ∧ memory_file s' = memory_file twice_run_1.
Proof.
  destruct (updateGoalStatus_unknown_id quiet_world "run-9" GoalStatus.failed twice_run_1)
    as (s' & Hrun & Hfile & _).
  - unfold goal_ids. cbn. rewrite !not_elem_of_cons. repeat split; try discriminate.
    apply not_elem_of_nil.
  - exists s'. split; [exact Hrun | exact Hfile].
Defined.

Lemma addGoal_table (w : World) (goal id : string) (s : Sys) :
  ∃ s' t, Memory.addGoal w goal id s = (Ok (), s')
    ∧ goal_table s' = goal_table s ++ [GoalRecord.mk id goal GoalStatus.in_progress t None]
    ∧ journal s' = journal s
    ∧ agent s' = agent s.
Proof.
  destruct s as [file ag em pr c i l x]. unfold goal_table, journal.
  unfold Memory.addGoal, Memory.loadMemory, Memory.saveMemory, now. unfold_monad.
  destruct file as [memory |]; cbn; eexists _, _; repeat split.
Qed.

Lemma getUnfinishedGoals_table (w : World) (s : Sys) :
  ∃ s', Memory.getUnfinishedGoals w s
          = (Ok (filter (λ g, GoalRecord.status g = GoalStatus.in_progress) (goal_table s)), s')
    ∧ memory_file s' = memory_file s
    ∧ agent s' = agent s.
Proof.
  destruct s as [file ag em pr c i l x]. unfold goal_table.
  unfold Memory.getUnfinishedGoals, Memory.loadMemory, now. unfold_monad.
  destruct file as [memory |]; cbn; eexists; repeat split.
Qed.

(** The goal table, round trip. A goal added under an identifier that is
    new to the table is listed last among the unfinished goals; once its
    status is set to [completed] or [failed] the unfinished goals are those
    of before. *)
Theorem goal_listed_until_terminal (w : World) (goal id : string) (status : GoalStatus.t)
    (s : Sys) :
  id ∉ goal_ids s →
  let unfinished := filter (λ g, GoalRecord.status g = GoalStatus.in_progress) (goal_table s) in
  (∃ t, ((Memory.addGoal w goal id;; Memory.getUnfinishedGoals w) s).1
          = Ok (unfinished ++ [GoalRecord.mk id goal GoalStatus.in_progress t None]))
  ∧ (Memory.is_terminal status = true →
     ((Memory.addGoal w goal id;; Memory.updateGoalStatus w id status;;
       Memory.getUnfinishedGoals w) s).1 = Ok unfinished).
Proof.
  intros Hnew unfinished.
  destruct (addGoal_table w goal id s) as (s1 & t & Hadd & Htable & _ & _).
  split.
  - exists t. rewrite (bind_ok _ _ _ _ _ Hadd).
    destruct (getUnfinishedGoals_table w s1) as (s2 & Hget & _). rewrite Hget. cbn [fst].
    rewrite Htable, filter_app. f_equal.
  - intros Hterminal. rewrite (bind_ok _ _ _ _ _ Hadd).
    destruct (updateGoalStatus_table w id status s1 (goal_table s) []
                (GoalRecord.mk id goal GoalStatus.in_progress t None) Htable eq_refl Hnew)
      as (s2 & stamp & Hupdate & Htable2 & _).
    rewrite (bind_ok _ _ _ _ _ Hupdate).
    destruct (getUnfinishedGoals_table w s2) as (s3 & Hget & _). rewrite Hget. cbn [fst].
    rewrite Htable2, filter_app. cbn [GoalRecord.id GoalRecord.goal GoalRecord.createdAt].
    rewrite filter_cons_False, filter_nil, app_nil_r; [reflexivity |].
    cbn. destruct status; [discriminate | discriminate Hterminal | discriminate].
Qed.

Lemma goal_listed_until_terminal_example :
  ((Memory.addGoal quiet_world "c" "run-2";;
    Memory.updateGoalStatus quiet_world "run-2" GoalStatus.failed;;
    Memory.getUnfinishedGoals quiet_world) twice_run_1).1
  = Ok [ GoalRecord.mk "run-1" "b" GoalStatus.in_progress "t2" None;
         GoalRecord.mk "run-1" "b" GoalStatus.in_progress "t3" None ].
Proof.
  refine (proj2 (goal_listed_until_terminal quiet_world "c" "run-2" GoalStatus.failed
                   twice_run_1 _) eq_refl).
  unfold goal_ids. cbn. rewrite !not_elem_of_cons. repeat split; try discriminate.
  apply not_elem_of_nil.
Defined.

(** ** The ledger: statistics and reset *)

Lemma goals_by_status (l : list GoalRecord.t) :
  length l
  = length (filter (λ g, GoalRecord.status g = GoalStatus.completed) l)
    + length (filter (λ g, GoalRecord.status g = GoalStatus.failed) l)
    + length (filter (λ g, GoalRecord.status g = GoalStatus.in_progress) l).
Proof.
  induction l as [| g l IH]; [reflexivity |].
  rewrite !filter_cons.
  destruct (GoalRecord.status g); repeat case_decide; try congruence; cbn [length]; lia.
Qed.

(** The statistics count the journal and the goal table as they are on
    disk, and every goal is counted once: completed, failed, or among the
    unfinished goals that [getUnfinishedGoals] returns. *)
Theorem stats_partition_goals (w : World) (s : Sys) :
  ∃ stats unfinished s1 s2,
    MemoryStats.getMemoryStats w s = (Ok stats, s1)
    ∧ Memory.getUnfinishedGoals w s = (Ok unfinished, s2)
    ∧ MemoryStats.totalEntries stats = length (journal s)
    ∧ MemoryStats.totalGoals stats = length (goal_table s)
    ∧ MemoryStats.totalGoals stats
        = MemoryStats.completedGoals stats + MemoryStats.failedGoals stats + length unfinished.
Proof.
  destruct (getUnfinishedGoals_table w s) as (s2 & Hget & _).
  destruct (loadMemory_journal w s) as (memory & s1 & Hload & Hentries & Hgoals & _).
  eexists _, _, s1, s2. split.
  { unfold MemoryStats.getMemoryStats. rewrite (bind_ok _ _ _ _ _ Hload). reflexivity. }
  split; [exact Hget |]. cbn. rewrite Hentries, Hgoals.
  split; [reflexivity |]. split; [reflexivity |]. apply goals_by_status.
Qed.

(** After [clearMemory] the ledger is empty whatever it held: the
    statistics are all zero, no goal is unfinished, and the prompt text
    says that no memory is available. *)
Theorem clearMemory_resets (w : World) (s : Sys) :
  ((Memory.clearMemory w;; MemoryStats.getMemoryStats w) s).1 = Ok (MemoryStats.mk 0 0 0 0)
  ∧ ((Memory.clearMemory w;; Memory.getUnfinishedGoals w) s).1 = Ok []
  ∧ (∀ goalId, ((Memory.clearMemory w;; Memory.formatMemoryForPrompt w goalId) s).1
               = Ok "No previous memory available.")
  ∧ journal ((Memory.clearMemory w) s).2 = []
  ∧ goal_table ((Memory.clearMemory w) s).2 = [].
Proof.
  destruct s as [file ag em pr c i l x].
  repeat split; try (intros goalId; destruct goalId as [g |]);
    unfold Memory.clearMemory, Memory.saveMemory, MemoryStats.getMemoryStats,
      Memory.getUnfinishedGoals, Memory.formatMemoryForPrompt, Memory.getRecentMemory,
      Memory.loadMemory, now; unfold_monad; cbn; try reflexivity.
  destruct (negb (g =? "")%string); reflexivity.
Qed.

(** ** The sandbox: reading and writing files *)

Lemma substring0_all (n : nat) (s : string) :
  String.length s ≤ n → String.substring 0 n s = s.
Proof.
  revert n. induction s as [| c s IH]; intros [| n] Hlen; cbn in *; try reflexivity; [lia |].
  f_equal. apply IH. lia.
Qed.

Lemma length_substring0 (n : nat) (s : string) :
  String.length (String.substring 0 n s) = n `min` String.length s.
Proof.
  revert n. induction s as [| c s IH]; intros [| n]; cbn; try reflexivity.
  f_equal. apply IH.
Qed.

(** What [safeResolve] lets through starts with the text of the root, and
    it never touches the disk. *)
Lemma safeResolve_cases (root path : string) (d : Disk) :
  (safeResolve root path d = (Ok (Path.resolve root path), d)
   ∧ Js.startsWith (Path.resolve root path) root = true)
  ∨ (safeResolve root path d = (Throw "Path escapes workspace root.", d)
     ∧ Js.startsWith (Path.resolve root path) root = false).
Proof.
  unfold safeResolve. destruct (Js.startsWith (Path.resolve root path) root); cbn; auto.
Qed.

(** A whole-file read of a file that exists. *)
Lemma read_whole_file (root path buf : string) (maxBytes : option Z) (d : Disk) :
  path ≠ "" →
  Sandbox.opt_ok (λ v, (1024 <=? v) && (v <=? 2000000))%Z maxBytes = true →
  Js.startsWith (Path.resolve root path) root = true →
  files d !! Path.resolve root path = Some buf →
  let clipped := Js.substring0 (Z.to_nat (default 250000%Z maxBytes)) buf in
  executeTool root (read_file (mkReadFileArgs path None None maxBytes)) d
  = (Ok (ok (FileContent path clipped (String.length clipped <? String.length buf)%nat)),
     mkDisk (files d) (io_log d ++ [OpReadFile (Path.resolve root path)])).
Proof.
  intros Hpath Hmax Hin Hfile clipped. apply String.eqb_neq in Hpath.
  unfold executeTool, run_read_file, parseReadFileArgs, safeResolve, fs_readFile, record_op.
  unfold_monad. cbn -[String.eqb Path.resolve Js.startsWith Z.to_nat Js.substring0 Nat.ltb].
  rewrite Hpath, Hmax.
  cbn -[String.eqb Path.resolve Js.startsWith Z.to_nat Js.substring0 Nat.ltb].
  rewrite Hin. cbn -[String.eqb Path.resolve Js.startsWith Z.to_nat Js.substring0 Nat.ltb].
  rewrite Hfile. destruct maxBytes; reflexivity.
Qed.

(** Round trip. When [write_file] has answered [ok], the file under the
    path it resolved holds the content it was given, the answer names the
    path and the number of bytes, and [read_file] of the same path reads
    the content back, whole and not truncated, as long as it is within the
    default cap of 250000 bytes. *)
Theorem write_file_then_read_file (root : string) (args : WriteFileArgs) (d d1 : Disk)
    (data : ToolData) :
  executeTool root (write_file args) d = (Ok (ok data), d1) →
  (Z.of_nat (String.length (wf_content args)) ≤ 250000)%Z →
  data = Written (wf_path args) (Z.of_nat (String.length (wf_content args)))
  ∧ Js.startsWith (Path.resolve root (wf_path args)) root = true
  ∧ files d1 !! Path.resolve root (wf_path args) = Some (wf_content args)
  ∧ (executeTool root (read_file (mkReadFileArgs (wf_path args) None None None)) d1).1
    = Ok (ok (FileContent (wf_path args) (wf_content args) false)).
Proof.
  intros Hwrite Hlen.
  assert (Hwritten : wf_path args ≠ ""
            ∧ Js.startsWith (Path.resolve root (wf_path args)) root = true
            ∧ data = Written (wf_path args) (Z.of_nat (String.length (wf_content args)))
            ∧ files d1 !! Path.resolve root (wf_path args) = Some (wf_content args)).
  { revert Hwrite.
    unfold executeTool, run_write_file, parseWriteFileArgs. unfold try_catch.
    rewrite bind_unfold.
    destruct (negb (wf_path args =? "")%string) eqn:Hne; [| discriminate].
    apply negb_true_iff, String.eqb_neq in Hne.
    change ((mret ?a : FS WriteFileArgs) d) with (Ok a, d). cbv iota beta.
    rewrite bind_unfold. cbn [wf_path wf_content wf_createDirs].
    destruct (safeResolve_cases root (wf_path args) d) as [[-> Hin] | [-> _]];
      [| discriminate].
    unfold fs_writeFile, fs_mkdir, record_op. unfold_monad.
    destruct (wf_createDirs args) as [[|] |]; cbn [default id];
      intros [= <- <-]; cbn [files]; rewrite lookup_insert_eq; auto. }
  destruct Hwritten as (Hpath & Hin & Hdata & Hfile).
  split; [exact Hdata |]. split; [exact Hin |]. split; [exact Hfile |].
  rewrite (read_whole_file root (wf_path args) (wf_content args) None d1 Hpath eq_refl Hin
             Hfile).
  cbn [fst]. unfold Js.substring0. cbn [default].
  rewrite substring0_all by lia. rewrite Nat.ltb_irrefl. reflexivity.
Qed.

Definition note_written : Result ToolResult * Disk :=
  executeTool "/ws" (write_file (mkWriteFileArgs "notes/today.md" "buy milk" None)) ws_disk.

Lemma write_file_then_read_file_example :
  Written "notes/today.md" 8 = Written "notes/today.md" (Z.of_nat (String.length "buy milk"))
  ∧ Js.startsWith (Path.resolve "/ws" "notes/today.md") "/ws" = true
  ∧ files note_written.2 !! Path.resolve "/ws" "notes/today.md" = Some "buy milk"
  ∧ (executeTool "/ws" (read_file (mkReadFileArgs "notes/today.md" None None None))
       note_written.2).1
    = Ok (ok (FileContent "notes/today.md" "buy milk" false)).
Proof.
  apply (write_file_then_read_file "/ws" (mkWriteFileArgs "notes/today.md" "buy milk" None)
           ws_disk note_written.2 (Written "notes/today.md" 8)).
  - vm_compute. reflexivity.
  - cbn. lia.
Defined.

(** [read_file] never changes a file, whatever its arguments and whether
    it succeeds or not. *)
Theorem read_file_never_writes (root : string) (raw : ReadFileArgs) (d : Disk) :
  files (executeTool root (read_file raw) d).2 = files d.
Proof.
  unfold executeTool, run_read_file, parseReadFileArgs, fs_readFile, record_op.
  unfold try_catch. rewrite bind_unfold.
  match goal with |- context [if ?b then _ else _] => destruct b end; [| reflexivity].
  unfold_monad. cbn [rf_path]. destruct (safeResolve_cases root (rf_path raw) d) as [[-> _] | [-> _]];
    [| reflexivity].
  cbn [files io_log]. destruct (files d !! Path.resolve root (rf_path raw)); [| reflexivity].
  cbn [rf_startLine rf_endLine]. destruct (rf_startLine raw), (rf_endLine raw); reflexivity.
Qed.

(** A text of bytes below 128 only: decoded as UTF-8 it is itself, one
    character for each byte. *)
Fixpoint ascii_only (s : string) : bool :=
  match s with
  | EmptyString => true
  | String (Ascii _ _ _ _ _ _ _ b7) rest => negb b7 && ascii_only rest
  end.

(** A whole-file read that succeeds has read the file under the resolved
    path and taken at most [maxBytes] bytes of it (250000 when no cap is
    given, and never more than 2000000); [truncated] says whether the file
    has more bytes than that. When the file holds bytes below 128 only,
    so that the decoding of the bytes taken changes none of them, the
    content returned is the head of the file, of at most [maxBytes]
    characters. *)
Theorem read_file_within_cap (root : string) (raw : ReadFileArgs) (d : Disk)
    (path content : string) (truncated : bool) :
  (executeTool root (read_file raw) d).1 = Ok (ok (FileContent path content truncated)) →
  let cap := default 250000%Z (rf_maxBytes raw) in
  (1024 ≤ cap ≤ 2000000)%Z
  ∧ ∃ buf, files d !! Path.resolve root (rf_path raw) = Some buf
      ∧ (truncated = true ↔ (cap < Z.of_nat (String.length buf))%Z)
      ∧ (ascii_only buf = true →
         content = String.substring 0 (Z.to_nat cap) buf
         ∧ (Z.of_nat (String.length content) ≤ cap)%Z).
Proof.
  unfold executeTool, run_read_file, parseReadFileArgs, fs_readFile, record_op.
  unfold try_catch. rewrite bind_unfold.
  destruct (negb (rf_path raw =? "")%string) eqn:Hpath; [| discriminate].
  destruct (opt_ok _ (rf_startLine raw)) eqn:Hstart; [| discriminate].
  destruct (opt_ok _ (rf_endLine raw)) eqn:Hend; [| discriminate].
  destruct (opt_ok _ (rf_maxBytes raw)) eqn:Hmax; [| discriminate].
  cbn [andb]. unfold_monad. cbn [rf_path rf_maxBytes rf_startLine rf_endLine].
  destruct (safeResolve_cases root (rf_path raw) d) as [[-> _] | [-> _]]; [| discriminate].
  cbn [files io_log].
  destruct (files d !! Path.resolve root (rf_path raw)) as [buf |]; [| discriminate].
  destruct (rf_startLine raw), (rf_endLine raw); try discriminate.
  cbn [fst default]. intros [= <- <- <-]. cbv zeta.
  set (cap := default 250000%Z (rf_maxBytes raw)) in *.
  assert (Hcap : (1024 ≤ cap ≤ 2000000)%Z).
  { unfold cap. destruct (rf_maxBytes raw) as [v |]; cbn in Hmax |- *; [| lia].
    apply andb_true_iff in Hmax as [H1 H2]. apply Z.leb_le in H1, H2. lia. }
  unfold Js.substring0. pose proof (length_substring0 (Z.to_nat cap) buf) as Hl.
  split; [exact Hcap |]. exists buf. split; [reflexivity |]. split.
  - rewrite Nat.ltb_lt. lia.
  - intros _. split; [reflexivity | lia].
Qed.

Lemma read_file_within_cap_example :
  (1024 ≤ 250000 ≤ 2000000)%Z
  ∧ ∃ buf, files ws_disk !! Path.resolve "/ws" "notes.txt" = Some buf
      ∧ (false = true ↔ (250000 < Z.of_nat (String.length buf))%Z)
      ∧ (ascii_only buf = true →
         "hello" = String.substring 0 (Z.to_nat 250000) buf
         ∧ (Z.of_nat (String.length "hello") ≤ 250000)%Z).
Proof.
  apply (read_file_within_cap "/ws" (mkReadFileArgs "notes.txt" None None None) ws_disk
           "notes.txt" "hello" false).
  vm_compute. reflexivity.
Defined.

(** ** The sandbox: what a tool call does to the disk *)

(** The path a call names. *)
Definition call_path (call : ToolCall) : string :=
  match call with
  | read_file args => rf_path args
  | write_file args => wf_path args
  | apply_patch args => ap_path args
  end.

(** An operation stays with a target: it addresses the target itself, or
    makes the directory the target lies in. *)
Definition addresses (target : string) (op : FsOp) : Prop :=
  match op with
  | OpStat p | OpReadFile p | OpWriteFile p _ => p = target
  | OpMkdir p => p = Path.dirname target
  end.

Lemma fileExists_cases (p : string) (d : Disk) :
  fileExists p d
  = (Ok (bool_decide (is_Some (files d !! p))), mkDisk (files d) (io_log d ++ [OpStat p])).
Proof.
  unfold fileExists, fs_stat, record_op. unfold_monad. cbn.
  destruct (files d !! p); reflexivity.
Qed.

(** [apply_patch] is all or nothing. Either every edit applied and the
    target, and only the target, was rewritten with the patched lines; or
    the result is an error and no file changed. An edit out of range
    after edits in range leaves no half-patched file behind. *)
Theorem apply_patch_all_or_nothing (root : string) (raw : ApplyPatchArgs) (d : Disk) :
  let target := Path.resolve root (ap_path raw) in
  let run := executeTool root (apply_patch raw) d in
  match run.1 with
  | Ok (ok data) =>
      data = Patched (ap_path raw) (Z.of_nat (length (ap_edits raw)))
      ∧ ∃ original lines',
          files d !! target = Some original
          ∧ apply_edits (ap_path raw) (Js.split_lines original) (sort_desc (ap_edits raw))
            = inr lines'
          ∧ files run.2 = <[target := Js.join Js.nl lines']> (files d)
  | _ => files run.2 = files d
  end.
Proof.
  cbv zeta. unfold executeTool, run_apply_patch, parseApplyPatchArgs.
  unfold try_catch. rewrite bind_unfold.
  match goal with |- context [if ?b then _ else _] => destruct b end; [| reflexivity].
  change ((mret raw : FS ApplyPatchArgs) d) with (Ok raw, d). cbv iota beta.
  rewrite bind_unfold.
  destruct (safeResolve_cases root (ap_path raw) d) as [[-> _] | [-> _]]; [| reflexivity].
  cbv iota beta. rewrite bind_unfold, fileExists_cases. cbv iota beta.
  destruct (files d !! Path.resolve root (ap_path raw)) as [original |] eqn:Hfile.
  - rewrite bool_decide_eq_true_2 by eauto. cbn [negb].
    unfold fs_readFile, fs_writeFile, record_op. unfold_monad. cbn [files io_log].
    rewrite Hfile.
    destruct (apply_edits _ _ _) as [failure | lines'] eqn:Hedits.
    + cbn. destruct failure; [| reflexivity].
      exfalso. clear -Hedits. revert Hedits. generalize (Js.split_lines original).
      induction (sort_desc (ap_edits raw)) as [| e rest IH]; intros lines; [discriminate |].
      cbn [apply_edits]. destruct (apply_edit _ lines e) as [failure | lines1] eqn:Hone.
      * intros [= ->]. unfold apply_edit in Hone.
        destruct (_ || _ || _); discriminate.
      * apply IH.
    + cbn. split.
      * rewrite (Permutation_length (sort_desc_perm (ap_edits raw))). reflexivity.
      * exists original, lines'. auto.
  - rewrite bool_decide_eq_false_2 by (intros [? ?]; discriminate). reflexivity.
Qed.

(** Every operation a tool call asks of the file system addresses the one
    path the call resolves to (or makes its directory), and that path
    starts with the text of the workspace root. *)
Theorem executeTool_addresses_resolved_path (root : string) (call : ToolCall) (d : Disk) :
  ∃ ops, io_log (executeTool root call d).2 = io_log d ++ ops
    ∧ Forall (addresses (Path.resolve root (call_path call))) ops
    ∧ (ops ≠ [] → Js.startsWith (Path.resolve root (call_path call)) root = true).
Proof.
  destruct call as [raw | raw | raw]; cbn [call_path]; unfold executeTool.
  - unfold run_read_file, parseReadFileArgs, fs_readFile, record_op.
    unfold try_catch. rewrite bind_unfold.
    match goal with |- context [if ?b then _ else _] => destruct b end;
      [| exists []; cbn; rewrite app_nil_r; auto].
    unfold_monad. cbn [rf_path].
    destruct (safeResolve_cases root (rf_path raw) d) as [[-> Hin] | [-> _]];
      [| exists []; cbn; rewrite app_nil_r; auto].
    cbn [files io_log]. exists [OpReadFile (Path.resolve root (rf_path raw))].
    split; [| split; [repeat constructor | auto]].
    destruct (files d !! Path.resolve root (rf_path raw)); [| reflexivity].
    cbn [rf_startLine rf_endLine]. destruct (rf_startLine raw), (rf_endLine raw); reflexivity.
  - unfold run_write_file, parseWriteFileArgs, fs_writeFile, fs_mkdir, record_op.
    unfold try_catch. rewrite bind_unfold.
    match goal with |- context [if ?b then _ else _] => destruct b end;
      [| exists []; cbn; rewrite app_nil_r; auto].
    unfold_monad. cbn [wf_path wf_content wf_createDirs].
    destruct (safeResolve_cases root (wf_path raw) d) as [[-> Hin] | [-> _]];
      [| exists []; cbn; rewrite app_nil_r; auto].
    destruct (wf_createDirs raw) as [[|] |]; cbn; eexists;
      (split; [try rewrite <- app_assoc; reflexivity |]);
      (split; [repeat constructor | auto]).
  - unfold run_apply_patch, parseApplyPatchArgs.
    unfold try_catch. rewrite bind_unfold.
    match goal with |- context [if ?b then _ else _] => destruct b end;
      [| exists []; cbn; rewrite app_nil_r; auto].
    change ((mret raw : FS ApplyPatchArgs) d) with (Ok raw, d). cbv iota beta.
    rewrite bind_unfold.
    destruct (safeResolve_cases root (ap_path raw) d) as [[-> Hin] | [-> _]];
      [| exists []; cbn; rewrite app_nil_r; auto].
    cbv iota beta. rewrite bind_unfold, fileExists_cases. cbv iota beta.
    destruct (files d !! Path.resolve root (ap_path raw)) as [original |] eqn:Hfile.
    + rewrite bool_decide_eq_true_2 by eauto. cbn [negb].
      unfold fs_readFile, fs_writeFile, record_op. unfold_monad. cbn [files io_log].
      rewrite Hfile.
      destruct (apply_edits _ _ _) as [failure | lines']; cbn; eexists;
        (split; [repeat rewrite <- app_assoc; reflexivity |]);
        (split; [repeat constructor | auto]).
    + rewrite bool_decide_eq_false_2 by (intros [? ?]; discriminate). cbn.
      eexists. split; [reflexivity |]. split; [repeat constructor | auto].
Qed.

(** A call whose path fails the prefix test is answered with a
    [TOOL_ERROR], whatever its message, and reaches the file system with
    no operation at all, not even a [stat]: no file is changed and nothing
    is asked of the disk. *)
Theorem executeTool_refused_without_io (root : string) (call : ToolCall) (d : Disk) :
  Js.startsWith (Path.resolve root (call_path call)) root = false →
  ∃ message, executeTool root call d = (Ok (err "TOOL_ERROR" message), d).
Proof.
  intros Hout.
  destruct call as [raw | raw | raw]; cbn [call_path] in Hout; unfold executeTool.
  - unfold run_read_file, parseReadFileArgs. unfold try_catch. rewrite bind_unfold.
    match goal with |- context [if ?b then _ else _] => destruct b end;
      [| exists zod_error; auto].
    unfold_monad. cbn [rf_path]. unfold safeResolve. rewrite Hout. cbn. eauto.
  - unfold run_write_file, parseWriteFileArgs. unfold try_catch. rewrite bind_unfold.
    match goal with |- context [if ?b then _ else _] => destruct b end;
      [| exists zod_error; auto].
    unfold_monad. cbn [wf_path]. unfold safeResolve. rewrite Hout. cbn. eauto.
  - unfold run_apply_patch, parseApplyPatchArgs. unfold try_catch. rewrite bind_unfold.
    match goal with |- context [if ?b then _ else _] => destruct b end;
      [| exists zod_error; auto].
    unfold_monad. unfold safeResolve. rewrite Hout. cbn. eauto.
Qed.

Lemma executeTool_refused_without_io_example :
  ∃ message,
    executeTool "/ws" (write_file (mkWriteFileArgs "../etc/passwd" "root::0:0" None)) ws_disk
    = (Ok (err "TOOL_ERROR" message), ws_disk).
Proof.
  apply (executeTool_refused_without_io "/ws"
           (write_file (mkWriteFileArgs "../etc/passwd" "root::0:0" None)) ws_disk).
  reflexivity.
Defined.

(** ** The ledger file and the tools of the registry

    The tools the executor calls work in the directory in which the
    ledger file is kept, and [write_file], the one tool of the registry
    that writes, can rewrite that file under the run that called it; the
    functions of the ledger then find another ledger, or none, or throw.
    The model keeps the ledger out of the reach of the tools. What is said
    below of the ledger of a whole run, and of a run always returning, is
    said of the worlds in which no run of the executor is a call of
    [write_file]. *)
Definition spares_ledger (o : ExecOutcome) : bool :=
  match o with
  | ExecTool toolName _ _ => negb (String.eqb toolName "write_file")
  | _ => true
  end.

Definition ledger_spared (w : World) : Prop :=
  ∀ k, spares_ledger (executor w k) = true.

(** ** The verdict of a run *)

Lemma some_failed (l : list Task.t) :
  existsb (λ t, bool_decide (Task.status t = TaskStatus.failed)) l = true →
  ∃ j, (Task.status <$> l) !! j = Some TaskStatus.failed.
Proof.
  intros Hany. apply existsb_exists in Hany as (t & Hin & Hfailed).
  apply bool_decide_eq_true_1 in Hfailed.
  apply list_elem_of_In, list_elem_of_lookup_1 in Hin as [j Hj].
  exists j. rewrite list_lookup_fmap, Hj. cbn. f_equal. exact Hfailed.
Qed.

Lemma not_all_done (l : list Task.t) :
  forallb (λ t, bool_decide (Task.status t = TaskStatus.done)) l = false →
  ∃ j x, (Task.status <$> l) !! j = Some x ∧ x ≠ TaskStatus.done.
Proof.
  induction l as [| t l IH]; cbn; [discriminate |].
  destruct (bool_decide (Task.status t = TaskStatus.done)) eqn:Hdone; cbn.
  - intros Hrest. destruct (IH Hrest) as (j & x & Hj & Hx). exists (S j), x. auto.
  - intros _. exists 0, (Task.status t). split; [reflexivity |].
    exact (bool_decide_eq_false_1 _ Hdone).
Qed.

Section Verdict.
Context (w : World) (finalConfig : AgentConfig.t) (stateId : string).

Let R : Z := AgentConfig.maxRetries finalConfig.
Let auto : bool := AgentConfig.autonomousMode finalConfig.

(** The steps counted once [k] tasks were started: a task takes at most
    [maxRetries + 1] of them. *)
Definition spent (k : nat) (v : View) : Prop :=
  (0 ≤ v_steps v ≤ Z.of_nat k * Z.max 0 (R + 1))%Z.

(** The status of the run between two tasks, [k] tasks started. *)
Definition started (k : nat) (x : RunStatus.t) : Prop :=
  match k with
  | 0 => x = RunStatus.planning
  | S _ => x = RunStatus.executing ∨ x = RunStatus.reflecting
  end.

Definition visit_inv (n : nat) (M : Z) (k : nat) (v : View) : Prop :=
  progress finalConfig n k (v_statuses v) ∧ v_maxSteps v = M ∧ spent k v
  ∧ started k (v_status v).

(** How the loop over [n] tasks is left with [k] tasks started: it went
    through them all, or it paused before task [k], or it halted at the
    failure of the last task it started. *)
Definition ending (n : nat) (M : Z) (k : nat) (v : View) : Prop :=
  (k = n ∧ progress finalConfig n n (v_statuses v) ∧ started n (v_status v))
  ∨ (k < n ∧ progress finalConfig n k (v_statuses v)
     ∧ v_status v = RunStatus.paused ∧ (M ≤ v_steps v)%Z)
  ∨ (auto = false ∧ v_status v = RunStatus.failed
     ∧ ∃ j, k = S j ∧ halted n j (v_statuses v)).

Definition visit_end (n : nat) (M : Z) (v : View) : Prop :=
  v_maxSteps v = M ∧ ∃ k, spent k v ∧ ending n M k v.

Lemma for_tasks_visits (n : nat) (M : Z) (m : nat) :
  ∀ (k : nat) (v : View), k + m = n → visit_inv n M k v →
  wp (Engine.for_tasks w finalConfig stateId (seq k m)) v (λ _ v', visit_end n M v') never.
Proof.
  induction m as [| m IH]; intros k v Hk (Hprog & Hmax & Hspent & Hstatus).
  { assert (k = n) as -> by lia.
    apply wp_ret. split; [exact Hmax |]. exists n. split; [exact Hspent |]. left. auto. }
  cbn [seq Engine.for_tasks]. pose proof Hprog as (Hlen & Hbefore & Hafter).
  apply wp_bind. eapply wp_mono; [apply run_task_spec; lia | | auto].
  intros stop v1 (Hmax1 & [(Hout & -> & ->) | (Hleft & Hsteps & x & Hl & Hx & Hstop & Hst)]).
  { apply wp_ret. split; [exact Hmax |]. exists k. split; [exact Hspent |]. right; left.
    split; [lia |]. split; [exact Hprog |]. split; [reflexivity |]. cbn. lia. }
  cbv beta. fold R in Hsteps, Hx. fold auto in Hstop.
  assert (Hspent1 : spent (S k) v1).
  { unfold spent in *. rewrite Nat2Z.inj_succ, Z.mul_succ_l.
    set (mx := Z.max 0 (R + 1)) in *. set (used := (Z.of_nat k * mx)%Z) in *. lia. }
  assert (Hbefore1 : ∀ j, j < k → v_statuses v1 !! j = v_statuses v !! j).
  { intros j Hj. rewrite Hl. apply list_lookup_insert_ne. lia. }
  assert (Hafter1 : ∀ j, k < j → j < n → v_statuses v1 !! j = Some TaskStatus.pending).
  { intros j Hj Hn. rewrite Hl, list_lookup_insert_ne by lia. apply Hafter; lia. }
  assert (Hat : v_statuses v1 !! k = Some x).
  { rewrite Hl. apply list_lookup_insert_eq. lia. }
  assert (Hlen1 : length (v_statuses v1) = n).
  { rewrite Hl, length_insert. exact Hlen. }
  destruct stop.
  - symmetry in Hstop. apply andb_true_iff in Hstop as [Hfailed Hauto].
    apply bool_decide_eq_true_1 in Hfailed. apply negb_true_iff in Hauto. subst x.
    apply wp_ret. split; [congruence |]. exists (S k). split; [exact Hspent1 |].
    right; right. split; [exact Hauto |]. split; [exact Hst |]. exists k.
    split; [reflexivity |].
    split; [exact Hlen1 |]. split; [exact Hat |]. split; [| exact Hafter1].
    intros j Hj. rewrite (Hbefore1 j Hj).
    destruct (lookup_lt_is_Some_2 (v_statuses v) j) as [y Hy]; [lia |].
    rewrite Hy. f_equal.
    destruct (Hbefore j y Hj Hy) as [-> | [[Hyes _] | [Hneg _]]];
      [reflexivity | fold auto in Hyes; congruence |].
    fold R in Hneg. destruct (Z.leb_spec 0 R) as [| _]; [lia | discriminate Hx].
  - apply (IH (S k) v1); [lia |].
    split; [| split; [congruence | split; [exact Hspent1 | exact Hst]]].
    split; [exact Hlen1 |]. split.
    + intros j y Hj Hy. destruct (decide (j = k)) as [-> | Hne].
      * rewrite Hat in Hy. injection Hy as <-.
        destruct (Z.leb_spec 0 R) as [Hpos | Hneg].
        -- destruct Hx as [-> | ->]; [left; reflexivity |].
           right; left. split; [| reflexivity].
           symmetry in Hstop. rewrite bool_decide_eq_true_2 in Hstop by reflexivity.
           fold auto. destruct auto; [reflexivity | discriminate Hstop].
        -- right; right. auto.
      * rewrite Hbefore1 in Hy by lia. apply (Hbefore j y); [lia | exact Hy].
    + intros j Hj Hn. apply Hafter1; lia.
Qed.

(** Of the tasks the first [k] were started and the others are still
    pending; the steps counted are within [k] times the attempts a task may
    take; a task of an autonomous run is left pending only when the budget
    is used up. *)
Definition shape (M : Z) (k : nat) (v : View) : Prop :=
  k ≤ length (v_statuses v)
  ∧ spent k v
  ∧ (∀ j x, j < k → v_statuses v !! j = Some x →
       x ≠ TaskStatus.pending ∧ ((0 ≤ R)%Z → settled x))
  ∧ (∀ j, k ≤ j → j < length (v_statuses v) → v_statuses v !! j = Some TaskStatus.pending)
  ∧ (k < length (v_statuses v) → auto = true → (M ≤ v_steps v)%Z).

(** What the final state of a run says: the shape above, and the status
    of the run tells how the tasks ended. *)
Definition verdict (M : Z) (v : View) : Prop :=
  v_maxSteps v = M
  ∧ ∃ k, shape M k v
    ∧ match v_status v with
      | RunStatus.completed => ∀ j x, v_statuses v !! j = Some x → x = TaskStatus.done
      | RunStatus.failed =>
          v_statuses v = [] ∨ ∃ j, v_statuses v !! j = Some TaskStatus.failed
      | RunStatus.paused =>
          k < length (v_statuses v) ∧ (M ≤ v_steps v)%Z
          ∧ ∀ j, v_statuses v !! j ≠ Some TaskStatus.failed
      | RunStatus.executing | RunStatus.reflecting => (R < 0)%Z
      | RunStatus.idle | RunStatus.planning => False
      end.

Lemma passed_started (x : TaskStatus.t) :
  passed finalConfig x → x ≠ TaskStatus.pending ∧ ((0 ≤ R)%Z → settled x).
Proof.
  intros [-> | [[_ ->] | [Hneg ->]]].
  - split; [discriminate | intros _; left; reflexivity].
  - split; [discriminate | intros _; right; reflexivity].
  - split; [discriminate | fold R in Hneg; lia].
Qed.

Lemma ending_shape (n : nat) (M : Z) (k : nat) (v : View) :
  spent k v → ending n M k v → length (v_statuses v) = n ∧ shape M k v.
Proof.
  intros Hspent [(-> & Hprog & _) | [(Hk & Hprog & _ & Hout) | Hhalt]].
  - destruct Hprog as (Hlen & Hbefore & Hafter). split; [exact Hlen |]. unfold shape. rewrite Hlen.
    split; [lia |]. split; [exact Hspent |].
    split; [intros j x Hj Hx; apply passed_started, (Hbefore j x Hj Hx) |].
    split; [exact Hafter | lia].
  - destruct Hprog as (Hlen & Hbefore & Hafter). split; [exact Hlen |]. unfold shape. rewrite Hlen.
    split; [lia |]. split; [exact Hspent |].
    split; [intros j x Hj Hx; apply passed_started, (Hbefore j x Hj Hx) |].
    split; [exact Hafter | auto].
  - destruct Hhalt as (Hauto & _ & j0 & -> & Hlen & Hat & Hbefore & Hafter).
    split; [exact Hlen |]. unfold shape. rewrite Hlen.
    pose proof (lookup_lt_Some _ _ _ Hat) as Hlt.
    split; [lia |]. split; [exact Hspent |]. split; [| split].
    + intros j x Hj Hx. destruct (decide (j = j0)) as [-> | Hne].
      * rewrite Hat in Hx. injection Hx as <-.
        split; [discriminate | intros _; right; reflexivity].
      * rewrite Hbefore in Hx by lia. injection Hx as <-.
        split; [discriminate | intros _; left; reflexivity].
    + intros j Hj Hn. apply Hafter; lia.
    + intros _ Hyes. congruence.
Qed.

Lemma conclude_verdict (n : nat) (M : Z) (v : View) :
  visit_end n M v →
  wp (Engine.conclude w stateId) v (λ _ v', verdict M v') never.
Proof.
  intros (Hmax & k & Hspent & Hend).
  pose proof (ending_shape n M k v Hspent Hend) as (Hlen & Hshape).
  unfold Engine.conclude.
  apply wp_bind, wp_gets_agent. intros state Hstate. cbv beta zeta.
  assert (Hl : Task.status <$> AgentState.tasks state = v_statuses v)
    by (rewrite <- Hstate; reflexivity).
  destruct (forallb _ (AgentState.tasks state)) eqn:Hall.
  { do 2 wp_seq. wp_prim. split; [exact Hmax |]. exists k. split; [exact Hshape |].
    cbn. intros j x Hj. rewrite <- Hl in Hj. exact (all_done _ _ _ Hall Hj). }
  destruct (existsb _ (AgentState.tasks state)) eqn:Hany.
  { do 2 wp_seq. wp_prim. split; [exact Hmax |]. exists k. split; [exact Hshape |].
    cbn. right. rewrite <- Hl. apply some_failed, Hany. }
  apply wp_ret. split; [exact Hmax |]. exists k. split; [exact Hshape |].
  assert (Hnone : ∀ j, v_statuses v !! j ≠ Some TaskStatus.failed).
  { intros j. rewrite <- Hl. apply none_failed, Hany. }
  destruct Hend as [(-> & Hprog & Hst) | [(Hlt & _ & Hst & Hout) | Hhalt]].
  - assert (Hneg : (R < 0)%Z).
    { destruct (Z.ltb_spec R 0) as [| Hpos]; [assumption | exfalso].
      destruct (not_all_done _ Hall) as (j & x & Hj & Hx). rewrite Hl in Hj.
      destruct Hprog as (_ & Hbefore & _).
      pose proof (lookup_lt_Some _ _ _ Hj) as Hjn. rewrite Hlen in Hjn.
      destruct (Hbefore j x Hjn Hj) as [-> | [[_ ->] | [Hneg _]]].
      - apply Hx. reflexivity.
      - exact (Hnone j Hj).
      - fold R in Hneg. lia. }
    destruct n as [| n'].
    + apply length_zero_iff_nil in Hlen. rewrite <- Hl in Hlen.
      apply fmap_nil_inv in Hlen. rewrite Hlen in Hall. discriminate Hall.
    + cbn in Hst. destruct Hst as [-> | ->]; exact Hneg.
  - rewrite Hst. rewrite Hlen. auto.
  - destruct Hhalt as (_ & _ & j0 & _ & _ & Hat & _). destruct (Hnone j0 Hat).
Qed.

Lemma plan_and_run_verdict (goal : string) (M : Z) :
  wp (Engine.plan_and_run w finalConfig stateId goal) (initial_view M)
     (λ _ v', verdict M v') (λ _ v', v' = initial_view M).
Proof.
  unfold Engine.plan_and_run. wp_seq.
  apply wp_bind. unfold Engine.planTasks. apply wp_bind, wp_callLLM; [| reflexivity].
  intros plan. apply wp_ret. cbv beta zeta.
  do 4 wp_seq.
  apply wp_bind, wp_gets_agent. intros state Hstate. cbv beta.
  set (l := Task.status <$> Engine.parse_plan plan) in *.
  assert (Hlen : length (AgentState.tasks state) = length l).
  { replace l with (v_statuses (view state)) by (rewrite Hstate; reflexivity).
    cbn. unfold statuses. rewrite length_fmap. reflexivity. }
  rewrite Hlen. apply wp_bind.
  eapply wp_mono; [apply (for_tasks_visits (length l) M (length l) 0) | | intros e v' []].
  - reflexivity.
  - split; [| split; [reflexivity | split]].
    + split; [reflexivity |]. split; [intros j x Hj; lia |].
      intros j _ Hj. cbn [v_statuses with_statuses].
      destruct (lookup_lt_is_Some_2 l j Hj) as [x Hx]. rewrite Hx.
      f_equal. exact (parse_plan_pending plan j x Hx).
    + unfold spent. cbn. lia.
    + reflexivity.
  - intros [] v1 Hpost. cbv beta in Hpost |- *.
    eapply wp_mono; [apply (conclude_verdict (length l) M), Hpost | auto | intros e v' []].
Qed.

Lemma on_agent_error_verdict (e : string) (M : Z) :
  wp (Engine.on_agent_error w stateId e) (initial_view M) (λ _ v', verdict M v') never.
Proof.
  unfold Engine.on_agent_error. do 2 wp_seq. wp_prim.
  split; [reflexivity |]. exists 0. split.
  - split; [cbn; lia |]. split; [unfold spent; cbn; lia |].
    split; [intros j x Hj; lia |]. split; [intros j _ Hj; cbn in Hj; lia | cbn; lia].
  - cbn. left. reflexivity.
Qed.

End Verdict.

(** A run always returns, and its final state is as [verdict] says. *)
Lemma runAgent_verdict (w : World) (goal : string) (config : AgentConfig.partial)
    (forcedId : option string) (s : Sys) :
  let finalConfig := AgentConfig.spread Engine.DEFAULT_CONFIG config in
  ∃ final s', Engine.runAgent w goal config forcedId s = (Ok final, s')
    ∧ verdict finalConfig (AgentConfig.maxSteps finalConfig) (view final).
Proof.
  intros finalConfig.
  assert (Hwp : wp (Engine.runAgent w goal config forcedId) (view (agent s))
                  (λ final v', view final = v'
                     ∧ verdict finalConfig (AgentConfig.maxSteps finalConfig) v') never).
  { unfold Engine.runAgent. fold finalConfig. cbv zeta.
    apply wp_bind, wp_quiet; [destruct forcedId; auto with quiet |]. intros stateId. cbv beta.
    do 2 wp_seq. apply wp_bind, wp_set_agent. cbv beta.
    change (view (AgentState.mk _ _ _ _ _ _ _ _ _ _ _))
      with (initial_view (AgentConfig.maxSteps finalConfig)).
    do 5 wp_seq.
    apply wp_bind, wp_try_catch.
    eapply wp_mono; [apply plan_and_run_verdict | |].
    - intros [] v1 Hout. cbv beta in Hout |- *. wp_seq. apply wp_gets_agent.
      intros final Hfinal. split; assumption.
    - intros e v1 ->.
      eapply wp_mono; [apply (on_agent_error_verdict w finalConfig stateId) | | auto].
      intros [] v2 Hout. cbv beta in Hout |- *. wp_seq. apply wp_gets_agent.
      intros final Hfinal. split; assumption. }
  specialize (Hwp s eq_refl).
  destruct (Engine.runAgent w goal config forcedId s) as [[final | e |] s'];
    [| destruct Hwp | destruct Hwp].
  exists final, s'. split; [reflexivity |]. destruct Hwp as [-> Hout]. exact Hout.
Qed.

(** With a retry budget that is not negative, and no tool call that
    writes a file, a run returns, it ends [completed], [failed] or
    [paused], and the status tells how the tasks ended: [completed], every
    task is done; [failed], a task failed, or the run never had a task (the
    planner was rejected); [paused], no task failed, a task is still
    pending and the step budget is used up. *)
Theorem run_ends_completed_failed_or_paused (w : World) (goal : string)
    (config : AgentConfig.partial) (forcedId : option string) (s : Sys) :
  ledger_spared w →
  (0 ≤ AgentConfig.maxRetries (AgentConfig.spread Engine.DEFAULT_CONFIG config))%Z →
  ∃ final s', Engine.runAgent w goal config forcedId s = (Ok final, s')
    ∧ ((AgentState.status final = RunStatus.completed
        ∧ Forall (λ x, x = TaskStatus.done) (statuses final))
       ∨ (AgentState.status final = RunStatus.failed
          ∧ (TaskStatus.failed ∈ statuses final ∨ AgentState.tasks final = []))
       ∨ (AgentState.status final = RunStatus.paused
          ∧ (TaskStatus.failed ∉ statuses final)
          ∧ TaskStatus.pending ∈ statuses final
          ∧ (AgentState.maxSteps final ≤ AgentState.stepsExecuted final)%Z)).
Proof.
  intros _ Hretries.
  destruct (runAgent_verdict w goal config forcedId s)
    as (final & s' & Hrun & Hmax & k & Hshape & Hstatus).
  exists final, s'. split; [exact Hrun |].
  destruct Hshape as (Hk & _ & _ & Hafter & _).
  cbn [view v_statuses v_status v_steps v_maxSteps] in *.
  destruct (AgentState.status final); try (exfalso; lia); try contradiction.
  - left. split; [reflexivity |]. apply Forall_lookup_2. exact Hstatus.
  - right; left. split; [reflexivity |]. destruct Hstatus as [Hnil | [j Hj]].
    + right. exact (fmap_nil_inv _ _ Hnil).
    + left. exact (list_elem_of_lookup_2 _ _ _ Hj).
  - right; right. split; [reflexivity |]. destruct Hstatus as (Hlt & Hout & Hnone).
    split; [| split].
    + intros Hin. apply list_elem_of_lookup_1 in Hin as [j Hj]. exact (Hnone j Hj).
    + apply (list_elem_of_lookup_2 _ k). apply Hafter; [lia | exact Hlt].
    + rewrite Hmax. exact Hout.
Qed.

Lemma run_ends_completed_failed_or_paused_example :
  ∃ final s', Engine.runAgent halting_world "g" AgentConfig.empty None Demo.fresh = (Ok final, s')
    ∧ ((AgentState.status final = RunStatus.completed
        ∧ Forall (λ x, x = TaskStatus.done) (statuses final))
       ∨ (AgentState.status final = RunStatus.failed
          ∧ (TaskStatus.failed ∈ statuses final ∨ AgentState.tasks final = []))
       ∨ (AgentState.status final = RunStatus.paused
          ∧ (TaskStatus.failed ∉ statuses final)
          ∧ TaskStatus.pending ∈ statuses final
          ∧ (AgentState.maxSteps final ≤ AgentState.stepsExecuted final)%Z)).
Proof.
  apply (run_ends_completed_failed_or_paused halting_world "g" AgentConfig.empty None Demo.fresh).
  - intros k. reflexivity.
  - cbn. lia.
Defined.

(** The tasks are started in the order of the plan, and none is skipped:
    in the final state the tasks that were started, each done or failed,
    come first, and every task after them is still pending. Each task
    started costs at most [maxRetries + 1] steps. *)
Theorem tasks_started_in_order (w : World) (goal : string)
    (config : AgentConfig.partial) (forcedId : option string) (s : Sys) :
  let finalConfig := AgentConfig.spread Engine.DEFAULT_CONFIG config in
  (0 ≤ AgentConfig.maxRetries finalConfig)%Z →
  ∃ final s' begun,
    Engine.runAgent w goal config forcedId s = (Ok final, s')
    ∧ statuses final
        = begun ++ replicate (length (AgentState.tasks final) - length begun) TaskStatus.pending
    ∧ Forall settled begun
    ∧ (0 ≤ AgentState.stepsExecuted final)%Z
    ∧ (AgentState.stepsExecuted final
       ≤ Z.of_nat (length begun) * (AgentConfig.maxRetries finalConfig + 1))%Z.
Proof.
  intros finalConfig Hretries.
  destruct (runAgent_verdict w goal config forcedId s)
    as (final & s' & Hrun & Hmax & k & Hshape & _).
  fold finalConfig in Hshape.
  destruct Hshape as (Hk & Hspent & Hbefore & Hafter & _).
  cbn [view v_statuses v_status v_steps v_maxSteps] in *.
  exists final, s', (take k (statuses final)).
  assert (Hlen : length (take k (statuses final)) = k) by (rewrite length_take; lia).
  assert (Htasks : length (AgentState.tasks final) = length (statuses final))
    by (unfold statuses; rewrite length_fmap; reflexivity).
  split; [exact Hrun |]. split; [| split; [| split]].
  - rewrite <- (take_drop k (statuses final)) at 1. f_equal.
    apply list_eq. intros j. rewrite lookup_drop, Hlen, Htasks.
    destruct (decide (j < length (statuses final) - k)) as [Hj | Hj].
    + rewrite Hafter by lia. symmetry. apply lookup_replicate_2. exact Hj.
    + rewrite lookup_ge_None_2 by lia. symmetry. apply lookup_replicate_None. lia.
  - apply Forall_lookup_2. intros j x Hj.
    pose proof (lookup_lt_Some _ _ _ Hj) as Hjk. rewrite Hlen in Hjk.
    rewrite lookup_take_lt in Hj by exact Hjk.
    apply (Hbefore j x Hjk Hj). exact Hretries.
  - unfold spent in Hspent. cbn [v_steps view] in Hspent. lia.
  - rewrite Hlen. unfold spent in Hspent. cbn [v_steps view] in Hspent.
    rewrite Z.max_r in Hspent by lia. lia.
Qed.

Lemma tasks_started_in_order_example :
  ∃ final s' begun,
    Engine.runAgent halting_world "g" AgentConfig.empty None Demo.fresh = (Ok final, s')
    ∧ statuses final
        = begun ++ replicate (length (AgentState.tasks final) - length begun) TaskStatus.pending
    ∧ Forall settled begun
    ∧ (0 ≤ AgentState.stepsExecuted final)%Z
    ∧ (AgentState.stepsExecuted final ≤ Z.of_nat (length begun) * (3 + 1))%Z.
Proof.
  apply (tasks_started_in_order halting_world "g" AgentConfig.empty None Demo.fresh).
  cbn. lia.
Defined.




(** ** What a run leaves as it is

    A relation between the state before and the state after that every
    step of a program respects is respected by the program, however it
    ends: with a value, with an exception, or out of fuel. *)

Definition rely (R : Sys → Sys → Prop) {A} (m : IO A) : Prop := ∀ s, R s (m s).2.

(** The assignments the loop makes to a task, and to the state object,
    the count of the steps apart. *)
Inductive task_update : (Task.t → Task.t) → Prop :=
  | tu_status x : task_update (Task.set_status x)
  | tu_result r : task_update (Task.set_result r)
  | tu_reflection r : task_update (Task.set_reflection r)
  | tu_startedAt t : task_update (Task.set_startedAt t)
  | tu_completedAt t : task_update (Task.set_completedAt t).

Inductive loop_update : (AgentState.t → AgentState.t) → Prop :=
  | lu_status x : loop_update (AgentState.set_status x)
  | lu_task i f :
      task_update f →
      loop_update (λ a, AgentState.set_tasks (alter f i (AgentState.tasks a)) a)
  | lu_log entry : loop_update (λ a, AgentState.set_log (AgentState.log a ++ [entry]) a)
  | lu_updatedAt t : loop_update (AgentState.set_updatedAt t)
  | lu_currentTask k : loop_update (AgentState.set_currentTask k).

(** A preorder that the clock, the identifiers drawn, the requests to the
    executor, the callback and the assignments of the loop respect. *)
Record Stable (R : Sys → Sys → Prop) : Prop := mkStable {
  st_refl : ∀ s, R s s;
  st_trans : ∀ s1 s2 s3, R s1 s2 → R s2 s3 → R s1 s3;
  st_clock : ∀ s, R s (tick_clock s);
  st_ids : ∀ s, R s (tick_ids s);
  st_exec : ∀ prompt s, R s (tick_exec (set_prompts (prompts s ++ [prompt]) s));
  st_emit : ∀ s, R s (set_emitted (emitted s ++ [agent s]) s);
  st_agent : ∀ g s, loop_update g → R s (set_agent (g (agent s)) s) }.

(** A relation that a request to the model and the count of a step
    respect as well. *)
Record Counting (R : Sys → Sys → Prop) : Prop := mkCounting {
  ct_llm : ∀ prompt s, R s (tick_llm (set_prompts (prompts s ++ [prompt]) s));
  ct_step :
    ∀ s, R s (set_agent
                (AgentState.set_stepsExecuted (AgentState.stepsExecuted (agent s) + 1)%Z
                                              (agent s)) s) }.

Section RelyRules.
Context {R : Sys → Sys → Prop} (HR : Stable R).

Lemma rely_ret {A} (a : A) : rely R (mret a).
Proof. intros s. apply (st_refl R HR). Qed.

Lemma rely_throw {A} (e : string) : rely R (throw e : IO A).
Proof. intros s. apply (st_refl R HR). Qed.

Lemma rely_diverge {A} : rely R (diverge : IO A).
Proof. intros s. apply (st_refl R HR). Qed.

Lemma rely_gets {A} (f : Sys → A) : rely R (gets f).
Proof. intros s. apply (st_refl R HR). Qed.

Lemma rely_bind {A B} (m : IO A) (k : A → IO B) :
  rely R m → (∀ a, rely R (k a)) → rely R (m ≫= k).
Proof.
  intros Hm Hk s. rewrite bind_unfold. specialize (Hm s).
  destruct (m s) as [[a | e |] s1]; cbn [snd] in *; [| exact Hm | exact Hm].
  exact (st_trans R HR _ _ _ Hm (Hk a s1)).
Qed.

Lemma rely_try_catch {A} (m : IO A) (handler : string → IO A) :
  rely R m → (∀ e, rely R (handler e)) → rely R (try_catch m handler).
Proof.
  intros Hm Hh s. unfold try_catch. specialize (Hm s).
  destruct (m s) as [[a | e |] s1]; cbn [snd] in *; [exact Hm | | exact Hm].
  exact (st_trans R HR _ _ _ Hm (Hh e s1)).
Qed.

Lemma rely_try_bind {A B} (m : IO A) (k : A → IO B) (handler : string → IO B) :
  rely R m → (∀ a, rely R (k a)) → (∀ e, rely R (handler e)) →
  rely R (try_bind m k handler).
Proof.
  intros Hm Hk Hh s. unfold try_bind. specialize (Hm s).
  destruct (m s) as [[a | e |] s1]; cbn [snd] in *; [| | exact Hm].
  - exact (st_trans R HR _ _ _ Hm (Hk a s1)).
  - exact (st_trans R HR _ _ _ Hm (Hh e s1)).
Qed.

Lemma rely_now (w : World) : rely R (now w).
Proof. intros s. apply (st_clock R HR). Qed.

Lemma rely_generateId (w : World) : rely R (generateId w).
Proof. intros s. apply (st_ids R HR). Qed.

Lemma rely_ask_executor (w : World) (prompt : string) : rely R (Engine.ask_executor w prompt).
Proof. intros s. apply (st_exec R HR). Qed.

Lemma rely_emit : rely R Engine.emit.
Proof. intros s. apply (st_emit R HR). Qed.

Lemma rely_update_agent (g : AgentState.t → AgentState.t) :
  loop_update g → rely R (Engine.update_agent g).
Proof. intros Hg s. apply (st_agent R HR), Hg. Qed.

Lemma rely_update_task (i : nat) (f : Task.t → Task.t) :
  task_update f → rely R (Engine.update_task i f).
Proof. intros Hf. apply rely_update_agent. constructor. exact Hf. Qed.

End RelyRules.

Create HintDb rely discriminated.

#[local] Hint Resolve rely_ret rely_throw rely_diverge rely_gets rely_now rely_generateId
  rely_ask_executor rely_emit : rely.
#[local] Hint Resolve rely_update_agent rely_update_task : rely.
#[local] Hint Constructors task_update loop_update : rely.

(** Takes a program apart along its sequences, handlers and branches. *)
Ltac rely_steps :=
  repeat first
    [ solve [eauto with rely]
    | match goal with
      | |- rely _ (_ ≫= _) => apply rely_bind; [assumption | | intros ?]
      | |- rely _ (try_catch _ _) => apply rely_try_catch; [assumption | | intros ?]
      | |- rely _ (try_bind _ _ _) =>
          apply rely_try_bind; [assumption | | intros ? | intros ?]
      | |- rely _ (when _ _) => unfold when
      | |- rely _ (match ?x with _ => _ end) => destruct x
      | |- rely _ (if ?b then _ else _) => destruct b
      end ].

Section RelyEngine.
Context (w : World) {R : Sys → Sys → Prop} (HR : Stable R).

Lemma rely_get_task (i : nat) : rely R (Engine.get_task i).
Proof. unfold Engine.get_task. rely_steps. Qed.

Lemma rely_log type message data : rely R (Engine.log w type message data).
Proof. unfold Engine.log. rely_steps. Qed.

Lemma rely_loadMemory : rely R (Memory.loadMemory w).
Proof. unfold Memory.loadMemory. rely_steps. Qed.

Lemma rely_formatMemoryForPrompt (goalId : option string) :
  rely R (Memory.formatMemoryForPrompt w goalId).
Proof.
  unfold Memory.formatMemoryForPrompt, Memory.getRecentMemory.
  pose proof rely_loadMemory. rely_steps.
Qed.

(** What else the loop over the tasks needs: the appends to the ledger
    respect the relation. *)
Context (H_entry : ∀ type content context goalId,
           rely R (Memory.addMemoryEntry w type content context goalId)).

Lemma rely_executeTaskWithTools (task : Task.t) : rely R (Engine.executeTaskWithTools w task).
Proof.
  unfold Engine.executeTaskWithTools.
  pose proof rely_formatMemoryForPrompt. pose proof rely_log. rely_steps.
Qed.

Context (finalConfig : AgentConfig.t) (stateId : string).

Lemma rely_on_error i task retries result e :
  rely R (Engine.on_error w finalConfig i task retries result e).
Proof. unfold Engine.on_error. pose proof rely_log. rely_steps. Qed.

(** A turn of the retry loop, step by step, under a relation that
    respects the requests to the model and the count of the steps. *)
Section Counted.
Context (HC : Counting R).

Lemma rely_callLLM (prompt : string) : rely R (Engine.callLLM w prompt).
Proof.
  intros s. unfold Engine.callLLM. destruct (llm w (llm_calls s)); apply (ct_llm R HC).
Qed.

Lemma rely_planTasks (goal memory : string) : rely R (Engine.planTasks w goal memory).
Proof. unfold Engine.planTasks. pose proof rely_callLLM. rely_steps. Qed.

Lemma rely_count_step :
  rely R (Engine.update_agent
            (λ a, AgentState.set_stepsExecuted (AgentState.stepsExecuted a + 1)%Z a)).
Proof. intros s. apply (ct_step R HC). Qed.

Lemma rely_reflectOnTask (task : Task.t) (result : string) :
  rely R (Engine.reflectOnTask w task result).
Proof. unfold Engine.reflectOnTask. pose proof rely_callLLM. rely_steps. Qed.

Lemma rely_after_execute i task retries result :
  rely R (Engine.after_execute w finalConfig i task retries result).
Proof.
  unfold Engine.after_execute.
  pose proof rely_log. pose proof rely_reflectOnTask. pose proof rely_count_step. rely_steps.
Qed.

Lemma rely_attempt i task retries result :
  rely R (Engine.attempt w finalConfig i task retries result).
Proof.
  unfold Engine.attempt.
  pose proof rely_executeTaskWithTools. pose proof rely_after_execute.
  pose proof rely_on_error. rely_steps.
Qed.

End Counted.

(** The loops, from a turn of the retry loop. *)
Section Looping.
Context (H_attempt : ∀ i task retries result,
           rely R (Engine.attempt w finalConfig i task retries result)).

Lemma rely_retry_loop fuel i task :
  ∀ retries result, rely R (Engine.retry_loop w finalConfig fuel i task retries result).
Proof.
  induction fuel as [| fuel IH]; intros retries result; cbn [Engine.retry_loop]; rely_steps.
Qed.

Lemma rely_run_task (i : nat) : rely R (Engine.run_task w finalConfig stateId i).
Proof.
  unfold Engine.run_task.
  pose proof rely_log. pose proof rely_get_task. pose proof rely_retry_loop. rely_steps.
Qed.

Lemma rely_for_tasks (indices : list nat) :
  rely R (Engine.for_tasks w finalConfig stateId indices).
Proof.
  induction indices as [| i rest IH]; cbn [Engine.for_tasks];
    pose proof rely_run_task; rely_steps.
Qed.

(** What else the run needs: the relation is respected when the plan is
    asked for and assigned, and when the goal record is written. *)
Context (H_planner : ∀ goal memory, rely R (Engine.planTasks w goal memory)).
Context (H_plan : ∀ tasks s, R s (set_agent (AgentState.set_tasks tasks (agent s)) s)).
Context (H_goal : ∀ status, rely R (Memory.updateGoalStatus w stateId status)).

Lemma rely_conclude : rely R (Engine.conclude w stateId).
Proof. unfold Engine.conclude. pose proof rely_log. rely_steps. Qed.

Lemma rely_on_agent_error (e : string) : rely R (Engine.on_agent_error w stateId e).
Proof. unfold Engine.on_agent_error. pose proof rely_log. rely_steps. Qed.

Lemma rely_set_plan (tasks : list Task.t) :
  rely R (Engine.update_agent (AgentState.set_tasks tasks)).
Proof. intros s. apply H_plan. Qed.

Lemma rely_plan_and_run (goal : string) :
  rely R (Engine.plan_and_run w finalConfig stateId goal).
Proof.
  unfold Engine.plan_and_run.
  pose proof rely_formatMemoryForPrompt. pose proof rely_log. pose proof rely_set_plan.
  pose proof rely_for_tasks. pose proof rely_conclude. rely_steps.
Qed.

End Looping.
End RelyEngine.

(** ** A run from its first snapshot on *)

(** The state in which [runAgent] has made its state object, and the
    rest of [runAgent] from there. *)
Definition begin (w : World) (goal : string) (config : AgentConfig.partial)
    (forcedId : option string) (s : Sys) : Sys :=
  let finalConfig := AgentConfig.spread Engine.DEFAULT_CONFIG config in
  let s1 := match forcedId with Some _ => s | None => tick_ids s end in
  let stateId := default (random_id w (ids_made s)) forcedId in
  set_agent
    (AgentState.mk stateId goal [] 0 [] RunStatus.planning 0
                   (AgentConfig.maxSteps finalConfig)
                   (clock w (clock_reads s1)) (clock w (S (clock_reads s1)))
                   (AgentConfig.autonomousMode finalConfig))
    (tick_clock (tick_clock s1)).

Definition started_run (w : World) (finalConfig : AgentConfig.t) (stateId goal : string)
    : IO AgentState.t :=
  Engine.emit;;
  Engine.log w LogType.info ("Starting agent with goal: " +:+ goal) None;;
  Memory.addGoal w goal stateId;;
  Memory.addMemoryEntry w MemoryType.goal goal None (Some stateId);;
  Engine.emit;;
  try_catch (Engine.plan_and_run w finalConfig stateId goal)
            (Engine.on_agent_error w stateId);;
  Engine.emit;;
  gets agent.

Lemma runAgent_begin (w : World) (goal : string) (config : AgentConfig.partial)
    (forcedId : option string) (s : Sys) :
  Engine.runAgent w goal config forcedId s
  = started_run w (AgentConfig.spread Engine.DEFAULT_CONFIG config)
                (default (random_id w (ids_made s)) forcedId) goal
                (begin w goal config forcedId s).
Proof. destruct forcedId; reflexivity. Qed.

Section RelyRun.
Context (w : World) {R : Sys → Sys → Prop} (HR : Stable R) (HC : Counting R).
Context (finalConfig : AgentConfig.t) (stateId : string).
Context (H_entry : ∀ type content context goalId,
           rely R (Memory.addMemoryEntry w type content context goalId)).
Context (H_plan : ∀ tasks s, R s (set_agent (AgentState.set_tasks tasks (agent s)) s)).
Context (H_goal : ∀ status, rely R (Memory.updateGoalStatus w stateId status)).
Context (H_addGoal : ∀ goal, rely R (Memory.addGoal w goal stateId)).


Lemma rely_started_run (goal : string) : rely R (started_run w finalConfig stateId goal).
Proof.
  unfold started_run.
  pose proof (rely_log w HR).
  assert (Hattempt : ∀ i task retries result,
            rely R (Engine.attempt w finalConfig i task retries result))
    by (intros; apply (rely_attempt w HR H_entry), HC).
  pose proof (rely_plan_and_run w HR H_entry finalConfig stateId Hattempt
                (rely_planTasks w HR HC) H_plan H_goal).
  pose proof (rely_on_agent_error w HR stateId H_goal).
  rely_steps.
Qed.

End RelyRun.

(** ** The snapshots of a run *)

(** What a run never changes in its state object. *)
Definition identity (a : AgentState.t) : string * string * Z * string * bool :=
  (AgentState.id a, AgentState.goal a, AgentState.maxSteps a, AgentState.createdAt a,
   AgentState.autonomous a).

(** [a'] is the state object of [a] at the same time or later: the
    same run, its log continued, no step taken back. *)
Definition later (a a' : AgentState.t) : Prop :=
  identity a' = identity a
  ∧ AgentState.log a `prefix_of` AgentState.log a'
  ∧ (AgentState.stepsExecuted a ≤ AgentState.stepsExecuted a')%Z.

Lemma later_refl (a : AgentState.t) : later a a.
Proof. split; [reflexivity |]. split; [reflexivity | lia]. Qed.

Lemma later_trans (a b c : AgentState.t) : later a b → later b c → later a c.
Proof.
  intros (Hi1 & Hl1 & Hs1) (Hi2 & Hl2 & Hs2).
  split; [congruence |]. split; [etrans; eassumption | lia].
Qed.

(** From [s] to [s'] the state object has moved on, and the snapshots
    handed to the callback in between were taken in this order on the
    way. *)
Definition handed_on (s s' : Sys) : Prop :=
  later (agent s) (agent s')
  ∧ ∃ new, emitted s' = emitted s ++ new
      ∧ Forall (λ a, later (agent s) a ∧ later a (agent s')) new
      ∧ StronglySorted later new.

Lemma handed_on_quietly (s s' : Sys) :
  agent s' = agent s → emitted s' = emitted s → handed_on s s'.
Proof.
  intros Hagent Hemitted. split; [rewrite Hagent; apply later_refl |].
  exists []. rewrite app_nil_r. split; [exact Hemitted |]. split; constructor.
Qed.

Lemma handed_on_update (s : Sys) (a' : AgentState.t) :
  later (agent s) a' → handed_on s (set_agent a' s).
Proof.
  intros Hlater. split; [exact Hlater |].
  exists []. rewrite app_nil_r. split; [reflexivity |]. split; constructor.
Qed.

Lemma loop_update_later (g : AgentState.t → AgentState.t) (a : AgentState.t) :
  loop_update g → later a (g a).
Proof.
  intros [x | i f Hf | entry | t | k]; (split; [reflexivity |]); cbn;
    (split; [try reflexivity | try lia]).
  apply prefix_app_r. reflexivity.
Qed.

Lemma stable_handed_on : Stable handed_on.
Proof.
  constructor.
  - intros s. apply handed_on_quietly; reflexivity.
  - intros s1 s2 s3 (Hl1 & new1 & He1 & Hf1 & Hs1) (Hl2 & new2 & He2 & Hf2 & Hs2).
    split; [exact (later_trans _ _ _ Hl1 Hl2) |].
    exists (new1 ++ new2). split; [rewrite He2, He1, app_assoc; reflexivity |].
    rewrite Forall_forall in Hf1, Hf2. split.
    + apply Forall_app. split; apply Forall_forall; intros a Ha.
      * destruct (Hf1 a Ha) as [Hb Ha']. split; [exact Hb |]. exact (later_trans _ _ _ Ha' Hl2).
      * destruct (Hf2 a Ha) as [Hb Ha']. split; [| exact Ha']. exact (later_trans _ _ _ Hl1 Hb).
    + apply StronglySorted_app_2; [| exact Hs1 | exact Hs2].
      intros a b Ha Hb. destruct (Hf1 a Ha) as [_ Ha']. destruct (Hf2 b Hb) as [Hb' _].
      exact (later_trans _ _ _ Ha' Hb').
  - intros s. apply handed_on_quietly; reflexivity.
  - intros s. apply handed_on_quietly; reflexivity.
  - intros prompt s. apply handed_on_quietly; reflexivity.
  - intros s. split; [apply later_refl |]. exists [agent s]. split; [reflexivity |].
    split; [repeat constructor; apply later_refl | repeat constructor].
  - intros g s Hg. apply handed_on_update, loop_update_later, Hg.
Qed.

Lemma counting_handed_on : Counting handed_on.
Proof.
  constructor.
  - intros prompt s. apply handed_on_quietly; reflexivity.
  - intros s. apply handed_on_update. split; [reflexivity |]. split; [reflexivity | cbn; lia].
Qed.

(** The ledger is kept apart from the state object and the callback. *)
Lemma addMemoryEntry_apart (w : World) type content context goalId (s : Sys) :
  let s' := (Memory.addMemoryEntry w type content context goalId s).2 in
  agent s' = agent s ∧ emitted s' = emitted s ∧ llm_calls s' = llm_calls s.
Proof. destruct s as [[memory |] ag em pr c i l x]; repeat split. Qed.

Lemma addGoal_apart (w : World) (goal id : string) (s : Sys) :
  let s' := (Memory.addGoal w goal id s).2 in
  agent s' = agent s ∧ emitted s' = emitted s ∧ llm_calls s' = llm_calls s.
Proof. destruct s as [[memory |] ag em pr c i l x]; repeat split. Qed.

Lemma updateGoalStatus_apart (w : World) (goalId : string) (status : GoalStatus.t) (s : Sys) :
  let s' := (Memory.updateGoalStatus w goalId status s).2 in
  agent s' = agent s ∧ emitted s' = emitted s ∧ llm_calls s' = llm_calls s.
Proof.
  destruct s as [[memory |] ag em pr c i l x];
    unfold Memory.updateGoalStatus, Memory.loadMemory, Memory.saveMemory, now; unfold_monad;
    cbn [memory_file PersistentMemory.goals].
  - destruct (list_find _ _) as [[j g] |]; [| repeat split].
    destruct (Memory.is_terminal status); repeat split.
  - repeat split.
Qed.

Lemma started_run_handed_on (w : World) (finalConfig : AgentConfig.t) (stateId goal : string) :
  rely handed_on (started_run w finalConfig stateId goal).
Proof.
  apply (rely_started_run w stable_handed_on counting_handed_on).
  - intros type content context goalId s.
    destruct (addMemoryEntry_apart w type content context goalId s) as (Ha & He & _).
    apply handed_on_quietly; assumption.
  - intros tasks s. apply handed_on_update. split; [reflexivity |]. split; [reflexivity | cbn; lia].
  - intros status s.
    destruct (updateGoalStatus_apart w stateId status s) as (Ha & He & _).
    apply handed_on_quietly; assumption.
  - intros goal' s.
    destruct (addGoal_apart w goal' stateId s) as (Ha & He & _).
    apply handed_on_quietly; assumption.
Qed.

Lemma StronglySorted_lookup {A} (R : relation A) (l : list A) (i j : nat) (a b : A) :
  StronglySorted R l → i < j → l !! i = Some a → l !! j = Some b → R a b.
Proof.
  intros Hsorted. revert i j. induction Hsorted as [| x l Hl IH Hx]; intros i j Hij Hi Hj.
  - discriminate Hi.
  - destruct j as [| j]; [lia |]. cbn in Hj. destruct i as [| i].
    + injection Hi as <-. rewrite Forall_forall in Hx.
      apply Hx, (list_elem_of_lookup_2 _ _ _ Hj).
    + cbn in Hi. apply (IH i j); [lia | assumption | assumption].
Qed.

(** [runAgent] returns the state object as it is in the end. *)
Lemma runAgent_returns_agent (w : World) goal config forcedId (s s' : Sys) final :
  Engine.runAgent w goal config forcedId s = (Ok final, s') → agent s' = final.
Proof.
  unfold Engine.runAgent. cbv zeta. intros H.
  do 11 (apply bind_ok_inv in H as (? & ? & _ & H)).
  unfold gets in H. injection H as <- <-. reflexivity.
Qed.

(** A run, which always returns, as its snapshots show it. *)
Lemma run_snapshots (w : World) (goal : string) (config : AgentConfig.partial)
    (forcedId : option string) (s : Sys) :
  ∃ final s' snapshots,
    Engine.runAgent w goal config forcedId s = (Ok final, s')
    ∧ emitted s' = emitted s ++ snapshots
    ∧ later (agent (begin w goal config forcedId s)) final
    ∧ Forall (λ a, later (agent (begin w goal config forcedId s)) a ∧ later a final) snapshots
    ∧ StronglySorted later snapshots.
Proof.
  destruct (runAgent_outcome w goal config forcedId s) as (final & s' & Hrun & _).
  pose proof (runAgent_returns_agent _ _ _ _ _ _ _ Hrun) as Hfinal.
  pose proof (started_run_handed_on w (AgentConfig.spread Engine.DEFAULT_CONFIG config)
                (default (random_id w (ids_made s)) forcedId) goal
                (begin w goal config forcedId s)) as (Hlater & new & Hnew & Hall & Hsorted).
  rewrite <- runAgent_begin, Hrun in Hlater, Hnew, Hall. cbn [snd] in Hlater, Hnew, Hall.
  rewrite Hfinal in Hlater, Hall.
  exists final, s', new. split; [exact Hrun |]. split.
  { rewrite Hnew. destruct forcedId; reflexivity. }
  split; [exact Hlater |]. split; [exact Hall | exact Hsorted].
Qed.

(** The snapshots a run hands to its callback are in causal order: of
    two snapshots, the log of the earlier one is the beginning of the log
    of the later one, and the later one counts at least as many steps; the
    state returned in the end is at or after every snapshot. *)
Theorem snapshots_in_causal_order (w : World) (goal : string) (config : AgentConfig.partial)
    (forcedId : option string) (s : Sys) :
  ∃ final s' snapshots,
    Engine.runAgent w goal config forcedId s = (Ok final, s')
    ∧ emitted s' = emitted s ++ snapshots
    ∧ (∀ i j a b, i < j → snapshots !! i = Some a → snapshots !! j = Some b →
         AgentState.log a `prefix_of` AgentState.log b
         ∧ (AgentState.stepsExecuted a ≤ AgentState.stepsExecuted b)%Z)
    ∧ (∀ a, a ∈ snapshots →
         AgentState.log a `prefix_of` AgentState.log final
         ∧ (0 ≤ AgentState.stepsExecuted a ≤ AgentState.stepsExecuted final)%Z).
Proof.
  destruct (run_snapshots w goal config forcedId s)
    as (final & s' & snapshots & Hrun & Hnew & _ & Hall & Hsorted).
  exists final, s', snapshots. split; [exact Hrun |]. split; [exact Hnew |]. split.
  - intros i j a b Hij Ha Hb.
    destruct (StronglySorted_lookup later snapshots i j a b Hsorted Hij Ha Hb) as (_ & Hlog & Hsteps).
    split; assumption.
  - intros a Ha. rewrite Forall_forall in Hall.
    destruct (Hall a Ha) as [(_ & _ & Hfrom) (_ & Hlog & Hsteps)].
    split; [exact Hlog |]. destruct forcedId; cbn in Hfrom; lia.
Qed.

(** Every snapshot of a run, and the state it returns, carries the
    identifier of the run (the one forced on it, or else the one drawn),
    its goal, and the step budget and the autonomy of its configuration. *)
Theorem snapshots_carry_run_identity (w : World) (goal : string)
    (config : AgentConfig.partial) (forcedId : option string) (s : Sys) :
  let finalConfig := AgentConfig.spread Engine.DEFAULT_CONFIG config in
  ∃ final s' snapshots,
    Engine.runAgent w goal config forcedId s = (Ok final, s')
    ∧ emitted s' = emitted s ++ snapshots
    ∧ Forall (λ a, AgentState.id a = default (random_id w (ids_made s)) forcedId
                   ∧ AgentState.goal a = goal
                   ∧ AgentState.maxSteps a = AgentConfig.maxSteps finalConfig
                   ∧ AgentState.autonomous a = AgentConfig.autonomousMode finalConfig)
             (final :: snapshots).
Proof.
  intros finalConfig.
  destruct (run_snapshots w goal config forcedId s)
    as (final & s' & snapshots & Hrun & Hnew & Hfinal & Hall & _).
  exists final, s', snapshots. split; [exact Hrun |]. split; [exact Hnew |].
  assert (Hid : ∀ a, later (agent (begin w goal config forcedId s)) a →
            AgentState.id a = default (random_id w (ids_made s)) forcedId
            ∧ AgentState.goal a = goal
            ∧ AgentState.maxSteps a = AgentConfig.maxSteps finalConfig
            ∧ AgentState.autonomous a = AgentConfig.autonomousMode finalConfig).
  { intros a (Hsame & _). unfold identity in Hsame. destruct forcedId; cbn in Hsame;
      injection Hsame as -> -> -> _ ->; repeat split. }
  constructor; [exact (Hid final Hfinal) |].
  eapply Forall_impl; [exact Hall |]. intros a [Ha _]. exact (Hid a Ha).
Qed.

(** The state a run returns carries its goal and the autonomy of its
    configuration. *)
Lemma snapshots_identity_of_run (w : World) (goal : string) (config : AgentConfig.partial)
    (forcedId : option string) (s : Sys) :
  ∃ final s', Engine.runAgent w goal config forcedId s = (Ok final, s')
    ∧ AgentState.goal final = goal
    ∧ AgentState.autonomous final
      = AgentConfig.autonomousMode (AgentConfig.spread Engine.DEFAULT_CONFIG config).
Proof.
  destruct (run_snapshots w goal config forcedId s)
    as (final & s' & snapshots & Hrun & _ & (Hsame & _) & _).
  exists final, s'. split; [exact Hrun |].
  unfold identity in Hsame. destruct forcedId; cbn in Hsame;
    injection Hsame as _ -> _ _ ->; split; reflexivity.
Qed.

(** ** Resuming *)

Lemma resume_each_goals (w : World) (unfinished : list GoalRecord.t) :
  ∀ (results : list AgentState.t) (s : Sys),
  ∃ more s', Engine.resume_each w unfinished results s = (Ok (results ++ more), s')
    ∧ AgentState.goal <$> more = GoalRecord.goal <$> unfinished
    ∧ Forall (λ a, AgentState.autonomous a = true) more.
Proof.
  induction unfinished as [| g rest IH]; intros results s; cbn [Engine.resume_each].
  - exists [], s. rewrite app_nil_r. repeat split. constructor.
  - destruct (snapshots_identity_of_run w (GoalRecord.goal g)
                (AgentConfig.mk_partial None None (Some true) None) None s)
      as (final & s1 & Hrun & Hgoal & Hauto).
    rewrite (bind_ok _ _ _ _ _ Hrun).
    destruct (IH (results ++ [final]) s1) as (more & s' & Hrest & Hgoals & Hautos).
    exists (final :: more), s'. rewrite Hrest, <- app_assoc. split; [reflexivity |].
    split; [cbn; rewrite Hgoal, Hgoals; reflexivity |].
    constructor; [exact Hauto | exact Hautos].
Qed.

(** When no tool call writes a file, [resumeUnfinishedGoals] runs every
    goal that the ledger holds [in_progress] when it is called, once each
    and in the order of the ledger, and every one of these runs is
    autonomous; it returns their final states in that order. *)
Theorem resume_runs_every_unfinished_goal (w : World) (s : Sys) :
  ledger_spared w →
  let unfinished := filter (λ g, GoalRecord.status g = GoalStatus.in_progress) (goal_table s) in
  ∃ results s', Engine.resumeUnfinishedGoals w s = (Ok results, s')
    ∧ AgentState.goal <$> results = GoalRecord.goal <$> unfinished
    ∧ Forall (λ a, AgentState.autonomous a = true) results.
Proof.
  intros _ unfinished. unfold Engine.resumeUnfinishedGoals.
  destruct (getUnfinishedGoals_table w s) as (s1 & Hget & _).
  rewrite (bind_ok _ _ _ _ _ Hget).
  destruct (resume_each_goals w unfinished [] s1) as (more & s' & Hrun & Hgoals & Hautos).
  exists more, s'. split; [exact Hrun |]. split; assumption.
Qed.

(** The ledger of the paused run [run-1], resumed. *)
Lemma resume_runs_every_unfinished_goal_example :
  ∃ results s', Engine.resumeUnfinishedGoals resuming_world paused_run.2 = (Ok results, s')
    ∧ AgentState.goal <$> results = ["tidy up"]
    ∧ Forall (λ a, AgentState.autonomous a = true) results.
Proof.
  destruct (resume_runs_every_unfinished_goal resuming_world paused_run.2)
    as (results & s' & Hrun & Hgoals & Hautos).
  - intros k. reflexivity.
  - exists results, s'. split; [exact Hrun |]. split; [| exact Hautos].
    rewrite Hgoals. vm_compute. reflexivity.
Defined.

(** ** The goal record of a run *)










Section RecordOfRun.
Context (w : World) (finalConfig : AgentConfig.t) (stateId : string).
Context (T : list GoalRecord.t) (g0 : GoalRecord.t).
Context (Hid : GoalRecord.id g0 = stateId) (Hfresh : stateId ∉ GoalRecord.id <$> T).






End RecordOfRun.



(** ** A planner that is rejected *)

(** A step beside the run: it ends well and leaves the state object and
    the count of the requests to the model and to the executor as they
    are. *)
Definition aside {A} (m : IO A) : Prop :=
  ∀ s, ∃ a s', m s = (Ok a, s')
    ∧ agent s' = agent s ∧ llm_calls s' = llm_calls s ∧ exec_calls s' = exec_calls s.

Lemma formatMemoryForPrompt_aside (w : World) (goalId : option string) :
  aside (Memory.formatMemoryForPrompt w goalId).
Proof.
  intros [[memory |] ag em pr c i l x];
    unfold Memory.formatMemoryForPrompt, Memory.getRecentMemory, Memory.loadMemory, now;
    unfold_monad; cbn [memory_file];
    match goal with |- context [if ?b then _ else _] => destruct b end;
    eexists _, _; repeat split.
Qed.

Lemma addGoal_aside (w : World) (goal id : string) : aside (Memory.addGoal w goal id).
Proof.
  intros [[memory |] ag em pr c i l x];
    unfold Memory.addGoal, Memory.loadMemory, Memory.saveMemory, now; unfold_monad; cbn;
    eexists _, _; repeat split.
Qed.

Lemma addMemoryEntry_aside (w : World) type content context goalId :
  aside (Memory.addMemoryEntry w type content context goalId).
Proof.
  intros [[memory |] ag em pr c i l x];
    unfold Memory.addMemoryEntry, Memory.loadMemory, Memory.saveMemory, generateId, now;
    unfold_monad; cbn -[Nat.ltb Js.slice_from];
    eexists _, _; repeat split.
Qed.

Lemma updateGoalStatus_aside (w : World) (goalId : string) (status : GoalStatus.t) :
  aside (Memory.updateGoalStatus w goalId status).
Proof.
  intros [[memory |] ag em pr c i l x];
    unfold Memory.updateGoalStatus, Memory.loadMemory, Memory.saveMemory, now; unfold_monad;
    cbn [memory_file PersistentMemory.goals].
  - destruct (list_find _ _) as [[j g] |]; [| eexists _, _; repeat split].
    destruct (Memory.is_terminal status); eexists _, _; repeat split.
  - eexists _, _; repeat split.
Qed.

(** The state object after a line was logged at the clock reading [k]. *)
Definition logged (w : World) (k : nat) type message data (a : AgentState.t) : AgentState.t :=
  AgentState.set_updatedAt (clock w (S k))
    (AgentState.set_log (AgentState.log a ++ [AgentLogEntry.mk (clock w k) type message data])
                        a).

Lemma log_run (w : World) type message data (s : Sys) :
  ∃ s', Engine.log w type message data s = (Ok (), s')
    ∧ agent s' = logged w (clock_reads s) type message data (agent s)
    ∧ llm_calls s' = llm_calls s ∧ exec_calls s' = exec_calls s.
Proof.
  unfold Engine.log, Engine.update_agent, now. unfold_monad. cbn.
  eexists. repeat split.
Qed.

(** When the model rejects the request of the planner, the run still
    returns. It ends [failed] with no task and no step; its log holds the
    line of its start and the line of the error, which carries the message
    of the rejection; the model was asked once and the executor never. *)
Theorem planner_rejection_fails_run (w : World) (goal : string)
    (config : AgentConfig.partial) (forcedId : option string) (s : Sys) (message : string) :
  llm w (llm_calls s) = Rejected message →
  ∃ final s',
    Engine.runAgent w goal config forcedId s = (Ok final, s')
    ∧ AgentState.status final = RunStatus.failed
    ∧ AgentState.tasks final = []
    ∧ AgentState.stepsExecuted final = 0%Z
    ∧ (λ e, (AgentLogEntry.type e, AgentLogEntry.message e)) <$> AgentState.log final
      = [ (LogType.info, "Starting agent with goal: " +:+ goal);
          (LogType.error, "Agent error: " +:+ message) ]
    ∧ llm_calls s' = S (llm_calls s)
    ∧ exec_calls s' = exec_calls s.
Proof.
  intros Hrejected. rewrite runAgent_begin.
  set (finalConfig := AgentConfig.spread Engine.DEFAULT_CONFIG config).
  set (stateId := default (random_id w (ids_made s)) forcedId).
  set (s0 := begin w goal config forcedId s).
  assert (Hl0 : llm_calls s0 = llm_calls s) by (destruct forcedId; reflexivity).
  assert (Hx0 : exec_calls s0 = exec_calls s) by (destruct forcedId; reflexivity).
  unfold started_run.
  rewrite (bind_ok _ _ s0 (set_emitted (emitted s0 ++ [agent s0]) s0) ()) by reflexivity.
  set (s1 := set_emitted (emitted s0 ++ [agent s0]) s0).
  destruct (log_run w LogType.info ("Starting agent with goal: " +:+ goal) None s1)
    as (s2 & Hrun2 & Ha2 & Hl2 & Hx2).
  rewrite (bind_ok _ _ _ _ _ Hrun2).
  destruct (addGoal_aside w goal stateId s2) as ([] & s3 & Hrun3 & Ha3 & Hl3 & Hx3).
  rewrite (bind_ok _ _ _ _ _ Hrun3).
  destruct (addMemoryEntry_aside w MemoryType.goal goal None (Some stateId) s3)
    as (entry & s4 & Hrun4 & Ha4 & Hl4 & Hx4).
  rewrite (bind_ok _ _ _ _ _ Hrun4).
  rewrite (bind_ok _ _ s4 (set_emitted (emitted s4 ++ [agent s4]) s4) ()) by reflexivity.
  set (s5 := set_emitted (emitted s4 ++ [agent s4]) s4).
  (* the planner is asked, and rejected *)
  rewrite bind_unfold. unfold try_catch, Engine.plan_and_run.
  destruct (formatMemoryForPrompt_aside w None s5) as (memory & s6 & Hrun6 & Ha6 & Hl6 & Hx6).
  rewrite (bind_ok _ _ _ _ _ Hrun6).
  rewrite bind_unfold. unfold Engine.planTasks. rewrite bind_unfold. unfold Engine.callLLM.
  assert (Hcalls : llm_calls s6 = llm_calls s).
  { rewrite Hl6. change (llm_calls s5) with (llm_calls s4).
    rewrite Hl4, Hl3, Hl2. exact Hl0. }
  rewrite Hcalls, Hrejected.
  set (s7 := tick_llm (set_prompts (prompts s6 ++ [Engine.planner_prompt goal memory]) s6)).
  cbv iota beta. unfold Engine.on_agent_error.
  destruct (log_run w LogType.error ("Agent error: " +:+ message) None s7)
    as (s8 & Hrun8 & Ha8 & Hl8 & Hx8).
  rewrite (bind_ok _ _ _ _ _ Hrun8).
  rewrite (bind_ok _ _ s8 (set_agent (AgentState.set_status RunStatus.failed (agent s8)) s8) ())
    by reflexivity.
  destruct (updateGoalStatus_aside w stateId GoalStatus.failed
              (set_agent (AgentState.set_status RunStatus.failed (agent s8)) s8))
    as ([] & s9 & Hrun9 & Ha9 & Hl9 & Hx9).
  rewrite Hrun9. cbv iota beta.
  exists (agent s9), (set_emitted (emitted s9 ++ [agent s9]) s9).
  split; [reflexivity |].
  assert (Hfinal : agent s9
            = AgentState.set_status RunStatus.failed
                (logged w (clock_reads s7) LogType.error ("Agent error: " +:+ message) None
                   (logged w (clock_reads s1) LogType.info
                      ("Starting agent with goal: " +:+ goal) None (agent s0)))).
  { rewrite Ha9. cbn [agent set_agent]. rewrite Ha8. change (agent s7) with (agent s6).
    rewrite Ha6. change (agent s5) with (agent s4). rewrite Ha4, Ha3, Ha2. reflexivity. }
  rewrite Hfinal. repeat split.
  - cbn [llm_calls set_emitted]. rewrite Hl9. cbn [llm_calls set_agent]. rewrite Hl8.
    unfold s7. cbn [llm_calls tick_llm set_prompts]. rewrite Hcalls. reflexivity.
  - cbn [exec_calls set_emitted]. rewrite Hx9. cbn [exec_calls set_agent]. rewrite Hx8.
    change (exec_calls s7) with (exec_calls s6). rewrite Hx6.
    change (exec_calls s5) with (exec_calls s4). rewrite Hx4, Hx3, Hx2. exact Hx0.
Qed.

(** The model rejects every request. *)
Definition rejecting_world : World :=
  Demo.world (λ _, Rejected "quota exceeded") (λ _, ExecDirect "ok").

Lemma planner_rejection_fails_run_example :
  ∃ final s',
    Engine.runAgent rejecting_world "g" AgentConfig.empty None Demo.fresh = (Ok final, s')
    ∧ AgentState.status final = RunStatus.failed
    ∧ AgentState.tasks final = []
    ∧ AgentState.stepsExecuted final = 0%Z
    ∧ (λ e, (AgentLogEntry.type e, AgentLogEntry.message e)) <$> AgentState.log final
      = [ (LogType.info, "Starting agent with goal: g");
          (LogType.error, "Agent error: quota exceeded") ]
    ∧ llm_calls s' = 1
    ∧ exec_calls s' = 0.
Proof.
  apply (planner_rejection_fails_run rejecting_world "g" AgentConfig.empty None Demo.fresh
           "quota exceeded").
  reflexivity.
Defined.

(** ** The worker, for every job *)

Lemma string_length_append (a b : string) :
  String.length (a +:+ b) = String.length a + String.length b.
Proof.
  induction a as [| x a IH]; [reflexivity |].
  change (String x a +:+ b) with (String x (a +:+ b)). cbn [String.length].
  rewrite IH. reflexivity.
Qed.

Lemma append_cancel_r (a b c : string) : a +:+ c = b +:+ c → a = b.
Proof.
  revert b. induction a as [| x a IH]; intros [| y b] H.
  - reflexivity.
  - exfalso. apply (f_equal String.length) in H.
    rewrite !string_length_append in H. cbn [String.length] in H. lia.
  - exfalso. apply (f_equal String.length) in H.
    rewrite !string_length_append in H. cbn [String.length] in H. lia.
  - change (String x (a +:+ c) = String y (b +:+ c)) in H.
    injection H as -> H. f_equal. exact (IH b H).
Qed.

(** Different runs have different keys. *)
Lemma redisKeyAgentState_inj (a b : string) :
  Worker.redisKeyAgentState a = Worker.redisKeyAgentState b → a = b.
Proof.
  unfold Worker.redisKeyAgentState. intros H.
  apply (inj (String.app "agent:")) in H. exact (append_cancel_r a b ":state" H).
Qed.

(** For every job whose run returns, whatever its final status: the
    processor returns the identifier of the job and the final status of
    the run, whose state carries the identifier of the job; it has
    published on the channel of the job, in this order, the start of the
    job, one state event for each snapshot of the run, the last of them
    with the final state, and one [done] event, [completed] for a completed
    run and [failed] for any other; the key of the job holds the final
    state for one hour, and the key of no other job has changed. *)
Theorem worker_reports_every_job (w : World) (late : nat → AgentState.t)
    (job : Worker.AgentJobPayload) (s s' : Sys) (r : Worker.Redis) (final : AgentState.t) :
  Engine.runAgent w (Worker.goal job) (default AgentConfig.empty (Worker.config job))
                  (Some (Worker.agentId job)) (set_emitted [] s) = (Ok final, s') →
  let id := Worker.agentId job in
  let channel := Worker.redisChannelAgentEvents id in
  ∃ r' states,
    Worker.process_job w late job s r = (Ok (id, AgentState.status final), s', r')
    ∧ AgentState.id final = id
    ∧ Worker.published r'
        = Worker.published r
            ++ [(channel, Worker.log_event id Worker.info "Job started")]
            ++ ((λ st, (channel, Worker.state_event id st)) <$> states)
            ++ [(channel,
                 Worker.done_event id
                   (if decide (AgentState.status final = RunStatus.completed)
                    then Worker.completed else Worker.failed))]
    ∧ length states = length (emitted s')
    ∧ last states = Some final
    ∧ Worker.store r' !! Worker.redisKeyAgentState id = Some (final, 3600%Z)
    ∧ (∀ other, other ≠ id →
         Worker.store r' !! Worker.redisKeyAgentState other
         = Worker.store r !! Worker.redisKeyAgentState other).
Proof.
  intros Hrun id channel.
  destruct (run_snapshots w (Worker.goal job) (default AgentConfig.empty (Worker.config job))
              (Some id) (set_emitted [] s))
    as (final' & s'' & snapshots & Hrun' & _ & (Hsame & _) & _).
  fold id in Hrun. rewrite Hrun in Hrun'. injection Hrun' as <- <-.
  destruct (callbacks_published id late (Some final) (emitted s') 0
              (Worker.publish id (Worker.log_event id Worker.info "Job started") r))
    as (states & Hpub & Hlen & _ & Hlast).
  unfold Worker.process_job. fold id. rewrite Hrun.
  eexists _, states. split; [reflexivity |].
  split; [| split; [| split; [| split; [| split]]]].
  - unfold identity in Hsame. cbn in Hsame. injection Hsame as -> _ _ _ _. reflexivity.
  - cbn [Worker.published Worker.publish Worker.set_state]. rewrite Hpub.
    cbn [Worker.published Worker.publish]. rewrite <- !app_assoc. reflexivity.
  - exact Hlen.
  - apply Hlast; [reflexivity |]. exact (runAgent_emits _ _ _ _ _ _ _ Hrun).
  - cbn [Worker.store Worker.publish Worker.set_state]. apply lookup_insert_eq.
  - intros other Hother.
    assert (Hkey : Worker.redisKeyAgentState other ≠ Worker.redisKeyAgentState id).
    { intros Heq. apply Hother, redisKeyAgentState_inj, Heq. }
    cbn [Worker.store Worker.publish Worker.set_state].
    rewrite lookup_insert_ne by (intros Heq; apply Hkey; symmetry; exact Heq).
    rewrite callbacks_store by exact Hkey. reflexivity.
Qed.

(** A job that completes: one task, done at the first attempt. *)
Definition done_job : Worker.AgentJobPayload := Worker.mkJob "run-2" "tidy up" None.
Definition done_run : Result AgentState.t * Sys :=
  Engine.runAgent (plan_world 1) "tidy up" AgentConfig.empty (Some "run-2")
                  (set_emitted [] Demo.fresh).
Definition done_final : AgentState.t :=
  match done_run.1 with Ok final => final | _ => Demo.blank end.

Lemma worker_reports_every_job_example :
  ∃ r' states,
    Worker.process_job (plan_world 1) (λ _, Demo.blank) done_job Demo.fresh (Worker.mkRedis ∅ [])
      = (Ok ("run-2", RunStatus.completed), done_run.2, r')
    ∧ last (Worker.published r')
        = Some ("agent:run-2:events", Worker.done_event "run-2" Worker.completed)
    ∧ length states = length (emitted done_run.2)
    ∧ last states = Some done_final
    ∧ Worker.store r' !! "agent:run-2:state" = Some (done_final, 3600%Z).
Proof.
  destruct (worker_reports_every_job (plan_world 1) (λ _, Demo.blank) done_job Demo.fresh
              done_run.2 (Worker.mkRedis ∅ []) done_final)
    as (r' & states & Hjob & _ & Hpub & Hlen & Hlast & Hstore & _).
  - vm_compute. reflexivity.
  - exists r', states. split; [exact Hjob |]. split; [| split; [| split]].
    + rewrite Hpub, !app_assoc. apply last_snoc.
    + exact Hlen.
    + exact Hlast.
    + exact Hstore.
Defined.

(** ** The sandbox: subprocesses and fetches *)

Section HostFacts.
Context (root : string) (child : Host.Spawn → Host.ProcessOutcome)
        (server : string → Host.FetchOutcome) (is_url : string → bool).

(** The child that [run_command] asks for, in the directory [cwd]. *)
Definition requested (raw : Host.RunCommandArgs) (cwd : string) : Host.Spawn :=
  Host.mkSpawn (Host.rc_cmd raw) (default [] (Host.rc_args raw)) cwd
               (default [] (Host.rc_env raw)).

(** [run_command], by the way it takes. *)
Lemma run_command_cases (raw : Host.RunCommandArgs) (h : Host.t) :
  let cwd := Path.resolve root (default "." (Host.rc_cwd raw)) in
  let run := Host.executeTool root child server is_url (Host.run_command raw) h in
  (run.2 = h ∧ ∃ code message, run.1 = Ok (Host.err code message)
     ∧ (code = "TOOL_ERROR" ∨ (code = "CMD_NOT_ALLOWED" ∧ Host.rc_cmd raw ∉ Host.ALLOWLIST)))
  ∨ (Host.rc_cmd raw ∈ Host.ALLOWLIST
     ∧ Js.startsWith cwd root = true
     ∧ run.2 = Host.mk (Host.disk h) (Host.spawned h ++ [requested raw cwd]) (Host.fetched h)
     ∧ match child (requested raw cwd) with
       | Host.Closed code stdout stderr =>
           run.1 = Ok (Host.ok
                         (Host.CommandOutput code
                            (String.substring 0 (Z.to_nat 50000) stdout)
                            (String.substring 0 (Z.to_nat 50000) stderr)
                            ((Z.to_nat 50000 <? String.length stdout)%nat
                             || (Z.to_nat 50000 <? String.length stderr)%nat)))
       | Host.TimedOut => ∃ message, run.1 = Ok (Host.err "TIMEOUT" message)
       | Host.SpawnFailed message => run.1 = Ok (Host.err "SPAWN_ERROR" message)
       | Host.SpawnThrew message => run.1 = Ok (Host.err "TOOL_ERROR" message)
       end).
Proof.
  cbv zeta. unfold Host.executeTool, Host.run_run_command, Host.parseRunCommandArgs.
  unfold try_catch. rewrite bind_unfold.
  destruct (negb (Host.rc_cmd raw =? "")%string && _) eqn:Hvalid.
  2: { left. destruct h. split; [reflexivity |]. eexists _, _. split; [reflexivity |]. auto. }
  change ((mret ?a : Host.Run Host.RunCommandArgs) h) with (Ok a, h). cbv iota beta.
  unfold Host.runCommandSandbox. cbn [Host.rc_cmd Host.rc_cwd Host.rc_args Host.rc_env
    Host.rc_timeoutMs default id].
  destruct (decide (Host.rc_cmd raw ∈ Host.ALLOWLIST)) as [Hin | Hout].
  2: { rewrite bool_decide_eq_false_2 by exact Hout. left. destruct h.
       split; [reflexivity |]. eexists _, _. split; [reflexivity |]. auto. }
  rewrite bool_decide_eq_true_2 by exact Hin. cbn [negb].
  rewrite bind_unfold. unfold Host.on_disk.
  destruct (safeResolve_cases root (default "." (Host.rc_cwd raw)) (Host.disk h))
    as [[-> Hinside] | [-> _]].
  2: { left. destruct h. split; [reflexivity |]. eexists _, _. split; [reflexivity |]. auto. }
  right. split; [exact Hin |]. split; [exact Hinside |].
  rewrite bind_unfold. unfold Host.spawn. cbv iota beta. cbn [Host.disk Host.spawned Host.fetched].
  fold (requested raw (Path.resolve root (default "." (Host.rc_cwd raw)))).
  destruct (child _) as [code stdout stderr | | message | message];
    (split; [reflexivity |]); eauto.
Qed.

(** [run_command] starts at most one child, and only a command of the
    allow-list, with the arguments as given and in a directory that passes
    the prefix test. A command that is not in the list is answered with
    an error, and no child is started for it. What a child does once it
    runs is not for the sandbox to say. *)
Theorem run_command_spawns_only_allowlisted (raw : Host.RunCommandArgs) (h : Host.t) :
  let cwd := Path.resolve root (default "." (Host.rc_cwd raw)) in
  let run := Host.executeTool root child server is_url (Host.run_command raw) h in
  (Host.spawned run.2 = Host.spawned h
   ∨ (Host.spawned run.2 = Host.spawned h ++ [requested raw cwd]
      ∧ Host.rc_cmd raw ∈ Host.ALLOWLIST
      ∧ Js.startsWith cwd root = true))
  ∧ (Host.rc_cmd raw ∉ Host.ALLOWLIST →
     Host.spawned run.2 = Host.spawned h
     ∧ ∃ code message, run.1 = Ok (Host.err code message)).
Proof.
  cbv zeta.
  destruct (run_command_cases raw h) as [(-> & code & message & Hrun & _) | Hspawned].
  - repeat split; eauto.
  - destruct Hspawned as (Hin & Hinside & -> & _). cbn [Host.spawned].
    split; [right; auto |].
    intros Hout. contradiction.
Qed.

(** What [run_command] returns of the output of the child is cut at
    50000 characters, each stream on its own, and [truncated] says whether
    one of them was longer. *)
Theorem run_command_output_clipped (raw : Host.RunCommandArgs) (h : Host.t)
    (code : option Z) (out errout : string) (truncated : bool) :
  (Host.executeTool root child server is_url (Host.run_command raw) h).1
  = Ok (Host.ok (Host.CommandOutput code out errout truncated)) →
  (Z.of_nat (String.length out) ≤ 50000)%Z
  ∧ (Z.of_nat (String.length errout) ≤ 50000)%Z
  ∧ ∃ stdout stderr,
      child (requested raw (Path.resolve root (default "." (Host.rc_cwd raw))))
      = Host.Closed code stdout stderr
      ∧ out = String.substring 0 (Z.to_nat 50000) stdout
      ∧ errout = String.substring 0 (Z.to_nat 50000) stderr
      ∧ (truncated = true
         ↔ (50000 < Z.of_nat (String.length stdout))%Z
           ∨ (50000 < Z.of_nat (String.length stderr))%Z).
Proof.
  intros Hrun.
  destruct (run_command_cases raw h) as [(_ & c & m & Herr & _) | (_ & _ & _ & Hcase)].
  { rewrite Herr in Hrun. discriminate Hrun. }
  destruct (child _) as [code' stdout stderr | | message | message].
  - rewrite Hcase in Hrun. injection Hrun as <- <- <- <-.
    pose proof (length_substring0 (Z.to_nat 50000) stdout).
    pose proof (length_substring0 (Z.to_nat 50000) stderr).
    split; [lia |]. split; [lia |]. exists stdout, stderr.
    split; [reflexivity |]. split; [reflexivity |]. split; [reflexivity |].
    rewrite orb_true_iff, !Nat.ltb_lt. lia.
  - destruct Hcase as [m Herr]. rewrite Herr in Hrun. discriminate Hrun.
  - rewrite Hcase in Hrun. discriminate Hrun.
  - rewrite Hcase in Hrun. discriminate Hrun.
Qed.

(** [fetch_url] asks the server for the address it was given, which
    passed the validation; the body it returns is the head of the text of
    the answer, at most [maxBytes] characters of it (250000 by default,
    never more than 2000000), and [truncated] says whether the text is
    longer. *)
Theorem fetch_url_body_clipped (raw : Host.FetchUrlArgs) (h : Host.t)
    (url : string) (status : Z) (contentType : option string) (body : string)
    (truncated : bool) :
  (Host.executeTool root child server is_url (Host.fetch_url raw) h).1
  = Ok (Host.ok (Host.Page url status contentType body truncated)) →
  let cap := default 250000%Z (Host.fu_maxBytes raw) in
  url = Host.fu_url raw
  ∧ is_url url = true
  ∧ Host.fetched (Host.executeTool root child server is_url (Host.fetch_url raw) h).2
    = Host.fetched h ++ [url]
  ∧ (Z.of_nat (String.length body) ≤ cap ≤ 2000000)%Z
  ∧ ∃ text, server url = Host.Fetched status contentType text
      ∧ body = String.substring 0 (Z.to_nat cap) text
      ∧ (truncated = true ↔ String.length body < String.length text).
Proof.
  unfold Host.executeTool, Host.run_fetch_url, Host.parseFetchUrlArgs.
  unfold try_catch. rewrite bind_unfold.
  destruct (is_url (Host.fu_url raw)) eqn:Hurl; [| discriminate].
  destruct (Sandbox.opt_ok _ (Host.fu_maxBytes raw)) eqn:Hmax; [| discriminate].
  cbn [andb]. change ((mret ?a : Host.Run Host.FetchUrlArgs) h) with (Ok a, h).
  cbv iota beta. rewrite bind_unfold. unfold Host.fetch. cbv iota beta.
  cbn [Host.fu_url Host.fu_maxBytes default id].
  destruct (server (Host.fu_url raw)) as [status' contentType' text | message] eqn:Hserver;
    [| discriminate].
  cbn [fst snd Host.fetched]. intros [= <- <- <- <- <-]. cbv zeta.
  set (cap := default 250000%Z (Host.fu_maxBytes raw)) in *.
  assert (Hcap : (1024 ≤ cap ≤ 2000000)%Z).
  { unfold cap. destruct (Host.fu_maxBytes raw) as [v |]; cbn in Hmax |- *; [| lia].
    apply andb_true_iff in Hmax as [H1 H2]. apply Z.leb_le in H1, H2. lia. }
  unfold Js.substring0. pose proof (length_substring0 (Z.to_nat cap) text) as Hl.
  split; [reflexivity |]. split; [exact Hurl |]. split; [reflexivity |]. split; [lia |].
  exists text. split; [exact Hserver |]. split; [reflexivity |].
  rewrite Nat.ltb_lt. reflexivity.
Qed.

End HostFacts.

(** A child that lists two files, and a server with one page. *)
Definition listing_child (request : Host.Spawn) : Host.ProcessOutcome :=
  Host.Closed (Some 0%Z) "a.ts b.ts" "".
Definition one_page (url : string) : Host.FetchOutcome :=
  Host.Fetched 200 (Some "text/plain") "hello".
Definition idle_host : Host.t := Host.mk ws_disk [] [].

Lemma run_command_output_clipped_example :
  (Z.of_nat (String.length "a.ts b.ts") ≤ 50000)%Z
  ∧ (Z.of_nat (String.length "") ≤ 50000)%Z
  ∧ ∃ stdout stderr,
      listing_child
        (requested (Host.mkRunCommandArgs "ls" None None None None) (Path.resolve "/ws" "."))
      = Host.Closed (Some 0%Z) stdout stderr
      ∧ "a.ts b.ts" = String.substring 0 (Z.to_nat 50000) stdout
      ∧ "" = String.substring 0 (Z.to_nat 50000) stderr
      ∧ (false = true
         ↔ (50000 < Z.of_nat (String.length stdout))%Z
           ∨ (50000 < Z.of_nat (String.length stderr))%Z).
Proof.
  apply (run_command_output_clipped "/ws" listing_child one_page (λ _, true)
           (Host.mkRunCommandArgs "ls" None None None None) idle_host (Some 0%Z)
           "a.ts b.ts" "" false).
  vm_compute. reflexivity.
Defined.

Lemma fetch_url_body_clipped_example :
  "http://example.org/" = "http://example.org/"
  ∧ (λ _ : string, true) "http://example.org/" = true
  ∧ Host.fetched
      (Host.executeTool "/ws" listing_child one_page (λ _, true)
         (Host.fetch_url (Host.mkFetchUrlArgs "http://example.org/" None)) idle_host).2
    = Host.fetched idle_host ++ ["http://example.org/"]
  ∧ (Z.of_nat (String.length "hello") ≤ 250000 ≤ 2000000)%Z
  ∧ ∃ text, one_page "http://example.org/" = Host.Fetched 200 (Some "text/plain") text
      ∧ "hello" = String.substring 0 (Z.to_nat 250000) text
      ∧ (false = true ↔ String.length "hello" < String.length text).
Proof.
  apply (fetch_url_body_clipped "/ws" listing_child one_page (λ _, true)
           (Host.mkFetchUrlArgs "http://example.org/" None) idle_host
           "http://example.org/" 200 (Some "text/plain") "hello" false).
  vm_compute. reflexivity.
Defined.

(** ** Paths inside the workspace *)

Lemma segments_go_slash (cur a b : string) :
  Path.segments_go cur (a +:+ String Path.slash b)
  = Path.segments_go cur a ++ Path.segments_go "" b.
Proof.
  revert cur. induction a as [| c a IH]; intros cur.
  - change ("" +:+ String Path.slash b) with (String Path.slash b).
    cbn [Path.segments_go]. rewrite decide_True by reflexivity. reflexivity.
  - change (String c a +:+ String Path.slash b) with (String c (a +:+ String Path.slash b)).
    cbn [Path.segments_go]. destruct (decide (c = Path.slash)).
    + rewrite IH. reflexivity.
    + apply IH.
Qed.

Lemma normalize_go_app (stack A B : list string) :
  Path.normalize_go stack (A ++ B)
  = Path.normalize_go (reverse (Path.normalize_go stack A)) B.
Proof.
  revert stack. induction A as [| seg A IH]; intros stack.
  - cbn [app Path.normalize_go]. rewrite reverse_involutive. reflexivity.
  - cbn [app Path.normalize_go]. repeat case_decide; apply IH.
Qed.

(** The segments that normalisation keeps when none of them is [..]. *)
Definition kept (segs : list string) : list string :=
  filter (λ seg, seg ≠ "" ∧ seg ≠ ".") segs.

Lemma normalize_go_descend (stack segs : list string) :
  ".." ∉ segs → Path.normalize_go stack segs = reverse stack ++ kept segs.
Proof.
  revert stack. induction segs as [| seg segs IH]; intros stack Hnone.
  - cbn. rewrite app_nil_r. reflexivity.
  - apply not_elem_of_cons in Hnone as [Hseg Hrest]. cbn [Path.normalize_go]. unfold kept.
    destruct (decide (seg = "")) as [-> | Hne].
    { rewrite filter_cons_False by (intros [H _]; apply H; reflexivity). apply IH, Hrest. }
    destruct (decide (seg = ".")) as [-> | Hnd].
    { rewrite filter_cons_False by (intros [_ H]; apply H; reflexivity). apply IH, Hrest. }
    rewrite decide_False by (intros ->; apply Hseg; reflexivity).
    rewrite filter_cons_True by auto. rewrite IH by exact Hrest.
    rewrite reverse_cons, <- app_assoc. reflexivity.
Qed.

Lemma string_append_assoc (a b c : string) : (a +:+ b) +:+ c = a +:+ b +:+ c.
Proof.
  induction a as [| x a IH]; [reflexivity |].
  change ((String x a +:+ b) +:+ c) with (String x ((a +:+ b) +:+ c)).
  rewrite IH. reflexivity.
Qed.

Lemma string_append_nil_r (a : string) : a +:+ "" = a.
Proof.
  induction a as [| x a IH]; [reflexivity |].
  change (String x a +:+ "") with (String x (a +:+ "")). rewrite IH. reflexivity.
Qed.

Lemma concat_app_begins (sep : string) (N K : list string) :
  ∃ rest, String.concat sep (N ++ K) = String.concat sep N +:+ rest.
Proof.
  induction N as [| x N IH].
  - exists (String.concat sep K). reflexivity.
  - destruct IH as [rest IH]. destruct N as [| y N].
    + destruct K as [| z K].
      * exists "". rewrite string_append_nil_r. reflexivity.
      * exists (sep +:+ String.concat sep (z :: K)). reflexivity.
    + exists rest. change (String.concat sep ((x :: y :: N) ++ K))
        with (x +:+ sep +:+ String.concat sep ((y :: N) ++ K)).
      rewrite IH. change (String.concat sep (x :: y :: N))
        with (x +:+ sep +:+ String.concat sep (y :: N)).
      rewrite !string_append_assoc. reflexivity.
Qed.

Lemma prefix_append (p rest : string) : String.prefix p (p +:+ rest) = true.
Proof.
  induction p as [| c p IH]; [destruct rest; reflexivity |].
  change (String c p +:+ rest) with (String c (p +:+ rest)). cbn [String.prefix].
  destruct (ascii_dec c c) as [_ | Hne]; [exact IH | destruct Hne; reflexivity].
Qed.

(** A relative path that never steps up stays under the root. When the
    workspace root is a resolved path, as [path.resolve] leaves it, every
    relative path with no [..] segment passes [safeResolve], which gives its
    resolved form and touches no file. *)
Theorem relative_path_without_dotdot_accepted (root path : string) (d : Disk) :
  Path.resolve "/" root = root →
  Path.isAbsolute root = true →
  Path.isAbsolute path = false →
  ".." ∉ Path.segments path →
  safeResolve root path d = (Ok (Path.resolve root path), d)
  ∧ Js.startsWith (Path.resolve root path) root = true.
Proof.
  intros Hroot Habs Hrel Hnone.
  assert (Hin : Js.startsWith (Path.resolve root path) root = true).
  { unfold Path.resolve in Hroot. rewrite Habs in Hroot.
    set (N := Path.normalize_go [] (Path.segments root)) in *.
    unfold Path.resolve. rewrite Hrel.
    change (root +:+ "/" +:+ path) with (root +:+ String Path.slash path).
    unfold Path.segments at 1. rewrite segments_go_slash.
    fold (Path.segments root) (Path.segments path).
    rewrite normalize_go_app. fold N.
    rewrite normalize_go_descend by exact Hnone. rewrite reverse_involutive.
    destruct (concat_app_begins "/" N (kept (Path.segments path))) as [rest ->].
    unfold Js.startsWith. rewrite <- Hroot.
    change ("/" +:+ String.concat "/" N +:+ rest)
      with (String Path.slash (String.concat "/" N +:+ rest)).
    change ("/" +:+ String.concat "/" N) with (String Path.slash (String.concat "/" N)).
    cbn [String.prefix]. destruct (ascii_dec Path.slash Path.slash) as [_ | Hne];
      [apply prefix_append | destruct Hne; reflexivity]. }
  split; [| exact Hin]. unfold safeResolve. rewrite Hin. reflexivity.
Qed.

Lemma relative_path_without_dotdot_accepted_example :
  safeResolve "/ws" "src/./agent//tools.ts" ws_disk
  = (Ok (Path.resolve "/ws" "src/./agent//tools.ts"), ws_disk)
  ∧ Js.startsWith (Path.resolve "/ws" "src/./agent//tools.ts") "/ws" = true.
Proof.
  apply relative_path_without_dotdot_accepted.
  - reflexivity.
  - reflexivity.
  - reflexivity.
  - change (Path.segments "src/./agent//tools.ts") with ["src"; "."; "agent"; ""; "tools.ts"].
    rewrite !not_elem_of_cons. repeat split; try discriminate.
    apply not_elem_of_nil.
Defined.

(** ** The reflector, when it is answered with a verdict *)

(** The character occurs in the text. *)
Fixpoint occurs (c : ascii) (s : string) : bool :=
  match s with
  | EmptyString => false
  | String x rest => bool_decide (x = c) || occurs c rest
  end.

Lemma from_first_open_skips (pre rest : string) :
  occurs "{" pre = false →
  Engine.from_first_open (pre +:+ String "{" rest) = Some (String "{" rest).
Proof.
  induction pre as [| x pre IH]; intros Hnone.
  - change ("" +:+ String "{" rest) with (String "{"%char rest). cbn.
    rewrite decide_True by reflexivity. reflexivity.
  - cbn in Hnone. apply orb_false_iff in Hnone as [Hx Hpre].
    change (String x pre +:+ String "{" rest) with (String x (pre +:+ String "{"%char rest)).
    cbn [Engine.from_first_open].
    rewrite decide_False by (exact (bool_decide_eq_false_1 _ Hx)). apply IH, Hpre.
Qed.

Lemma upto_last_close_none (post : string) :
  occurs "}" post = false → Engine.upto_last_close post = None.
Proof.
  induction post as [| x post IH]; intros Hnone; [reflexivity |].
  cbn in Hnone. apply orb_false_iff in Hnone as [Hx Hpost].
  cbn [Engine.upto_last_close]. rewrite (IH Hpost).
  rewrite decide_False by (exact (bool_decide_eq_false_1 _ Hx)). reflexivity.
Qed.

Lemma upto_last_close_stops (mid post : string) :
  occurs "}" post = false →
  Engine.upto_last_close (mid +:+ String "}" post) = Some (mid +:+ "}").
Proof.
  intros Hnone. induction mid as [| x mid IH].
  - change ("" +:+ String "}" post) with (String "}"%char post).
    cbn [Engine.upto_last_close]. rewrite (upto_last_close_none post Hnone).
    rewrite decide_True by reflexivity. reflexivity.
  - change (String x mid +:+ String "}" post) with (String x (mid +:+ String "}"%char post)).
    cbn [Engine.upto_last_close]. rewrite IH. reflexivity.
Qed.

(** [match_object] keeps the text from the first opening brace to the
    last closing brace, and drops what is written around it. *)
Lemma match_object_between (pre mid post : string) :
  occurs "{" pre = false → occurs "}" post = false →
  Engine.match_object (pre +:+ "{" +:+ mid +:+ "}" +:+ post) = Some ("{" +:+ mid +:+ "}").
Proof.
  intros Hpre Hpost. unfold Engine.match_object.
  change (pre +:+ "{" +:+ mid +:+ "}" +:+ post)
    with (pre +:+ String "{"%char (mid +:+ String "}"%char post)).
  rewrite (from_first_open_skips pre _ Hpre). cbn [mbind option_bind].
  change (String "{"%char (mid +:+ String "}"%char post))
    with (String "{"%char mid +:+ String "}"%char post).
  rewrite (upto_last_close_stops _ post Hpost). reflexivity.
Qed.

(** When the model answers the reflector with a verdict in braces,
    whatever it writes before and after, and the text in the braces parses,
    [reflectOnTask] returns the parsed verdict and records one decision in
    the ledger: the outcome and the confidence as content, the analysis as
    context, under the identifier of the run. The state object is left as
    it is. *)
Theorem reflection_read_between_braces (w : World) (task : Task.t) (result : string)
    (s : Sys) (pre mid post : string) (reflection : ReflectionResult.t) :
  llm w (llm_calls s) = Completion (pre +:+ "{" +:+ mid +:+ "}" +:+ post) →
  occurs "{" pre = false →
  occurs "}" post = false →
  JSON_parse w ("{" +:+ mid +:+ "}") = Some reflection →
  ∃ e s', Engine.reflectOnTask w task result s = (Ok reflection, s')
    ∧ journal s' = newest 1000 (journal s ++ [e])
    ∧ MemoryEntry.type e = MemoryType.decision
    ∧ MemoryEntry.content e
      = "Task " +:+ Js.dquote +:+ Task.description task +:+ Js.dquote +:+ ": "
          +:+ (if ReflectionResult.success reflection then "Success" else "Failed")
          +:+ " (confidence: " +:+ Js.show (ReflectionResult.confidence reflection) +:+ "%)"
    ∧ MemoryEntry.context e = Some (ReflectionResult.analysis reflection)
    ∧ MemoryEntry.goalId e = Some (AgentState.id (agent s))
    ∧ agent s' = agent s.
Proof.
  intros Hllm Hpre Hpost Hparse.
  unfold Engine.reflectOnTask. rewrite (bind_ok _ _ s s (agent s)) by reflexivity.
  rewrite bind_unfold. unfold Engine.callLLM. rewrite Hllm. cbv iota beta.
  rewrite (match_object_between pre mid post Hpre Hpost), Hparse.
  set (s1 := tick_llm (set_prompts _ s)).
  match goal with
  | |- context [Memory.addMemoryEntry w ?ty ?content ?context ?goalId] =>
      destruct (addMemoryEntry_journal w ty content context goalId s1)
        as (e & s' & Hrun & (Hty & Hcontent & Hcontext & Hgoal) & Hjournal & _ & Hagent)
  end.
  rewrite (bind_ok _ _ _ _ _ Hrun). exists e, s'. split; [reflexivity |].
  split; [exact Hjournal |]. split; [exact Hty |]. split; [exact Hcontent |].
  split; [exact Hcontext |]. split; [exact Hgoal | exact Hagent].
Qed.

(** The reflector is answered with a verdict, and a few words around
    it. *)
Definition wordy_world : World :=
  Demo.world (λ _, Completion ("Here you go: " +:+ Demo.verdict_json false true +:+ " Bye."))
             (λ _, ExecDirect "ok").

Lemma reflection_read_between_braces_example :
  ∃ e s', Engine.reflectOnTask wordy_world first_task "ok" Demo.fresh
            = (Ok (ReflectionResult.mk false "checked" true None 90), s')
    ∧ journal s' = newest 1000 (journal Demo.fresh ++ [e])
    ∧ MemoryEntry.type e = MemoryType.decision
    ∧ MemoryEntry.content e
      = "Task " +:+ Js.dquote +:+ "step 1" +:+ Js.dquote +:+ ": " +:+ "Failed"
          +:+ " (confidence: " +:+ Js.show 90 +:+ "%)"
    ∧ MemoryEntry.context e = Some "checked"
    ∧ MemoryEntry.goalId e = Some ""
    ∧ agent s' = agent Demo.fresh.
Proof.
  apply (reflection_read_between_braces wordy_world first_task "ok" Demo.fresh
           "Here you go: "
           (String.substring 1 (String.length (Demo.verdict_json false true) - 2)
                             (Demo.verdict_json false true))
           " Bye." (ReflectionResult.mk false "checked" true None 90)).
  - vm_compute. reflexivity.
  - reflexivity.
  - reflexivity.
  - vm_compute. reflexivity.
Defined.

(** ** The calls a run makes *)

Definition steps_of (s : Sys) : Z := AgentState.stepsExecuted (agent s).

(** The model is not asked and no step is counted. *)
Definition uncounted (s s' : Sys) : Prop :=
  llm_calls s' = llm_calls s ∧ exec_calls s ≤ exec_calls s' ∧ steps_of s' = steps_of s.

(** The books of a stretch of the loop, with or without a reflection
    after each step: the model was asked once for each step counted (or
    not at all), and the executor at least once for each. *)
Definition accounted (reflecting : bool) (s s' : Sys) : Prop :=
  (Z.of_nat (llm_calls s') - Z.of_nat (llm_calls s)
   = if reflecting then steps_of s' - steps_of s else 0)%Z
  ∧ (0 ≤ steps_of s' - steps_of s)%Z
  ∧ (steps_of s' - steps_of s ≤ Z.of_nat (exec_calls s') - Z.of_nat (exec_calls s))%Z.

Lemma uncounted_accounted (reflecting : bool) (s s' : Sys) :
  uncounted s s' → accounted reflecting s s'.
Proof.
  intros (Hl & Hx & Hs). unfold accounted. rewrite Hl, Hs. destruct reflecting; lia.
Qed.

Lemma loop_update_steps (g : AgentState.t → AgentState.t) (a : AgentState.t) :
  loop_update g → AgentState.stepsExecuted (g a) = AgentState.stepsExecuted a.
Proof. intros [x | i f Hf | entry | t | k]; reflexivity. Qed.

Lemma stable_uncounted : Stable uncounted.
Proof.
  constructor; try (intros; repeat split; reflexivity).
  - intros s1 s2 s3 (Hl1 & Hx1 & Hs1) (Hl2 & Hx2 & Hs2).
    split; [congruence |]. split; [lia | congruence].
  - intros prompt s. split; [reflexivity |]. split; [cbn; lia | reflexivity].
  - intros g s Hg. split; [reflexivity |]. split; [reflexivity |].
    unfold steps_of. cbn. apply loop_update_steps, Hg.
Qed.

Lemma stable_accounted (reflecting : bool) : Stable (accounted reflecting).
Proof.
  constructor.
  - intros s. apply uncounted_accounted, (st_refl _ stable_uncounted).
  - intros s1 s2 s3 (Hl1 & Hs1 & Hx1) (Hl2 & Hs2 & Hx2). unfold accounted.
    destruct reflecting; lia.
  - intros s. apply uncounted_accounted, (st_clock _ stable_uncounted).
  - intros s. apply uncounted_accounted, (st_ids _ stable_uncounted).
  - intros prompt s. apply uncounted_accounted, (st_exec _ stable_uncounted).
  - intros s. apply uncounted_accounted, (st_emit _ stable_uncounted).
  - intros g s Hg. apply uncounted_accounted, (st_agent _ stable_uncounted), Hg.
Qed.

Lemma aside_uncounted {A} (m : IO A) : aside m → rely uncounted m.
Proof.
  intros Hm s. destruct (Hm s) as (a & s' & -> & Ha & Hl & Hx). cbn [snd].
  split; [exact Hl |]. split; [lia |]. unfold steps_of. rewrite Ha. reflexivity.
Qed.

Lemma aside_accounted {A} (reflecting : bool) (m : IO A) :
  aside m → rely (accounted reflecting) m.
Proof. intros Hm s. apply uncounted_accounted, aside_uncounted, Hm. Qed.

(** The executor is asked once, whatever comes of it. *)
Lemma executeTaskWithTools_counts (w : World) (task : Task.t) (s : Sys) :
  let s' := (Engine.executeTaskWithTools w task s).2 in
  llm_calls s' = llm_calls s ∧ exec_calls s' = S (exec_calls s) ∧ steps_of s' = steps_of s.
Proof.
  cbv zeta. unfold Engine.executeTaskWithTools.
  rewrite (bind_ok _ _ s s (agent s)) by reflexivity.
  destruct (formatMemoryForPrompt_aside w (Some (AgentState.id (agent s))) s)
    as (memory & s1 & Hrun1 & Ha1 & Hl1 & Hx1).
  rewrite (bind_ok _ _ _ _ _ Hrun1). rewrite bind_unfold. unfold Engine.ask_executor.
  cbv iota beta.
  set (s2 := tick_exec (set_prompts _ s1)).
  assert (H2 : llm_calls s2 = llm_calls s ∧ exec_calls s2 = S (exec_calls s)
               ∧ steps_of s2 = steps_of s).
  { unfold s2, steps_of. cbn. rewrite Hl1, Hx1, Ha1. auto. }
  destruct (executor w (exec_calls s1)) as [message | response | e | toolName params out];
    try exact H2.
  destruct (log_run w LogType.tool ("Using tool: " +:+ toolName) (Some params) s2)
    as (s3 & Hrun3 & Ha3 & Hl3 & Hx3).
  rewrite (bind_ok _ _ _ _ _ Hrun3).
  match goal with
  | |- context [Memory.addMemoryEntry w ?ty ?content ?context ?goalId] =>
      destruct (addMemoryEntry_aside w ty content context goalId s3)
        as (entry & s4 & Hrun4 & Ha4 & Hl4 & Hx4)
  end.
  rewrite (bind_ok _ _ _ _ _ Hrun4). cbn [snd mret State_ret].
  destruct H2 as (Hl2 & Hx2 & Hs2).
  rewrite Hl4, Hl3, Hx4, Hx3. split; [exact Hl2 |]. split; [exact Hx2 |].
  unfold steps_of in *. rewrite Ha4, Ha3. exact Hs2.
Qed.

(** The reflector asks the model once, whatever comes of it. *)
Lemma reflectOnTask_counts (w : World) (task : Task.t) (result : string) (s : Sys) :
  let s' := (Engine.reflectOnTask w task result s).2 in
  llm_calls s' = S (llm_calls s) ∧ exec_calls s' = exec_calls s ∧ steps_of s' = steps_of s.
Proof.
  cbv zeta. unfold Engine.reflectOnTask.
  rewrite (bind_ok _ _ s s (agent s)) by reflexivity.
  rewrite bind_unfold. unfold Engine.callLLM.
  set (s1 := tick_llm (set_prompts _ s)).
  assert (H1 : llm_calls s1 = S (llm_calls s) ∧ exec_calls s1 = exec_calls s
               ∧ steps_of s1 = steps_of s) by (repeat split).
  destruct (llm w (llm_calls s)) as [response | message]; [| exact H1].
  cbv iota beta.
  destruct (Engine.match_object response) as [jsonMatch |]; [| exact H1].
  destruct (JSON_parse w jsonMatch) as [reflection |]; [| exact H1].
  match goal with
  | |- context [Memory.addMemoryEntry w ?ty ?content ?context ?goalId] =>
      destruct (addMemoryEntry_aside w ty content context goalId s1)
        as (entry & s2 & Hrun2 & Ha2 & Hl2 & Hx2)
  end.
  rewrite (bind_ok _ _ _ _ _ Hrun2). cbn [snd mret State_ret].
  destruct H1 as (Hl1 & Hx1 & Hs1). rewrite Hl2, Hx2.
  split; [exact Hl1 |]. split; [exact Hx1 |]. unfold steps_of in *. rewrite Ha2. exact Hs1.
Qed.

Lemma try_catch_bind_ok {A B} (m : IO A) (k : A → IO B) (h : string → IO B)
    (s s' : Sys) (a : A) :
  m s = (Ok a, s') → try_catch (m ≫= k) h s = try_catch (k a) h s'.
Proof. intros H. unfold try_catch. rewrite bind_unfold, H. reflexivity. Qed.

Lemma log_uncounted (w : World) type message data (s : Sys) :
  ∃ s', Engine.log w type message data s = (Ok (), s') ∧ uncounted s s'.
Proof.
  destruct (log_run w type message data s) as (s' & Hrun & Ha & Hl & Hx).
  exists s'. split; [exact Hrun |]. split; [exact Hl |]. split; [lia |].
  unfold steps_of. rewrite Ha. reflexivity.
Qed.

Section Accounts.
Context (w : World) (finalConfig : AgentConfig.t) (stateId : string).

Let reflecting : bool := AgentConfig.reflectionEnabled finalConfig.

(** Once the executor has answered, the turn of the retry loop counts
    one step, and asks the model once if the run reflects. *)
Lemma after_execute_counts i task retries result (s : Sys) :
  let s' := (try_catch (Engine.after_execute w finalConfig i task retries result)
                       (Engine.on_error w finalConfig i task retries result) s).2 in
  llm_calls s' = (if reflecting then S (llm_calls s) else llm_calls s)
  ∧ exec_calls s ≤ exec_calls s'
  ∧ steps_of s' = (steps_of s + 1)%Z.
Proof.
  cbv zeta.
  pose proof stable_uncounted as Hstable.
  pose proof (rely_log w stable_uncounted) as Hrely_log.
  assert (Hcalm : ∀ (m : IO Engine.Step) (s0 : Sys),
            rely uncounted m →
            uncounted s0
              (try_catch m (Engine.on_error w finalConfig i task retries result) s0).2).
  { intros m s0 Hm.
    apply (rely_try_catch stable_uncounted); [exact Hm |].
    intros e. apply (rely_on_error w stable_uncounted). }
  unfold Engine.after_execute.
  set (s1 := set_agent
               (AgentState.set_stepsExecuted (AgentState.stepsExecuted (agent s) + 1)%Z
                                             (agent s)) s).
  rewrite (try_catch_bind_ok _ _ _ s s1 ()) by reflexivity.
  match goal with
  | |- context [try_catch (Engine.log w ?ty ?msg ?data ≫= _) _ s1] =>
      destruct (log_uncounted w ty msg data s1) as (s2 & Hrun2 & Hl2 & Hx2 & Hs2)
  end.
  rewrite (try_catch_bind_ok _ _ _ _ _ _ Hrun2).
  set (s3 := set_emitted (emitted s2 ++ [agent s2]) s2).
  rewrite (try_catch_bind_ok _ _ _ s2 s3 ()) by reflexivity.
  assert (H3 : llm_calls s3 = llm_calls s ∧ exec_calls s ≤ exec_calls s3
               ∧ steps_of s3 = (steps_of s + 1)%Z).
  { change (llm_calls s3) with (llm_calls s2). change (exec_calls s3) with (exec_calls s2).
    change (steps_of s3) with (steps_of s2). rewrite Hl2, Hs2.
    split; [reflexivity |]. split; [exact Hx2 | reflexivity]. }
  destruct H3 as (Hl3 & Hx3 & Hs3).
  unfold reflecting. destruct (AgentConfig.reflectionEnabled finalConfig).
  - set (s4 := set_agent (AgentState.set_status RunStatus.reflecting (agent s3)) s3).
    rewrite (try_catch_bind_ok _ _ _ s3 s4 ()) by reflexivity.
    set (s5 := set_emitted (emitted s4 ++ [agent s4]) s4).
    rewrite (try_catch_bind_ok _ _ _ s4 s5 ()) by reflexivity.
    pose proof (reflectOnTask_counts w task result s5) as (Hl6 & Hx6 & Hs6).
    unfold try_catch. rewrite bind_unfold.
    destruct (Engine.reflectOnTask w task result s5) as [[reflection | e |] s6];
      cbn [snd] in Hl6, Hx6, Hs6.
    + match goal with
      | |- context [match ?m s6 with _ => _ end] =>
          assert (Hu : uncounted s6
                         (try_catch m (Engine.on_error w finalConfig i task retries result)
                                    s6).2)
            by (apply Hcalm; rely_steps)
      end.
      unfold try_catch in Hu. destruct Hu as (Hl7 & Hx7 & Hs7).
      rewrite Hl7, Hs7, Hl6, Hs6. split; [auto |]. split; [| exact Hs3].
      rewrite Hx6 in Hx7. exact (Nat.le_trans _ _ _ Hx3 Hx7).
    + destruct (rely_on_error w stable_uncounted finalConfig i task retries result e s6)
        as (Hl7 & Hx7 & Hs7).
      rewrite Hl7, Hs7, Hl6, Hs6. split; [auto |]. split; [| exact Hs3].
      rewrite Hx6 in Hx7. exact (Nat.le_trans _ _ _ Hx3 Hx7).
    + cbn [snd]. rewrite Hl6, Hx6, Hs6. auto.
  - match goal with
    | |- context [try_catch ?m _ s3] =>
        assert (Hu : uncounted s3
                       (try_catch m (Engine.on_error w finalConfig i task retries result)
                                  s3).2)
          by (apply Hcalm; rely_steps)
    end.
    destruct Hu as (Hl7 & Hx7 & Hs7). rewrite Hl7, Hs7.
    split; [auto |]. split; [exact (Nat.le_trans _ _ _ Hx3 Hx7) | exact Hs3].
Qed.

(** A turn of the retry loop keeps the books. *)
Lemma attempt_accounted i task retries result :
  rely (accounted reflecting) (Engine.attempt w finalConfig i task retries result).
Proof.
  intros s. unfold Engine.attempt, try_bind.
  pose proof (executeTaskWithTools_counts w task s) as (Hl1 & Hx1 & Hs1).
  destruct (Engine.executeTaskWithTools w task s) as [[result' | e |] s1];
    cbn [snd] in Hl1, Hx1, Hs1.
  - pose proof (after_execute_counts i task retries result' s1) as (Hl2 & Hx2 & Hs2).
    unfold accounted. rewrite Hl2, Hs2, Hl1, Hs1. destruct reflecting; lia.
  - destruct (rely_on_error w stable_uncounted finalConfig i task retries result e s1)
      as (Hl2 & Hx2 & Hs2).
    unfold accounted. rewrite Hl2, Hs2, Hl1, Hs1. destruct reflecting; lia.
  - cbn [snd]. unfold accounted. rewrite Hl1, Hx1, Hs1. destruct reflecting; lia.
Qed.

(** The plan, the loop over the tasks and the verdict: the planner asks
    the model once, whatever comes of it, and the rest keeps the books. *)
Lemma planned_run_counts (goal : string) (s : Sys) :
  let s' := (try_catch (Engine.plan_and_run w finalConfig stateId goal)
                       (Engine.on_agent_error w stateId) s).2 in
  (Z.of_nat (llm_calls s')
   = Z.of_nat (llm_calls s) + 1 + if reflecting then steps_of s' - steps_of s else 0)%Z
  ∧ (0 ≤ steps_of s' - steps_of s)%Z
  ∧ (steps_of s' - steps_of s ≤ Z.of_nat (exec_calls s') - Z.of_nat (exec_calls s))%Z.
Proof.
  cbv zeta.
  pose proof (stable_accounted reflecting) as Hstable.
  assert (Hentry : ∀ type content context goalId,
            rely (accounted reflecting) (Memory.addMemoryEntry w type content context goalId))
    by (intros; apply aside_accounted, addMemoryEntry_aside).
  assert (Hgoal : ∀ status,
            rely (accounted reflecting) (Memory.updateGoalStatus w stateId status))
    by (intros; apply aside_accounted, updateGoalStatus_aside).
  pose proof (rely_log w Hstable) as Hlog.
  pose proof (rely_for_tasks w Hstable Hentry finalConfig stateId attempt_accounted) as Hloop.
  pose proof (rely_conclude w Hstable stateId Hgoal) as Hconclude.
  pose proof (rely_on_agent_error w Hstable stateId Hgoal) as Hhandler.
  assert (Hplan : ∀ tasks, rely (accounted reflecting)
                             (Engine.update_agent (AgentState.set_tasks tasks))).
  { intros tasks s0. apply uncounted_accounted. repeat split. cbn. lia. }
  unfold Engine.plan_and_run.
  destruct (formatMemoryForPrompt_aside w None s) as (memory & s1 & Hrun1 & Ha1 & Hl1 & Hx1).
  rewrite (try_catch_bind_ok _ _ _ _ _ _ Hrun1).
  set (s2 := tick_llm (set_prompts (prompts s1 ++ [Engine.planner_prompt goal memory]) s1)).
  assert (H2 : llm_calls s2 = S (llm_calls s) ∧ exec_calls s2 = exec_calls s
               ∧ steps_of s2 = steps_of s).
  { unfold s2, steps_of. cbn. rewrite Hl1, Hx1, Ha1. auto. }
  destruct H2 as (Hl2 & Hx2 & Hs2).
  destruct (llm w (llm_calls s1)) as [plan | message] eqn:Hllm.
  - assert (Hp : Engine.planTasks w goal memory s1 = (Ok (Engine.parse_plan plan), s2)).
    { unfold Engine.planTasks. rewrite bind_unfold. unfold Engine.callLLM.
      rewrite Hllm. reflexivity. }
    rewrite (try_catch_bind_ok _ _ _ _ _ _ Hp).
    match goal with
    | |- context [try_catch ?m ?h s2] =>
        assert (Hr : accounted reflecting s2 (try_catch m h s2).2)
          by (apply (rely_try_catch Hstable); [rely_steps | exact Hhandler]);
        set (s' := (try_catch m h s2).2) in *
    end.
    destruct Hr as (Hl & Hs & Hx).
    rewrite Hl2, Hx2, Hs2 in *. destruct reflecting; lia.
  - assert (Hp : Engine.planTasks w goal memory s1 = (Throw message, s2)).
    { unfold Engine.planTasks. rewrite bind_unfold. unfold Engine.callLLM.
      rewrite Hllm. reflexivity. }
    unfold try_catch. rewrite bind_unfold, Hp.
    destruct (Hhandler message s2) as (Hl & Hs & Hx).
    set (s' := (Engine.on_agent_error w stateId message s2).2) in *.
    rewrite Hl2, Hx2, Hs2 in *. destruct reflecting; lia.
Qed.

End Accounts.

(** The books of a run. Beside the requests of the executor, a run that
    has returned has asked the model once for the plan and, when it
    reflects, once more for every step it counted, and not otherwise: the
    planner and the reflector have made [1 + stepsExecuted] requests with
    reflection, one without, whether they were answered or rejected. Each
    step counted follows a request of the executor of its own, so
    [stepsExecuted] never exceeds the number of executor requests. *)
Theorem run_calls_accounted (w : World) (goal : string) (config : AgentConfig.partial)
    (forcedId : option string) (s s' : Sys) (final : AgentState.t) :
  Engine.runAgent w goal config forcedId s = (Ok final, s') →
  let finalConfig := AgentConfig.spread Engine.DEFAULT_CONFIG config in
  (Z.of_nat (llm_calls s')
   = Z.of_nat (llm_calls s) + 1
     + if AgentConfig.reflectionEnabled finalConfig
       then AgentState.stepsExecuted final else 0)%Z
  ∧ (0 ≤ AgentState.stepsExecuted final)%Z
  ∧ (AgentState.stepsExecuted final
     ≤ Z.of_nat (exec_calls s') - Z.of_nat (exec_calls s))%Z.
Proof.
  intros Hrun finalConfig.
  pose proof (runAgent_returns_agent _ _ _ _ _ _ _ Hrun) as Hfinal.
  rewrite runAgent_begin in Hrun. fold finalConfig in Hrun.
  set (stateId := default (random_id w (ids_made s)) forcedId) in *.
  set (s0 := begin w goal config forcedId s) in *.
  assert (H0 : llm_calls s0 = llm_calls s ∧ exec_calls s0 = exec_calls s ∧ steps_of s0 = 0%Z)
    by (destruct forcedId; repeat split).
  destruct H0 as (Hl0 & Hx0 & Hs0).
  unfold started_run in Hrun.
  apply bind_ok_inv in Hrun as ([] & s1 & H1 & Hrun).
  apply bind_ok_inv in Hrun as ([] & s2 & H2 & Hrun).
  apply bind_ok_inv in Hrun as ([] & s3 & H3 & Hrun).
  apply bind_ok_inv in Hrun as (entry & s4 & H4 & Hrun).
  apply bind_ok_inv in Hrun as ([] & s5 & H5 & Hrun).
  apply bind_ok_inv in Hrun as ([] & s6 & H6 & Hrun).
  apply bind_ok_inv in Hrun as ([] & s7 & H7 & Hrun).
  pose proof (rely_emit stable_uncounted s0) as U1. rewrite H1 in U1.
  pose proof (rely_log w stable_uncounted LogType.info
                ("Starting agent with goal: " +:+ goal) None s1) as U2. rewrite H2 in U2.
  pose proof (aside_uncounted _ (addGoal_aside w goal stateId) s2) as U3. rewrite H3 in U3.
  pose proof (aside_uncounted _ (addMemoryEntry_aside w MemoryType.goal goal None
                                   (Some stateId)) s3) as U4. rewrite H4 in U4.
  pose proof (rely_emit stable_uncounted s4) as U5. rewrite H5 in U5.
  pose proof (planned_run_counts w finalConfig stateId goal s5) as P6. rewrite H6 in P6.
  pose proof (rely_emit stable_uncounted s6) as U7. rewrite H7 in U7.
  unfold gets in Hrun. injection Hrun as _ <-.
  cbn [snd] in U1, U2, U3, U4, U5, P6, U7.
  destruct U1 as (Hl1 & Hx1 & Hs1), U2 as (Hl2 & Hx2 & Hs2), U3 as (Hl3 & Hx3 & Hs3),
    U4 as (Hl4 & Hx4 & Hs4), U5 as (Hl5 & Hx5 & Hs5), U7 as (Hl7 & Hx7 & Hs7).
  destruct P6 as (Hl6 & Hs6 & Hx6).
  assert (Hsteps : AgentState.stepsExecuted final = steps_of s7)
    by (rewrite <- Hfinal; reflexivity).
  rewrite Hsteps.
  destruct (AgentConfig.reflectionEnabled finalConfig); lia.
Qed.

Definition halting_final : AgentState.t :=
  match halting_run.1 with Ok final => final | _ => Demo.blank end.

(** The run that halts at its second task: two steps counted, two
    requests of the executor, and three requests of the planner and the
    reflector. *)
Lemma run_calls_accounted_example :
  (Z.of_nat (llm_calls halting_run.2)
   = Z.of_nat (llm_calls Demo.fresh) + 1
     + if AgentConfig.reflectionEnabled
            (AgentConfig.spread Engine.DEFAULT_CONFIG AgentConfig.empty)
       then AgentState.stepsExecuted halting_final else 0)%Z
  ∧ (0 ≤ AgentState.stepsExecuted halting_final)%Z
  ∧ (AgentState.stepsExecuted halting_final
     ≤ Z.of_nat (exec_calls halting_run.2) - Z.of_nat (exec_calls Demo.fresh))%Z.
Proof.
  apply (run_calls_accounted halting_world "g" AgentConfig.empty None Demo.fresh
           halting_run.2 halting_final).
  vm_compute. reflexivity.
Defined.

(** ** Writing an entry and reading it back *)

Lemma newest_snoc {A} (n : nat) (l : list A) (x : A) :
  0 < n → newest n (l ++ [x]) = newest (n - 1) l ++ [x].
Proof.
  intros Hn. unfold newest. rewrite length_app. cbn [length].
  rewrite drop_app_le by lia. do 2 f_equal. lia.
Qed.

(** [addMemoryEntry] then [getRecentMemory]: the entry just written is the
    newest one read back, whatever the journal held and however full it
    was, for every limit that is not negative and for a reader that asks
    for no goal or for the goal the entry was written under. *)
Theorem added_entry_is_most_recent (w : World) (type : MemoryType.t) (content : string)
    (context goalId asked : option string) (limit : Z) (s : Sys) :
  (0 ≤ limit)%Z →
  (Js.truthy asked = true → asked = goalId) →
  ∃ entry s1 recent s2,
    Memory.addMemoryEntry w type content context goalId s = (Ok entry, s1)
    ∧ Memory.getRecentMemory w limit asked s1 = (Ok recent, s2)
    ∧ records (mkAppend type content context goalId) entry
    ∧ last recent = Some entry.
Proof.
  intros Hlimit Hasked.
  destruct (addMemoryEntry_journal w type content context goalId s)
    as (entry & s1 & Hadd & Hrec & Hjournal & _ & _).
  destruct (loadMemory_journal w s1) as (memory & s2 & Hload & Hentries & _ & _ & _).
  exists entry, s1. eexists _, s2. split; [exact Hadd |]. split.
  { unfold Memory.getRecentMemory. rewrite (bind_ok _ _ _ _ _ Hload). reflexivity. }
  split; [exact Hrec |].
  cbv zeta. rewrite Hentries, Hjournal, newest_snoc by lia.
  set (older := newest (1000 - 1) (journal s)).
  assert (Hshown : ∃ shown,
            (if Js.truthy asked
             then filter (λ e, MemoryEntry.goalId e = asked) (older ++ [entry])
             else older ++ [entry]) = shown ++ [entry]).
  { destruct (Js.truthy asked) eqn:Htruthy.
    - exists (filter (λ e, MemoryEntry.goalId e = asked) older).
      rewrite filter_app, filter_cons_True; [reflexivity |].
      destruct Hrec as (_ & _ & _ & Hgoal). rewrite Hgoal. cbn. symmetry. auto.
    - exists older. reflexivity. }
  destruct Hshown as (shown & ->).
  destruct (decide (limit = 0%Z)) as [-> | Hpos].
  - cbn. apply last_snoc.
  - replace limit with (Z.of_nat (Z.to_nat limit)) by lia.
    rewrite slice_from_neg_newest, newest_snoc by lia. apply last_snoc.
Qed.

Lemma added_entry_is_most_recent_example :
  ∃ entry s1 recent s2,
    Memory.addMemoryEntry quiet_world MemoryType.task "Completed: tidy up" None (Some "g1")
      two_notes = (Ok entry, s1)
    ∧ Memory.getRecentMemory quiet_world 15 (Some "g1") s1 = (Ok recent, s2)
    ∧ records (mkAppend MemoryType.task "Completed: tidy up" None (Some "g1")) entry
    ∧ last recent = Some entry.
Proof.
  apply (added_entry_is_most_recent quiet_world MemoryType.task "Completed: tidy up" None
           (Some "g1") (Some "g1") 15 two_notes); [lia | reflexivity].
Defined.
